(** * Iterative retrieval / fusion / evaluation orchestrator

    A shallow embedding of [apps/api/src/controllers/v2/search.ts]:
    the query expander, the rank fusion ([rrfMerge]), the scrape
    dispatcher, the span extractor, the answer evaluator and the bounded
    control loop of [searchController].

    Modelling conventions.
    - A JavaScript number is an integer ([Z]) where it is a rank, a
      count or a credit value.  The scores of the rank fusion and of the
      re-ranking are modelled twice.  In [RankFusion] and [Controller]
      they are exact rationals ([Q]): these models carry the statements
      that do not depend on how two scores compare (which URLs are
      fused, their representatives, the positions, what is dispatched
      and billed).  In [RankFusionD] and [RerankerD] they are IEEE-754
      doubles (binary64, the primitive floats), with the rounding, the
      infinities and [NaN] of the code: these models carry the
      statements about the order of the output.
    - A JavaScript string is a [string] of bytes, the UTF-8 encoding of
      its text; the character classes [\s], [a-z], [0-9] and
      [toLowerCase] are the ASCII ones, and lengths count bytes.  On
      ASCII text the bytes are the UTF-16 code units of the code; the
      statements about lengths are stated for ASCII text, and the blank
      test of the double models ([JsText.trimsToEmpty]) knows the white
      space outside ASCII.
    - A regular expression is the scan it performs: a replacement or a
      split walks the string from the left, and a lazy quantifier stops
      at the first place where the rest of the pattern matches.
    - An optional field is an [option]; a [Map] keyed by string, whose
      iteration order is its insertion order, is an association list.
    - A call that may throw returns a [result]; the external
      collaborators (text completion, search provider, fetch queue,
      billing, JSON parsing) are parameters of the model. *)

From Stdlib Require Import List String Ascii Bool Arith ZArith QArith Lia Lqa.
From Stdlib Require Import Permutation Sorted DecimalString.
From Stdlib Require Floats Uint63.
Import ListNotations.

Local Open Scope string_scope.
Local Open Scope list_scope.

(* ===================================================================== *)
(** ** Calls that may throw                                              *)
(* ===================================================================== *)

(** The outcome of a call: a value, or a thrown error with its message. *)
Inductive result (A : Type) : Type :=
| Ok (a : A)
| Throw (msg : string).

Arguments Ok {A} a.
Arguments Throw {A} msg.

Definition bind {A B : Type} (r : result A) (f : A -> result B) : result B :=
  match r with
  | Ok a => f a
  | Throw e => Throw e
  end.

(** [try { body } catch (e) { handler(e) }] *)
Definition try_catch {A : Type} (body : result A) (handler : string -> result A) : result A :=
  match body with
  | Ok a => Ok a
  | Throw e => handler e
  end.

Declare Scope result_scope.
Delimit Scope result_scope with result.
Notation "x <- c ;; k" := (bind c (fun x => k))
  (at level 61, c at next level, right associativity) : result_scope.

(** [await Promise.all(xs.map(f))]: every value, or the first rejection. *)
Fixpoint all {A B : Type} (f : A -> result B) (xs : list A) : result (list B) :=
  match xs with
  | [] => Ok []
  | x :: r =>
      match f x with
      | Throw e => Throw e
      | Ok y => match all f r with
                | Throw e => Throw e
                | Ok ys => Ok (y :: ys)
                end
      end
  end.

(** The same with the index of each element. *)
Fixpoint allFrom {A B : Type} (f : nat -> A -> result B) (i : nat) (xs : list A)
  : result (list B) :=
  match xs with
  | [] => Ok []
  | x :: r =>
      match f i x with
      | Throw e => Throw e
      | Ok y => match allFrom f (S i) r with
                | Throw e => Throw e
                | Ok ys => Ok (y :: ys)
                end
      end
  end.

(* ===================================================================== *)
(** ** JavaScript string primitives used by the controller               *)
(* ===================================================================== *)

Module JsString.

(** [\s] restricted to ASCII: space, \t, \n, \v, \f, \r. *)
Definition isSpace (c : ascii) : bool :=
  let n := nat_of_ascii c in
  (n =? 32)%nat || ((9 <=? n)%nat && (n <=? 13)%nat).

Definition isDigit (c : ascii) : bool :=
  let n := nat_of_ascii c in (48 <=? n)%nat && (n <=? 57)%nat.

Definition isLower (c : ascii) : bool :=
  let n := nat_of_ascii c in (97 <=? n)%nat && (n <=? 122)%nat.

Definition isUpper (c : ascii) : bool :=
  let n := nat_of_ascii c in (65 <=? n)%nat && (n <=? 90)%nat.

Definition lowerChar (c : ascii) : ascii :=
  if isUpper c then ascii_of_nat (nat_of_ascii c + 32) else c.

(** [s.toLowerCase()] *)
Fixpoint toLowerCase (s : string) : string :=
  match s with
  | EmptyString => EmptyString
  | String c r => String (lowerChar c) (toLowerCase r)
  end.

Fixpoint trimStart (s : string) : string :=
  match s with
  | String c r => if isSpace c then trimStart r else s
  | EmptyString => EmptyString
  end.

Fixpoint rev_string_onto (s acc : string) : string :=
  match s with
  | EmptyString => acc
  | String c r => rev_string_onto r (String c acc)
  end.

Definition rev_string (s : string) : string := rev_string_onto s EmptyString.

Definition trimEnd (s : string) : string :=
  rev_string (trimStart (rev_string s)).

(** [s.trim()] *)
Definition trim (s : string) : string := trimEnd (trimStart s).

(** [s.replace(/C+/g, " ")] for a character class [C]: every maximal
    run of characters of the class becomes one space. *)
Fixpoint replaceRuns (cls : ascii -> bool) (inRun : bool) (s : string) : string :=
  match s with
  | EmptyString => EmptyString
  | String c r =>
      if cls c
      then if inRun then replaceRuns cls true r
           else String " "%char (replaceRuns cls true r)
      else String c (replaceRuns cls false r)
  end.

(** [s.split(/C+/)]: the pieces between the maximal runs of the class;
    a run at either end leaves an empty piece there, as in JavaScript. *)
Fixpoint splitRuns (cls : ascii -> bool) (inRun : bool) (cur : string) (s : string)
  : list string :=
  match s with
  | EmptyString => [rev_string cur]
  | String c r =>
      if cls c
      then if inRun then splitRuns cls true cur r
           else rev_string cur :: splitRuns cls true EmptyString r
      else splitRuns cls false (String c cur) r
  end.

(** [s.split(/c1|c2/)]: every single separator character splits. *)
Fixpoint splitEach (sep : ascii -> bool) (cur : string) (s : string) : list string :=
  match s with
  | EmptyString => [rev_string cur]
  | String c r =>
      if sep c then rev_string cur :: splitEach sep EmptyString r
      else splitEach sep (String c cur) r
  end.

(** [s.replace(/^C+/, "")] *)
Fixpoint dropWhile (cls : ascii -> bool) (s : string) : string :=
  match s with
  | String c r => if cls c then dropWhile cls r else s
  | EmptyString => EmptyString
  end.

Definition startsWith (s p : string) : bool := String.prefix p s.

Definition endsWith (s p : string) : bool :=
  String.prefix (rev_string p) (rev_string s).

(** [s.replace(/^p/, "")] for a literal [p]. *)
Definition stripPrefix (s p : string) : string :=
  if startsWith s p then String.substring (String.length p) (String.length s - String.length p) s
  else s.

(** [s.replace(/p$/, "")] for a literal [p]. *)
Definition stripSuffix (s p : string) : string :=
  if endsWith s p then String.substring 0 (String.length s - String.length p) s
  else s.

(** [arr.join(sep)] *)
Fixpoint join (sep : string) (l : list string) : string :=
  match l with
  | [] => ""
  | [x] => x
  | x :: r => x ++ sep ++ join sep r
  end.

(** The decimal rendering of an integer inside a template literal. *)
Definition ofZ (z : Z) : string := NilZero.string_of_int (Z.to_int z).

(** Truthiness of [string | undefined]: absent and empty are falsy. *)
Definition truthy (o : option string) : bool :=
  match o with
  | Some s => negb (s =? "")
  | None => false
  end.

End JsString.

(* ===================================================================== *)
(** ** TextSimilarity: [textSim]                                         *)
(* ===================================================================== *)

Module TextSimilarity.
Import JsString.

Definition isTokenChar (c : ascii) : bool := isLower c || isDigit c || isSpace c.

(** [toTokens]: lower-case, blank out what is not [a-z0-9\s], split on
    white space, keep the tokens of three characters or more. *)
Definition toTokens (s : string) : list string :=
  filter (fun t => (3 <=? String.length t)%nat)
         (splitRuns isSpace false EmptyString
            (replaceRuns (fun c => negb (isTokenChar c)) false (toLowerCase s))).

(** [new Set(tokens)] as the list of its elements in insertion order. *)
Fixpoint mkSet (l : list string) (seen : list string) : list string :=
  match l with
  | [] => []
  | t :: r =>
      if existsb (String.eqb t) seen then mkSet r seen
      else t :: mkSet r (t :: seen)
  end.

Definition has (S : list string) (t : string) : bool := existsb (String.eqb t) S.

(** Token-set Jaccard similarity. *)
Definition textSim (a b : string) : Q :=
  let A := mkSet (toTokens a) [] in
  let B := mkSet (toTokens b) [] in
  if ((List.length A =? 0) || (List.length B =? 0))%nat then 0
  else
    let inter := List.length (filter (has B) A) in
    let uni := (List.length A + List.length B - inter)%nat in
    if (uni =? 0)%nat then 0
    else inject_Z (Z.of_nat inter) / inject_Z (Z.of_nat uni).

(** [simSum]: the similarity of one text summed over the expanded queries. *)
Definition simSum (text : string) (expandedQs : list string) : Q :=
  fold_left (fun acc q => acc + textSim text q) expandedQs 0.

End TextSimilarity.


(* ===================================================================== *)
(** ** Result items                                                      *)
(* ===================================================================== *)

(** [metadata] of a fetched [Document]. *)
Record Metadata := mkMetadata {
  statusCode : Z;
  error : option string;
  proxyUsed : option string
}.

(** One search result, before or after enrichment.  The web, news and
    image results of [SearchV2Response] and the fetched [Document] are
    JavaScript objects merged by spreading; the record lists the fields
    the controller reads or writes, each of them optional. *)
Record Item := mkItem {
  url : option string;
  position : option Z;
  title : option string;
  description : option string;
  snippet : option string;
  category : option string;
  markdown : option string;
  metadata : option Metadata
}.

(** [{ ...item, position: p }] *)
Definition withPosition (it : Item) (p : Z) : Item :=
  mkItem (url it) (Some p) (title it) (description it) (snippet it)
         (category it) (markdown it) (metadata it).

(** [{ ...item, category: c }] *)
Definition withCategory (it : Item) (c : option string) : Item :=
  mkItem (url it) (position it) (title it) (description it) (snippet it)
         c (markdown it) (metadata it).

Definition orElse {A : Type} (over base : option A) : option A :=
  match over with
  | Some x => Some x
  | None => base
  end.

(** [{ ...base, ...over }]: a field of [over] wins where it is present. *)
Definition spread (base over : Item) : Item :=
  mkItem (orElse (url over) (url base))
         (orElse (position over) (position base))
         (orElse (title over) (title base))
         (orElse (description over) (description base))
         (orElse (snippet over) (snippet base))
         (orElse (category over) (category base))
         (orElse (markdown over) (markdown base))
         (orElse (metadata over) (metadata base)).

(** [{}] *)
Definition emptyObject : Item := mkItem None None None None None None None None.

(** [forEach((x, idx) => ...)] threading the state the callback mutates. *)
Fixpoint forEachFrom {A S : Type} (f : S -> nat -> A -> S) (i : nat) (l : list A) (s : S) : S :=
  match l with
  | [] => s
  | x :: r => forEachFrom f (Datatypes.S i) r (f s i x)
  end.

(** [arr.map((x, i) => ...)] *)
Fixpoint mapFrom {A B : Type} (f : A -> nat -> B) (i : nat) (l : list A) : list B :=
  match l with
  | [] => []
  | x :: r => f x i :: mapFrom f (S i) r
  end.

(** [arr.sort(cmp)] for a comparator that is a consistent ordering: the
    elements in ascending [cmp] order, equal ones in their input order
    (the sort is stable since ES2019).  [after a b] is [cmp(a, b) > 0]. *)
Section StableSort.
Context {A : Type} (after : A -> A -> bool).

Fixpoint insertSorted (x : A) (l : list A) : list A :=
  match l with
  | [] => [x]
  | y :: r => if after x y then y :: insertSorted x r else x :: l
  end.

Definition stableSort (l : list A) : list A :=
  fold_right insertSorted [] l.

(** With [after x y] read as [x] ranking strictly below [y]: [x] does
    not rank below [y]. *)
Definition notBelow (x y : A) : Prop := after x y = false.
End StableSort.

(* ===================================================================== *)
(** ** RankFusion: [rrfMerge]                                            *)
(* ===================================================================== *)

Module RankFusion.
Import JsString TextSimilarity.

Record Acc := mkAcc {
  score : Q;
  base : Q;
  sim : Q;
  bestItem : Item;
  bestRank : Z;
  bestVariantIdx : nat
}.

(** [Map<string, Acc>], in insertion order. *)
Definition UrlMap := list (string * Acc).

Fixpoint get (m : UrlMap) (u : string) : option Acc :=
  match m with
  | [] => None
  | (u', a) :: r => if String.eqb u u' then Some a else get r u
  end.

(** [byUrl.set(u, a)]: a present key keeps its place, a new one goes last. *)
Fixpoint set (m : UrlMap) (u : string) (a : Acc) : UrlMap :=
  match m with
  | [] => [(u, a)]
  | (u', a') :: r =>
      if String.eqb u u' then (u', a) :: r else (u', a') :: set r u a
  end.

(** [item.position ?? idx + 1] *)
Definition rankOf (item : Item) (idx : nat) : Z :=
  match position item with
  | Some p => p
  | None => Z.of_nat idx + 1
  end.

(** [1 / (k + rank)] in exact arithmetic.  Where [k + rank] is zero
    JavaScript yields an infinity and [Q] yields zero; the double of the
    code is [RankFusionD.rrfTerm]. *)
Definition rrfTerm (k : Q) (rank : Z) : Q := (1 / (k + inject_Z rank))%Q.

(** The body of the inner [forEach] of [rrfMerge]. *)
Definition visit (k : Q) (variantIdx : nat) (byUrl : UrlMap) (idx : nat) (item : Item)
  : UrlMap :=
  match url item with
  | None => byUrl
  | Some u =>
      if String.eqb u "" then byUrl
      else
        let rank := rankOf item idx in
        let add := rrfTerm k rank in
        match get byUrl u with
        | None =>
            set byUrl u (mkAcc add add 0 item rank variantIdx)
        | Some prev =>
            let better :=
              (rank <? bestRank prev)%Z
              || ((rank =? bestRank prev)%Z && (variantIdx <? bestVariantIdx prev)%nat) in
            set byUrl u
                (mkAcc (score prev + add)%Q (base prev + add)%Q (sim prev)
                       (if better then item else bestItem prev)
                       (if better then rank else bestRank prev)
                       (if better then variantIdx else bestVariantIdx prev))
        end
  end.

(** The two nested [forEach] loops; an [undefined] list is skipped. *)
Definition accumulate (k : Q) (lists : list (option (list Item))) : UrlMap :=
  forEachFrom
    (fun byUrl variantIdx list =>
       match list with
       | None => byUrl
       | Some l => forEachFrom (visit k variantIdx) 0 l byUrl
       end)
    0 lists [].

(** The text of a representative: its description when that is not
    blank, else its title (or the empty string). *)
Definition textOf (it : Item) : string :=
  match description it with
  | Some d =>
      if negb (String.eqb d "") && (0 <? String.length (trim d))%nat then d
      else match title it with Some t => t | None => "" end
  | None => match title it with Some t => t | None => "" end
  end.

(** The similarity pass over [byUrl.values()]. *)
Definition addSim (beta : Q) (expandedQs : list string) (a : Acc) : Acc :=
  let s := simSum (textOf (bestItem a)) expandedQs in
  mkAcc (base a + beta * s)%Q (base a) s (bestItem a) (bestRank a) (bestVariantIdx a).

Definition scored (k beta : Q) (lists : list (option (list Item)))
           (expandedQs : list string) : list Acc :=
  map (fun e => addSim beta expandedQs (snd e)) (accumulate k lists).

(** [(a, b) => b.score - a.score] is positive when [a] scores less. *)
Definition byScoreDesc (a b : Acc) : bool :=
  match Qcompare (score a) (score b) with Lt => true | _ => false end.

Definition ranked (k beta : Q) (lists : list (option (list Item)))
           (expandedQs : list string) : list Acc :=
  stableSort byScoreDesc (scored k beta lists expandedQs).

Definition rrfMerge (lists : list (option (list Item))) (expandedQs : list string)
           (k beta : Q) : list Item :=
  mapFrom (fun entry i => withPosition (bestItem entry) (Z.of_nat i + 1)) 0
          (ranked k beta lists expandedQs).

(** The defaults of the signature: [k = 60], [beta = 0.1]. *)
Definition k_default : Q := 60.
Definition beta_default : Q := 1 # 10.

(** *** Vocabulary of the statements about [rrfMerge] *)

Definition keys (m : UrlMap) : list string := map fst m.

(** Every visit of the two loops, in the order the loops make them:
    the variant index, the index in the list, and the item. *)
Definition occurrences (lists : list (option (list Item))) : list (nat * nat * Item) :=
  List.concat
    (mapFrom (fun list v =>
                match list with
                | None => []
                | Some l => mapFrom (fun item i => (v, i, item)) 0 l
                end) 0 lists).

Definition itemsOf (lists : list (option (list Item))) : list Item :=
  map snd (occurrences lists).

(** The URLs the input items carry, with repetitions. *)
Definition presentUrls (lists : list (option (list Item))) : list string :=
  flat_map (fun it => match url it with Some u => [u] | None => [] end) (itemsOf lists).

(** Those of them that are not the empty string. *)
Definition fusableUrls (lists : list (option (list Item))) : list string :=
  filter (fun u => negb (String.eqb u "")) (presentUrls lists).

Definition distinct (l : list string) : nat := List.length (nodup string_dec l).

(** The ranks at which [u] occurs, one per occurrence. *)
Definition ranksIn (os : list (nat * nat * Item)) (u : string) : list Z :=
  flat_map (fun o : nat * nat * Item =>
              match url (snd o) with
              | Some u' => if String.eqb u' u then [rankOf (snd o) (snd (fst o))] else []
              | None => []
              end) os.

Definition ranksOf (lists : list (option (list Item))) (u : string) : list Z :=
  ranksIn (occurrences lists) u.

(** [Σ 1/(k + rank)] over a list of ranks. *)
Definition rrfSum (k : Q) (ranks : list Z) : Q :=
  fold_right (fun r acc => (rrfTerm k r + acc)%Q) 0%Q ranks.

Definition step (k : Q) (m : UrlMap) (o : nat * nat * Item) : UrlMap :=
  visit k (fst (fst o)) m (snd (fst o)) (snd o).

Definition baseOf (m : UrlMap) (u : string) : Q :=
  match get m u with Some a => base a | None => 0%Q end.

(** The representative occurrence of a URL and the score it is sorted by. *)
Definition representative (k : Q) (lists : list (option (list Item))) (u : string)
  : option Item :=
  option_map bestItem (get (accumulate k lists) u).

Definition scoreOf (k beta : Q) (lists : list (option (list Item)))
           (expandedQs : list string) (u : string) : option Q :=
  option_map (fun a => score (addSim beta expandedQs a)) (get (accumulate k lists) u).

(** The accumulator a visit of [o] stores for its URL. *)
Definition visited (k : Q) (m : UrlMap) (o : nat * nat * Item) : Acc :=
  let rank := rankOf (snd o) (snd (fst o)) in
  let add := rrfTerm k rank in
  match get m (match url (snd o) with Some u => u | None => "" end) with
  | None => mkAcc add add 0 (snd o) rank (fst (fst o))
  | Some prev =>
      let better :=
        (rank <? bestRank prev)%Z
        || ((rank =? bestRank prev)%Z && (fst (fst o) <? bestVariantIdx prev)%nat) in
      mkAcc (score prev + add)%Q (base prev + add)%Q (sim prev)
            (if better then snd o else bestItem prev)
            (if better then rank else bestRank prev)
            (if better then fst (fst o) else bestVariantIdx prev)
  end.

(** The invariant of the accumulation: keys are distinct and non-empty,
    and each representative carries the URL it is filed under. *)
Definition wf (m : UrlMap) : Prop :=
  NoDup (keys m)
  /\ Forall (fun e => url (bestItem (snd e)) = Some (fst e)) m
  /\ Forall (fun u => u <> "") (keys m).

(** *** Sample inputs *)

Definition webItem (u t d : string) : Item :=
  mkItem (Some u) None (Some t) (Some d) None None None None.

(** Two variants, [https://b.example] returned by both. *)
Definition sampleLists : list (option (list Item)) :=
  [ Some [ webItem "https://a.example" "A" "best electric cars of 2024";
           webItem "https://b.example" "B" "electric cars compared" ];
    Some [ webItem "https://b.example" "B" "electric cars compared";
           webItem "https://c.example" "C" "cheap electric cars" ] ].

Definition sampleQueries : list string :=
  [ "best electric cars 2024"; "top rated electric vehicles" ].

(** One result whose [url] is the empty string. *)
Definition emptyUrlLists : list (option (list Item)) :=
  [ Some [ mkItem (Some "") None (Some "untitled") None None None None None ] ].

(** One result without a [url], one with. *)
Definition missingUrlLists : list (option (list Item)) :=
  [ Some [ mkItem None None (Some "untitled") None None None None None;
           webItem "https://a.example" "A" "" ] ].

End RankFusion.

(* ===================================================================== *)
(** ** QueryExpander: [expandQueriesPlanner]                             *)
(* ===================================================================== *)

Module QueryExpander.
Import JsString.

Definition nl : string := String (ascii_of_nat 10) EmptyString.

(** The prompt sent to the completion backend. *)
Definition expandPrompt (baseQuery : string) (gapHint : option string) (maxVariants : Z)
  : string :=
  "You improve a web search query and generate up to " ++ ofZ maxVariants
  ++ " concise alternative queries (<= 12 words each). Focus on retrieving sources that directly answer the question. If hints of missing facts are provided, incorporate them."
  ++ nl ++ nl
  ++ "Base query: " ++ baseQuery ++ nl
  ++ (match gapHint with
      | Some g => if String.eqb g "" then "" else "Missing facts to target: " ++ g
      | None => ""
      end)
  ++ nl ++ nl
  ++ "Return ONLY a JSON array of strings.".

(** The second stage of the parse chain: trim, then drop one leading and
    one trailing code fence. *)
Definition stripFences (text : string) : string :=
  let cleaned := trim text in
  let cleaned :=
    if startsWith cleaned "```json" then trim (stripPrefix cleaned "```json") else cleaned in
  let cleaned :=
    if startsWith cleaned "```" then trim (stripPrefix cleaned "```") else cleaned in
  if endsWith cleaned "```" then trim (stripSuffix cleaned "```") else cleaned.

Definition isLineOrComma (c : ascii) : bool :=
  (nat_of_ascii c =? 10)%nat || (nat_of_ascii c =? 44)%nat.

(** [[-*\d.\s]] *)
Definition isBulletChar (c : ascii) : bool :=
  (nat_of_ascii c =? 45)%nat || (nat_of_ascii c =? 42)%nat
  || isDigit c || (nat_of_ascii c =? 46)%nat || isSpace c.

(** The third stage: split on newlines and commas, strip the leading
    bullet or numbering of each piece, drop the empty pieces. *)
Definition splitFallback (cleaned : string) : list string :=
  filter (fun s => (0 <? String.length s)%nat)
         (map (fun s => trim (dropWhile isBulletChar s))
              (splitEach isLineOrComma EmptyString cleaned)).

(** [s.replace(/\s+/g, " ").trim()] *)
Definition norm (s : string) : string := trim (replaceRuns isSpace false s).

Definition seenHas (seen : list string) (x : string) : bool :=
  existsb (String.eqb x) seen.

Section Expander.

(** The completion backend: the text it answers a prompt with, or the
    error it throws. *)
Variable generateText : string -> result string.

(** [JSON.parse(text)] followed by [Array.isArray]: the elements of the
    array the text denotes, each as [String(v)] renders it ([Throw] when
    that conversion throws); [None] when the text is not JSON or does not
    denote an array. *)
Variable parseArray : string -> option (list (result string)).

(** The parse chain: each stage is tried only when the one before failed. *)
Definition parseVariants (text : string) : list (result string) :=
  match parseArray text with
  | Some variants => variants
  | None =>
      let cleaned := stripFences text in
      match parseArray cleaned with
      | Some variants => variants
      | None => map Ok (splitFallback cleaned)
      end
  end.

(** The [for (const v of variants)] loop with its [seen] set and [out]
    array; it stops at the first [break] and throws where [String(v)] does. *)
Fixpoint collect (maxVariants : Z) (variants : list (result string))
         (seen out : list string) : result (list string) :=
  match variants with
  | [] => Ok out
  | Throw e :: _ => Throw e
  | Ok v :: r =>
      let q := norm v in
      if String.eqb q "" || seenHas seen (toLowerCase q)
      then collect maxVariants r seen out
      else
        let seen' := toLowerCase q :: seen in
        let out' := out ++ [q] in
        if (maxVariants <=? Z.of_nat (List.length out'))%Z then Ok out'
        else collect maxVariants r seen' out'
  end.

Definition expandQueriesPlanner (baseQuery : string) (gapHint : option string)
           (maxVariants : Z) : result (list string) :=
  try_catch
    (text <- generateText (expandPrompt baseQuery gapHint maxVariants) ;;
     out <- collect maxVariants (parseVariants text) [] [] ;;
     let original := norm baseQuery in
     Ok (original
           :: filter (fun v => negb (String.eqb (toLowerCase v) (toLowerCase original))) out))%result
    (fun _ => Ok [baseQuery]).

End Expander.

(** [String(v)] does not throw for this variant. *)
Definition renders (v : result string) : Prop := exists s, v = Ok s.

(** *** Sample collaborators *)

(** A backend that answers every prompt with the same text. *)
Definition answering (text : string) : string -> result string := fun _ => Ok text.

(** A backend whose call fails. *)
Definition failing : string -> result string := fun _ => Throw "completion failed".

(** [JSON.parse] on texts that are not JSON: it throws on each of them. *)
Definition notJson : string -> option (list (result string)) := fun _ => None.

End QueryExpander.

(* ===================================================================== *)
(** ** AnswerEvaluator: [evaluateAnswerWithLLM]                          *)
(* ===================================================================== *)

Module AnswerEvaluator.
Import JsString.

Record Verdict := mkVerdict {
  answered : bool;
  confidence : Q;
  missing_facts : list string
}.

(** The neutral verdict of the two [catch] blocks. *)
Definition neutral : Verdict := mkVerdict false 0 [].

#[local] Set Warnings "-register-all".

(** A value [JSON.parse] returns.  An object lists each of its keys once. *)
Inductive json : Type :=
| JNull
| JBool (b : bool)
| JNum (q : Q)
| JStr (s : string)
| JArr (elems : list json)
| JObj (fields : list (string * json)).

Fixpoint lookup (key : string) (fields : list (string * json)) : option json :=
  match fields with
  | [] => None
  | (k, v) :: r => if String.eqb key k then Some v else lookup key r
  end.

(** [parsed.key]: reading a property of [null] throws; a missing
    property, or any property of a primitive, is [undefined]. *)
Definition getProp (v : json) (key : string) : result (option json) :=
  match v with
  | JNull => Throw "TypeError: Cannot read properties of null"
  | JObj fields => Ok (lookup key fields)
  | _ => Ok None
  end.

(** [Boolean(v)] *)
Definition toBoolean (v : option json) : bool :=
  match v with
  | None => false
  | Some JNull => false
  | Some (JBool b) => b
  | Some (JNum q) => negb (Qeq_bool q 0)
  | Some (JStr s) => negb (String.eqb s "")
  | Some (JArr _) => true
  | Some (JObj _) => true
  end.

(** One evidence entry: a source URL with its spans. *)
Record SpanGroup := mkSpanGroup {
  sourceUrl : string;
  spans : list string
}.

Definition nl : string := String (ascii_of_nat 10) EmptyString.

Definition spanLines (spans : list string) : list string :=
  mapFrom (fun s i => ("Span " ++ ofZ (Z.of_nat i + 1) ++ ": " ++ s)%string) 0 spans.

Definition evidence (spansByUrl : list SpanGroup) : string :=
  join (nl ++ nl)
       (mapFrom (fun g idx =>
                   ("Source " ++ ofZ (Z.of_nat idx + 1) ++ ": " ++ sourceUrl g ++ nl
                    ++ join nl (spanLines (spans g)))%string)
                0 spansByUrl).

Definition evalPrompt (query : string) (spansByUrl : list SpanGroup) : string :=
  "You are verifying if the question can be answered strictly from the provided spans. If yes, answer concisely and indicate high confidence; if not, list the missing facts needed."
  ++ nl ++ nl
  ++ "Question: " ++ query
  ++ nl ++ nl
  ++ "Evidence (spans with sources):" ++ nl ++ evidence spansByUrl
  ++ nl ++ nl
  ++ "Return ONLY valid JSON with keys: answered (boolean), confidence (number 0..1), missing_facts (array of strings). Do not include any extra text.".

Section Evaluator.

(** The completion backend and the runtime's conversions. *)
Variable generateText : string -> result string.
Variable JSON_parse : string -> result json.
(** [String(n)] for a number. *)
Variable NumberToString : Q -> string.
(** [Number(s)] for a string; [None] is [NaN]. *)
Variable StringToNumber : string -> option Q.

Definition hasKey (key : string) (fields : list (string * json)) : bool :=
  existsb (fun e => String.eqb key (fst e)) fields.

(** [String(v)].  An array joins its elements with commas, [null]
    rendering as the empty string; an object renders as
    [[object Object]] unless an own [toString] property, which is never
    callable in parsed JSON, shadows the inherited method, in which case
    the conversion throws. *)
Fixpoint toStringJs (v : json) : result string :=
  match v with
  | JNull => Ok "null"
  | JBool b => Ok (if b then "true" else "false")
  | JNum q => Ok (NumberToString q)
  | JStr s => Ok s
  | JArr elems =>
      (fix joinElems (l : list json) : result string :=
         match l with
         | [] => Ok ""
         | x :: r =>
             match (match x with JNull => Ok "" | _ => toStringJs x end) with
             | Throw e => Throw e
             | Ok sx =>
                 match r with
                 | [] => Ok sx
                 | _ :: _ =>
                     match joinElems r with
                     | Throw e => Throw e
                     | Ok sr => Ok (sx ++ "," ++ sr)%string
                     end
                 end
             end
         end) elems
  | JObj fields =>
      if hasKey "toString" fields
      then Throw "TypeError: Cannot convert object to primitive value"
      else Ok "[object Object]"
  end.

Definition numberOr0 (n : option Q) : Q :=
  match n with
  | Some q => q
  | None => 0
  end.

(** [Number(v) || 0]: [NaN] and zero both give zero. *)
Definition toNumberOr0 (v : option json) : result Q :=
  match v with
  | None => Ok 0%Q
  | Some JNull => Ok 0%Q
  | Some (JBool b) => Ok (if b then 1%Q else 0%Q)
  | Some (JNum q) => Ok q
  | Some (JStr s) => Ok (numberOr0 (StringToNumber s))
  | Some other => (s <- toStringJs other ;; Ok (numberOr0 (StringToNumber s)))%result
  end.

(** [Array.isArray(m) ? m.map(String) : []] *)
Definition toFacts (m : option json) : result (list string) :=
  match m with
  | Some (JArr elems) => all toStringJs elems
  | _ => Ok []
  end.

(** The object literal built from [parsed]. *)
Definition readVerdict (parsed : json) : result Verdict :=
  (a <- getProp parsed "answered" ;;
   c <- getProp parsed "confidence" ;;
   cq <- toNumberOr0 c ;;
   m <- getProp parsed "missing_facts" ;;
   facts <- toFacts m ;;
   Ok (mkVerdict (toBoolean a) cq facts))%result.

Definition evaluateAnswerWithLLM (query : string) (spansByUrl : list SpanGroup)
  : result Verdict :=
  try_catch
    (text <- generateText (evalPrompt query spansByUrl) ;;
     try_catch
       (parsed <- JSON_parse text ;; readVerdict parsed)
       (fun _ => Ok neutral))%result
    (fun _ => Ok neutral).

End Evaluator.

(** [CONVERGENCE_THRESHOLD]: the literal [0.6] of the stop test. *)
Definition CONVERGENCE_THRESHOLD : Q := 6 # 10.

(** [evalResult.answered && evalResult.confidence >= 0.6] *)
Definition converged (v : Verdict) : bool :=
  answered v && Qle_bool CONVERGENCE_THRESHOLD (confidence v).

End AnswerEvaluator.

(* ===================================================================== *)
(** ** ScrapeDispatcher: [scrapeSearchResult]                            *)
(* ===================================================================== *)

Module ScrapeDispatcher.

(** Modelled from the spec: the cost data of a fetch job.
    [lib/cost-tracking] is not among the sources; the controller only
    builds the empty one ([new CostTracking().toJSON()]) and hands on what
    the job store returns. *)
Record CostTracking := mkCostTracking {
  calls : list (string * Q)
}.

Definition emptyCostTracking : CostTracking := mkCostTracking [].

Record ScrapeJobInput := mkScrapeJobInput {
  sUrl : option string;
  sTitle : option string;
  sDescription : option string
}.

Record DocumentWithCostTracking := mkDocWithCost {
  document : Item;
  costTracking : option CostTracking
}.

(** What the fetch queue and the job store answer for one dispatched job.
    A step that fails is [Throw e], where [e] is what the [catch] block
    of [scrapeSearchResult] reads of the thrown value:
    [error instanceof Error ? error.message : String(error)]. *)
Record JobWorld := mkJobWorld {
  (** [startScrapeJob]: the job id, or the error of submitting the job. *)
  started : result string;
  (** [waitForJob(jobId, timeout)]: the document, or a failure or timeout. *)
  waited : result Item;
  (** [scrapeQueue.removeJob(jobId)] *)
  removed : result unit;
  (** The [cost_tracking] column of the job's row, when it is read. *)
  costRow : result (option CostTracking)
}.

(** The [try] block of [scrapeSearchResult]. *)
Definition scrapeBody (useDbAuthentication : bool) (w : JobWorld)
           (searchResult : ScrapeJobInput) : result DocumentWithCostTracking :=
  (jobId <- started w ;;
   doc <- waited w ;;
   _ <- removed w ;;
   let document :=
     spread (mkItem (sUrl searchResult) None (sTitle searchResult)
                    (sDescription searchResult) None None None None) doc in
   costTracking <- (if useDbAuthentication then costRow w
                    else Ok (Some emptyCostTracking)) ;;
   Ok (mkDocWithCost document costTracking))%result.

(** The document of the [catch] block; [errMsg] is
    [error instanceof Error ? error.message : String(error)]. *)
Definition placeholder (searchResult : ScrapeJobInput) (errMsg : string)
  : DocumentWithCostTracking :=
  mkDocWithCost
    (mkItem (sUrl searchResult) None (sTitle searchResult) (sDescription searchResult)
            None None None
            (Some (mkMetadata 500 (Some errMsg) (Some "basic"))))
    (Some emptyCostTracking).

Definition scrapeSearchResult (useDbAuthentication : bool) (w : JobWorld)
           (searchResult : ScrapeJobInput) : result DocumentWithCostTracking :=
  try_catch (scrapeBody useDbAuthentication w searchResult)
            (fun errMsg => Ok (placeholder searchResult errMsg)).

(** [await Promise.all(items.map(scrapeSearchResult))]: the [i]-th job
    meets the [i]-th answers of the environment. *)
Definition dispatchSync (useDbAuthentication : bool) (jobs : nat -> JobWorld)
           (inputs : list ScrapeJobInput) : result (list DocumentWithCostTracking) :=
  allFrom (fun i x => scrapeSearchResult useDbAuthentication (jobs i) x) 0 inputs.

(** The document the [i]-th job resolves to. *)
Definition resolved (useDb : bool) (jobs : nat -> JobWorld) (i : nat) (x : ScrapeJobInput)
  : DocumentWithCostTracking :=
  match scrapeBody useDb (jobs i) x with
  | Ok d => d
  | Throw e => placeholder x e
  end.

(** The error message a document carries, if any. *)
Definition error_of (d : DocumentWithCostTracking) : option string :=
  match metadata (document d) with
  | Some m => error m
  | None => None
  end.

(** A dispatched item counts as failed when its document carries the
    error status of the placeholder. *)
Definition hasErrorStatus (d : DocumentWithCostTracking) : bool :=
  match metadata (document d) with
  | Some m => (statusCode m =? 500)%Z
  | None => false
  end.

(** *** Sample batch *)

Definition inputFor (u : string) : ScrapeJobInput :=
  mkScrapeJobInput (Some u) (Some "title") (Some "snippet").

Definition fiveInputs : list ScrapeJobInput :=
  [ inputFor "https://a.example/1"; inputFor "https://a.example/2";
    inputFor "https://a.example/3"; inputFor "https://a.example/4";
    inputFor "https://a.example/5" ].

Definition scrapedPage : Item :=
  mkItem None None None None None None (Some "Page text.")
         (Some (mkMetadata 200 None (Some "basic"))).

(** The third job times out, the others complete. *)
Definition fiveJobs (i : nat) : JobWorld :=
  if (i =? 2)%nat
  then mkJobWorld (Ok "job") (Throw "Scrape timed out") (Ok tt) (Ok None)
  else mkJobWorld (Ok "job") (Ok scrapedPage) (Ok tt) (Ok None).

End ScrapeDispatcher.

(* ===================================================================== *)
(** ** IterationController: [searchController]                           *)
(* ===================================================================== *)

Module Controller.
Import JsString TextSimilarity RankFusion QueryExpander AnswerEvaluator ScrapeDispatcher.

(** [SearchV2Response]: a result list per category, each optional. *)
Record SearchV2Response := mkResponse {
  web : option (list Item);
  images : option (list Item);
  news : option (list Item)
}.

(** The validated request body, as far as the controller itself reads
    it; the rest is handed to the collaborators unchanged. *)
Record Request := mkRequest {
  query : string;
  limit : nat;
  forceZDR : bool
}.

(** The collaborators whose answers do not change during a request. *)
Record Collaborators := mkCollaborators {
  parseArray : string -> option (list (result string));
  JSON_parse : string -> result json;
  NumberToString : Q -> string;
  StringToNumber : string -> option Q;
  (** [isUrlBlocked(url, flags)] for the team of the request. *)
  isUrlBlocked : option string -> bool;
  (** [getCategoryFromUrl(url, categoryMap)] *)
  getCategoryFromUrl : option string -> option string;
  (** [extractTopSpansFromMarkdown(markdown, query, maxSpans)], taken as
      given: the statements below hold whatever spans it returns. *)
  extractTopSpansFromMarkdown : string -> string -> Z -> list string;
  (** [process.env.USE_DB_AUTHENTICATION === "true"] *)
  useDbAuthentication : bool
}.

(** What the outside world answers during one iteration of the loop. *)
Record IterEnv := mkIterEnv {
  generateText : string -> result string;
  (** [search({ query: q, ... })] *)
  search : string -> result SearchV2Response;
  (** The answers to the [i]-th dispatched job. *)
  jobs : nat -> JobWorld;
  (** [calculateCreditsToBeBilled(options, context, document, costTracking, flags)] *)
  calculateCreditsToBeBilled : Item -> option CostTracking -> result Z
}.

Inductive ItemType := TWeb | TNews | TImage.

Record ScrapeItem := mkScrapeItem {
  item : Item;
  type : ItemType;
  scrapeInput : ScrapeJobInput
}.

Record ScrapeIds := mkScrapeIds {
  idsWeb : option (list string);
  idsNews : option (list string);
  idsImages : option (list string)
}.

Inductive Response :=
| Success (data : SearchV2Response) (scrapeIds : option ScrapeIds) (creditsUsed : Z)
| Failure (status : Z) (error : string).

Definition MAX_ITERATIONS : nat := 2.

(** *** The stages of one iteration *)

Definition orEmpty (o : option (list Item)) : list Item :=
  match o with
  | Some l => l
  | None => []
  end.

Definition lengthOf (o : option (list Item)) : nat := List.length (orEmpty o).

(** [if (list && list.length > 0) list = f(list)] *)
Definition whenNonEmpty (f : list Item -> list Item) (o : option (list Item))
  : option (list Item) :=
  match o with
  | Some l => if (0 <? List.length l)%nat then Some (f l) else o
  | None => None
  end.

(** Stage 3: one [rrfMerge] per category, with the default [k] and [beta]. *)
Definition fuse (variantSearches : list SearchV2Response) (expandedQueries : list string)
  : SearchV2Response :=
  mkResponse
    (Some (rrfMerge (map web variantSearches) expandedQueries k_default beta_default))
    (Some (rrfMerge (map images variantSearches) expandedQueries k_default beta_default))
    (Some (rrfMerge (map news variantSearches) expandedQueries k_default beta_default)).

(** Stage 4: category labels on the web and the news results. *)
Definition label (C : Collaborators) (r : SearchV2Response) : SearchV2Response :=
  mkResponse
    (whenNonEmpty
       (map (fun result => withCategory result (getCategoryFromUrl C (url result))))
       (web r))
    (images r)
    (whenNonEmpty
       (map (fun result =>
               withCategory result
                 (if truthy (url result) then getCategoryFromUrl C (url result) else None)))
       (news r)).

(** [if (list.length > limit) list = list.slice(0, limit)] *)
Definition truncate (limit : nat) (l : list Item) : list Item :=
  if (limit <? List.length l)%nat then firstn limit l else l.

(** Stage 5: the limit, applied to each category separately. *)
Definition applyLimit (limit : nat) (r : SearchV2Response) : SearchV2Response :=
  mkResponse (whenNonEmpty (truncate limit) (web r))
             (whenNonEmpty (truncate limit) (images r))
             (whenNonEmpty (truncate limit) (news r)).

Definition totalResultsCount (r : SearchV2Response) : nat :=
  (lengthOf (web r) + lengthOf (images r) + lengthOf (news r))%nat.

(** [x || ""] *)
Definition orEmptyString (o : option string) : option string :=
  match o with
  | Some s => Some s
  | None => Some ""
  end.

(** Stage 6: the items to scrape; a blocked URL is skipped, and so is a
    news or image result without a URL. *)
Definition webItems (C : Collaborators) (l : list Item) : list ScrapeItem :=
  flat_map (fun it =>
              if isUrlBlocked C (url it) then []
              else [mkScrapeItem it TWeb
                      (mkScrapeJobInput (url it) (title it) (description it))]) l.

Definition newsItems (C : Collaborators) (l : list Item) : list ScrapeItem :=
  flat_map (fun it =>
              if isUrlBlocked C (url it) then []
              else [mkScrapeItem it TNews
                      (mkScrapeJobInput (url it) (orEmptyString (title it))
                                        (orEmptyString (snippet it)))])
           (filter (fun it => truthy (url it)) l).

Definition imageItems (C : Collaborators) (l : list Item) : list ScrapeItem :=
  flat_map (fun it =>
              if isUrlBlocked C (url it) then []
              else [mkScrapeItem it TImage
                      (mkScrapeJobInput (url it) (orEmptyString (title it)) (Some ""))])
           (filter (fun it => truthy (url it)) l).

Definition itemsToScrape (C : Collaborators) (r : SearchV2Response) : list ScrapeItem :=
  webItems C (orEmpty (web r)) ++ newsItems C (orEmpty (news r))
  ++ imageItems C (orEmpty (images r)).

(** [resultsMap]: a later [set] for the same URL replaces the earlier one. *)
Definition ResultsMap := list (option string * Item).

Definition keyEqb (a b : option string) : bool :=
  match a, b with
  | Some x, Some y => String.eqb x y
  | None, None => true
  | _, _ => false
  end.

Definition resultsMapOf (toScrape : list ScrapeItem) (docs : list DocumentWithCostTracking)
  : ResultsMap :=
  combine (map (fun i => sUrl (scrapeInput i)) toScrape) (map document docs).

Definition mapGet (m : ResultsMap) (k : option string) : option Item :=
  option_map snd (find (fun e => keyEqb (fst e) k) (rev m)).

(** [{ ...item, ...(resultsMap.get(item.url) || {}) }] *)
Definition enrichWeb (m : ResultsMap) (it : Item) : Item :=
  spread it (match mapGet m (url it) with Some doc => doc | None => emptyObject end).

(** [{ ...item, ...(item.url ? resultsMap.get(item.url) : undefined) }] *)
Definition enrichOther (m : ResultsMap) (it : Item) : Item :=
  spread it (match (if truthy (url it) then mapGet m (url it) else None) with
             | Some doc => doc
             | None => emptyObject
             end).

(** [scrapedResponse], then [Object.assign(searchResponse, scrapedResponse)]:
    a category is replaced only when it was not empty. *)
Definition mergeScraped (m : ResultsMap) (r : SearchV2Response) : SearchV2Response :=
  mkResponse (whenNonEmpty (map (enrichWeb m)) (web r))
             (whenNonEmpty (map (enrichOther m)) (images r))
             (whenNonEmpty (map (enrichOther m)) (news r)).

Definition sumZ (l : list Z) : Z := fold_left Z.add l 0%Z.

(** The arguments of the credit computations, one per dispatched job. *)
Definition creditCallsOf (docs : list DocumentWithCostTracking)
  : list (Item * option CostTracking) :=
  map (fun d => (document d, costTracking d)) docs.

(** The credits of the iteration: the sum of the computed values, or the
    number of limited results when a computation fails. *)
Definition creditsOf (E : IterEnv) (docs : list DocumentWithCostTracking)
           (fallback : nat) : Z :=
  match all (fun c => calculateCreditsToBeBilled E (fst c) (snd c)) (creditCallsOf docs) with
  | Ok individualCredits => sumZ individualCredits
  | Throw _ => Z.of_nat fallback
  end.

Definition urlText (o : option string) : string :=
  match o with
  | Some u => u
  | None => "undefined"
  end.

(** Stage 8: the spans of every web result that came back with markdown. *)
Definition spansOf (C : Collaborators) (query : string) (r : SearchV2Response)
  : list SpanGroup :=
  flat_map (fun it =>
              match markdown it with
              | Some md =>
                  if (0 <? String.length md)%nat
                  then let spans := extractTopSpansFromMarkdown C md query 3 in
                       if (0 <? List.length spans)%nat
                       then [mkSpanGroup (urlText (url it)) spans]
                       else []
                  else []
              | None => []
              end) (orEmpty (web r)).

(** The re-ranking of the web results by snippet similarity. *)
Record Scored := mkScored {
  sItem : Item;
  sScore : Q;
  sIdx : nat
}.

Definition simSumOrZero (text : string) (qs : list string) : Q :=
  if String.eqb text "" || (String.length (trim text) =? 0)%nat then 0%Q
  else simSum text qs.

(** [b.score !== a.score ? b.score - a.score : a.idx - b.idx] is
    positive, the scores being exact; with the doubles of the code it is
    [RerankerD.rerankAfter]. *)
Definition rerankAfter (a b : Scored) : bool :=
  match Qcompare (sScore a) (sScore b) with
  | Lt => true
  | Gt => false
  | Eq => (sIdx b <? sIdx a)%nat
  end.

Definition rerankWeb (expandedQueries : list string) (l : list Item) : list Item :=
  mapFrom (fun x i => withPosition (sItem x) (Z.of_nat i + 1)) 0
          (stableSort rerankAfter
             (mapFrom (fun it idx => mkScored it (simSumOrZero (textOf it) expandedQueries) idx)
                      0 l)).

Definition rerank (expandedQueries : list string) (r : SearchV2Response)
  : SearchV2Response :=
  mkResponse (whenNonEmpty (rerankWeb expandedQueries) (web r)) (images r) (news r).

(** [(missing_facts || []).slice(0, 5).join("; ")] *)
Definition gapHintOf (v : Verdict) : string := join "; " (firstn 5 (missing_facts v)).

(** The job ids of the asynchronous mode, grouped by result type. *)
Definition countType (t : ItemType) (l : list ScrapeItem) : nat :=
  List.length (filter (fun i => match type i, t with
                                | TWeb, TWeb | TNews, TNews | TImage, TImage => true
                                | _, _ => false
                                end) l).

Definition idsSlice (from n : nat) (ids : list string) : option (list string) :=
  if (0 <? n)%nat then Some (firstn n (skipn from ids)) else None.

Definition scrapeIdsOf (toScrape : list ScrapeItem) (allJobIds : list string) : ScrapeIds :=
  let w := countType TWeb toScrape in
  let n := countType TNews toScrape in
  let i := countType TImage toScrape in
  mkScrapeIds (idsSlice 0 w allJobIds) (idsSlice w n allJobIds)
              (idsSlice (w + n) i allJobIds).

(** *** The loop *)

(** The states of one pass, recorded as they are entered. *)
Inductive Phase :=
| Expanding | Searching | Fusing | Labeling | Limiting | Filtering
| Dispatching | Extracting | Evaluating.

Definition fullPass : list Phase :=
  [Expanding; Searching; Fusing; Labeling; Limiting; Filtering;
   Dispatching; Extracting; Evaluating].

(** A computation that may throw and records the phases it enters. *)
Definition Prog (A : Type) : Type := list Phase -> result (A * list Phase).

Definition ret {A : Type} (a : A) : Prog A := fun t => Ok (a, t).

Definition pbind {A B : Type} (m : Prog A) (f : A -> Prog B) : Prog B :=
  fun t => match m t with
           | Ok (a, t') => f a t'
           | Throw e => Throw e
           end.

Definition lift {A : Type} (r : result A) : Prog A :=
  fun t => match r with
           | Ok a => Ok (a, t)
           | Throw e => Throw e
           end.

Definition enter (p : Phase) : Prog unit := fun t => Ok (tt, t ++ [p]).

Declare Scope prog_scope.
Delimit Scope prog_scope with prog.
Notation "x <- c ;; k" := (pbind c (fun x => k))
  (at level 61, c at next level, right associativity) : prog_scope.
Notation "c ;;; k" := (pbind c (fun _ => k))
  (at level 61, right associativity) : prog_scope.

(** The variables the loop carries from one iteration to the next, and
    the number of passes completed so far. *)
Record LoopState := mkLoopState {
  gapHint : option string;
  finalSearchResponse : option SearchV2Response;
  isAnswered : bool;
  lastConfidence : Q;
  credits_billed : Z;
  iterations : nat
}.

Definition initialState : LoopState := mkLoopState None None false 0 0 0.

(** What one pass leaves behind, for the statements below: the limited
    lists, the dispatched items with their results, the arguments of the
    credit computations and the verdict. *)
Record PassRecord := mkPassRecord {
  limited : SearchV2Response;
  dispatched : list ScrapeItem;
  results : list DocumentWithCostTracking;
  creditCalls : list (Item * option CostTracking);
  verdict : Verdict
}.

Inductive Step :=
| Continue (st : LoopState) (rec : option PassRecord)
| Break (st : LoopState) (rec : PassRecord)
| Return (r : Response).

(** The body of the [for] loop. *)
Definition iteration (C : Collaborators) (E : IterEnv) (req : Request)
           (shouldScrape isAsyncScraping : bool) (st : LoopState) : Prog Step :=
  (enter Expanding ;;;
   expandedQueries <- lift (expandQueriesPlanner (generateText E) (parseArray C)
                                                 (query req) (gapHint st) 5) ;;
   enter Searching ;;;
   variantSearches <- lift (all (search E) expandedQueries) ;;
   enter Fusing ;;;
   let fused := fuse variantSearches expandedQueries in
   enter Labeling ;;;
   let labelled := label C fused in
   enter Limiting ;;;
   let searchResponse := applyLimit (limit req) labelled in
   let total := totalResultsCount searchResponse in
   let started' := S (iterations st) in
   if negb shouldScrape then
     ret (Continue (mkLoopState (gapHint st) (finalSearchResponse st) (isAnswered st)
                                (lastConfidence st) (Z.of_nat total) started') None)
   else
     enter Filtering ;;;
     let toScrape := itemsToScrape C searchResponse in
     enter Dispatching ;;;
     if isAsyncScraping then
       allJobIds <- lift (allFrom (fun i _ => started (jobs E i)) 0 toScrape) ;;
       ret (Return (Success searchResponse (Some (scrapeIdsOf toScrape allJobIds))
                            (Z.of_nat (List.length allJobIds))))
     else
       docs <- lift (dispatchSync (useDbAuthentication C) (jobs E)
                                  (map scrapeInput toScrape)) ;;
       let resultsMap := resultsMapOf toScrape docs in
       let credits := creditsOf E docs total in
       let enriched := mergeScraped resultsMap searchResponse in
       enter Extracting ;;;
       let spansByUrl := spansOf C (query req) enriched in
       enter Evaluating ;;;
       evalResult <- lift (evaluateAnswerWithLLM (generateText E) (JSON_parse C)
                                                 (NumberToString C) (StringToNumber C)
                                                 (query req) spansByUrl) ;;
       let answered' := converged evalResult in
       let gapHint' := if answered' then None else Some (gapHintOf evalResult) in
       let final := rerank expandedQueries enriched in
       let st' := mkLoopState gapHint' (Some final) answered' (confidence evalResult)
                              credits started' in
       let rec := mkPassRecord searchResponse toScrape docs (creditCallsOf docs)
                               evalResult in
       if answered' then ret (Break st' rec) else ret (Continue st' (Some rec)))%prog.

(** How the loop ended: it ran out or broke, leaving its variables and
    the records of the passes it made, or the controller returned from
    inside it. *)
Inductive LoopEnd :=
| Finished (st : LoopState) (passes : list PassRecord)
| Returned (r : Response).

Definition recorded (passes : list PassRecord) (rec : option PassRecord)
  : list PassRecord :=
  match rec with
  | Some r => passes ++ [r]
  | None => passes
  end.

(** [for (let iteration = 0; iteration < MAX_ITERATIONS; iteration++)],
    by recursion on the passes that remain. *)
Fixpoint loop (C : Collaborators) (env : nat -> IterEnv) (req : Request)
         (shouldScrape isAsyncScraping : bool)
         (remaining : nat) (index : nat) (st : LoopState) (passes : list PassRecord)
  : Prog LoopEnd :=
  match remaining with
  | O => ret (Finished st passes)
  | S remaining' =>
      (step <- iteration C (env index) req shouldScrape isAsyncScraping st ;;
       match step with
       | Continue st' rec =>
           loop C env req shouldScrape isAsyncScraping remaining' (S index) st'
                (recorded passes rec)
       | Break st' rec => ret (Finished st' (passes ++ [rec]))
       | Return r => ret (Returned r)
       end)%prog
  end.

(** The flags the controller fixes for every request. *)
Definition shouldScrape : bool := true.
Definition isAsyncScraping : bool := false.

Definition runLoop (C : Collaborators) (env : nat -> IterEnv) (req : Request)
  : result (LoopEnd * list Phase) :=
  loop C env req shouldScrape isAsyncScraping MAX_ITERATIONS 0 initialState [] [].

Definition emptyResponse : SearchV2Response := mkResponse None None None.

(** The response of the controller for a validated request body.  An
    error that leaves the loop is answered by the last branch of the
    [catch] block, with status 500 and its message; the branches for a
    validation error (400) and for a scrape timeout (408) answer errors
    of classes that the model does not tell apart, so the statements
    about a thrown error say no more than that the request fails. *)
Definition searchController (C : Collaborators) (env : nat -> IterEnv) (req : Request)
  : Response :=
  if forceZDR req then
    Failure 400 "Your team has zero data retention enabled. This is not supported on search. Please contact support@firecrawl.com to unblock this feature."
  else
    match runLoop C env req with
    | Ok (Finished st _, _) =>
        Success (match finalSearchResponse st with
                 | Some r => r
                 | None => emptyResponse
                 end) None (credits_billed st)
    | Ok (Returned r, _) => r
    | Throw e => Failure 500 e
    end.

(** *** Vocabulary of the statements about a pass *)

(** [rec] and [st'] are what a synchronous pass over the environment
    [E], started in state [st], records and leaves behind; [qs] are its
    expanded queries. *)
Definition isSyncPass (C : Collaborators) (E : IterEnv) (req : Request)
           (st st' : LoopState) (rec : PassRecord) (qs : list string) : Prop :=
  exists searches,
    expandQueriesPlanner (generateText E) (parseArray C) (query req) (gapHint st) 5 = Ok qs
    /\ all (search E) qs = Ok searches
    /\ limited rec = applyLimit (limit req) (label C (fuse searches qs))
    /\ dispatched rec = itemsToScrape C (limited rec)
    /\ dispatchSync (useDbAuthentication C) (jobs E) (map scrapeInput (dispatched rec))
       = Ok (results rec)
    /\ creditCalls rec = creditCallsOf (results rec)
    /\ evaluateAnswerWithLLM (generateText E) (JSON_parse C) (NumberToString C)
                             (StringToNumber C) (query req)
         (spansOf C (query req)
                  (mergeScraped (resultsMapOf (dispatched rec) (results rec)) (limited rec)))
       = Ok (verdict rec)
    /\ st' = mkLoopState
               (if converged (verdict rec) then None else Some (gapHintOf (verdict rec)))
               (Some (rerank qs (mergeScraped (resultsMapOf (dispatched rec) (results rec))
                                              (limited rec))))
               (converged (verdict rec)) (confidence (verdict rec))
               (creditsOf E (results rec) (totalResultsCount (limited rec)))
               (S (iterations st)).

(** The step a pass ends with: the loop breaks exactly when the verdict
    has converged. *)
Definition stepOf (st' : LoopState) (rec : PassRecord) : Step :=
  if converged (verdict rec) then Break st' rec else Continue st' (Some rec).

(** The URL of a dispatched item is not blocked. *)
Definition notBlocked (C : Collaborators) (i : ScrapeItem) : Prop :=
  isUrlBlocked C (sUrl (scrapeInput i)) = false.

(** [last] is the record of the last pass of a run that ended in state
    [st] after the passes [passes]. *)
Definition isLastPass (C : Collaborators) (env : nat -> IterEnv) (req : Request)
           (st : LoopState) (passes : list PassRecord) (last : PassRecord) : Prop :=
  exists st0 qs,
    nth_error passes (pred (List.length passes)) = Some last
    /\ isSyncPass C (env (pred (List.length passes))) req st0 st last qs.

(** The credit computations of the last pass. *)
Definition lastCredits (env : nat -> IterEnv) (passes : list PassRecord) (last : PassRecord)
  : result (list Z) :=
  all (fun c => calculateCreditsToBeBilled (env (pred (List.length passes))) (fst c) (snd c))
      (creditCalls last).

(** The same list without the items whose URL is blocked. *)
Definition withoutBlocked (C : Collaborators) (r : SearchV2Response) : SearchV2Response :=
  mkResponse
    (option_map (filter (fun it => negb (isUrlBlocked C (url it)))) (web r))
    (option_map (filter (fun it => negb (isUrlBlocked C (url it)))) (images r))
    (option_map (filter (fun it => negb (isUrlBlocked C (url it)))) (news r)).

(** *** Sample collaborators and environments *)

Definition dq : string := String (ascii_of_nat 34) EmptyString.

(** The verdict texts of the sample backend. *)
Definition yesText : string :=
  "{" ++ dq ++ "answered" ++ dq ++ ": true, " ++ dq ++ "confidence" ++ dq ++ ": 0.9, "
  ++ dq ++ "missing_facts" ++ dq ++ ": []}".

Definition noText : string :=
  "{" ++ dq ++ "answered" ++ dq ++ ": false, " ++ dq ++ "confidence" ++ dq ++ ": 0.2, "
  ++ dq ++ "missing_facts" ++ dq ++ ": [" ++ dq ++ "price" ++ dq ++ "]}".

(** [JSON.parse] on the texts the samples use: the two verdict texts
    parse to their objects, every other sample text is not JSON. *)
Definition sampleParse (text : string) : result json :=
  if String.eqb text yesText
  then Ok (JObj [("answered", JBool true); ("confidence", JNum (9 # 10));
                 ("missing_facts", JArr [])])
  else if String.eqb text noText
  then Ok (JObj [("answered", JBool false); ("confidence", JNum (2 # 10));
                 ("missing_facts", JArr [JStr "price"])])
  else Throw "SyntaxError: Unexpected token".

Definition blockedUrl : string := "https://blocked.example/page".

(** The team blocks one URL; no category map; a one-paragraph markdown is
    its own single span. *)
Definition sampleCollaborators : Collaborators :=
  mkCollaborators
    notJson sampleParse (fun _ => "0") (fun _ => None)
    (fun u => keyEqb u (Some blockedUrl))
    (fun _ => None)
    (fun md _ _ => [md])
    false.

(** The backend answers the expansion prompt with two phrasings and the
    evaluation prompt with [verdictText]. *)
Definition sampleBackend (verdictText : string) (prompt : string) : result string :=
  if startsWith prompt "You improve" then Ok "electric cars review, best ev 2024"
  else Ok verdictText.

Definition sampleResults : SearchV2Response :=
  mkResponse
    (Some [ webItem blockedUrl "Blocked" "electric cars on a blocked site";
            webItem "https://ok.example/ev" "EV guide" "electric cars review and prices" ])
    None None.

Definition onlyOkResults : SearchV2Response :=
  mkResponse
    (Some [ webItem "https://ok.example/ev" "EV guide" "electric cars review and prices" ])
    None None.

Definition fetched : Item :=
  mkItem None None None None None None
         (Some "Electric cars reviewed: range, price and charging.")
         (Some (mkMetadata 200 None (Some "basic"))).

Definition jobDone : JobWorld := mkJobWorld (Ok "job-1") (Ok fetched) (Ok tt) (Ok None).

Definition jobTimedOut : JobWorld :=
  mkJobWorld (Ok "job-1") (Throw "Scrape timed out") (Ok tt) (Ok None).

Definition sampleEnv (verdictText : string) (found : SearchV2Response) (w : JobWorld)
           (credit : result Z) : IterEnv :=
  mkIterEnv (sampleBackend verdictText) (fun _ => Ok found) (fun _ => w)
            (fun _ _ => credit).

Definition sampleRequest : Request := mkRequest "best electric cars" 5 false.

(** The evaluator is satisfied at once. *)
Definition envYes : nat -> IterEnv := fun _ => sampleEnv yesText sampleResults jobDone (Ok 1%Z).

(** The evaluator's answer is not JSON. *)
Definition envGarbled : nat -> IterEnv :=
  fun _ => sampleEnv "I cannot tell." sampleResults jobDone (Ok 1%Z).

(** The evaluator is never satisfied. *)
Definition envNo : nat -> IterEnv := fun _ => sampleEnv noText sampleResults jobDone (Ok 1%Z).

(** The credit computation fails. *)
Definition envNoBilling (found : SearchV2Response) : nat -> IterEnv :=
  fun _ => sampleEnv yesText found jobDone (Throw "billing unavailable").

(** Every fetch times out. *)
Definition envTimeouts : nat -> IterEnv :=
  fun _ => sampleEnv yesText onlyOkResults jobTimedOut (Ok 1%Z).

End Controller.

(* ===================================================================== *)
(** ** The order [rrfMerge] works with                                   *)
(* ===================================================================== *)

Module FusionOrder.
Import JsString TextSimilarity RankFusion.

Definition Occurrence : Type := (nat * nat * Item)%type.

(** The rank and the variant of a visit: [item.position ?? idx + 1] and
    [variantIdx]. *)
Definition occRank (o : Occurrence) : Z := rankOf (snd o) (snd (fst o)).
Definition occVariant (o : Occurrence) : nat := fst (fst o).

(** [o] has a smaller rank than [o'], or the same rank and a variant
    that is not later. *)
Definition noWorse (o o' : Occurrence) : bool :=
  (occRank o <? occRank o')%Z
  || ((occRank o =? occRank o')%Z && (occVariant o <=? occVariant o')%nat).

(** Every accumulator of [m] holds an occurrence of its URL among [os]
    that is no worse than any other. *)
Definition bestOf (os : list Occurrence) (m : UrlMap) : Prop :=
  forall u a, get m u = Some a ->
    exists o, In o os
              /\ snd o = bestItem a /\ occVariant o = bestVariantIdx a
              /\ occRank o = bestRank a /\ url (snd o) = Some u
              /\ forall o', In o' os -> url (snd o') = Some u -> noWorse o o' = true.

(** Every URL visited so far has its accumulator. *)
Definition covered (os : list Occurrence) (m : UrlMap) : Prop :=
  forall o u, In o os -> url (snd o) = Some u -> u <> "" -> In u (keys m).

(** The URLs of a list of items, in order. *)
Definition urlsOf (l : list Item) : list string :=
  flat_map (fun it => match url it with Some u => [u] | None => [] end) l.

(** The distinct non-empty URLs of the input, each at the place of its
    first occurrence: the key order of [byUrl]. *)
Definition firstSeen (lists : list (option (list Item))) : list string :=
  mkSet (fusableUrls lists) [].

(** The non-empty URLs of a run of visits. *)
Definition urlsIn (os : list Occurrence) : list string :=
  filter (fun u => negb (String.eqb u ""))
         (flat_map (fun it => match url it with Some u => [u] | None => [] end)
                   (map snd os)).

Definition keyOf (a : Acc) : string :=
  match url (bestItem a) with Some u => u | None => "" end.

End FusionOrder.

(* ===================================================================== *)
(** ** SpanExtractor: [extractTopSpansFromMarkdown]                      *)
(* ===================================================================== *)

Module SpanExtractor.
Import JsString TextSimilarity.

Definition isNl (c : ascii) : bool := (nat_of_ascii c =? 10)%nat.

Definition isTabOrBlank (c : ascii) : bool :=
  (nat_of_ascii c =? 9)%nat || (nat_of_ascii c =? 32)%nat.

(** The index of the first occurrence of [pat] in [s]. *)
Fixpoint findFrom (pat s : string) : option nat :=
  if String.prefix pat s then Some 0%nat
  else match s with
       | EmptyString => None
       | String _ r => option_map S (findFrom pat r)
       end.

(** [s.includes(t)] *)
Definition includes (s t : string) : bool :=
  match findFrom t s with
  | Some _ => true
  | None => false
  end.

Fixpoint dropChars (n : nat) (s : string) : string :=
  match n, s with
  | S k, String _ r => dropChars k r
  | _, _ => s
  end.

(** The length of the match of [!\[[\s\S]*?\]\([\s\S]*?\)] at the head of
    [s]: the lazy quantifiers stop at the first [](] and then at the
    first [)]. *)
Definition imageAt (s : string) : option nat :=
  if String.prefix "![" s then
    let r1 := dropChars 2 s in
    match findFrom "](" r1 with
    | Some j =>
        match findFrom ")" (dropChars (j + 2) r1) with
        | Some k => Some (2 + j + 2 + k + 1)%nat
        | None => None
        end
    | None => None
    end
  else None.

(** The length of the match of
    [\[!\[[\s\S]*?\]\([\s\S]*?\)\]\([\s\S]*?\)] at the head of [s]. *)
Definition linkedImageAt (s : string) : option nat :=
  if String.prefix "[![" s then
    let r1 := dropChars 3 s in
    match findFrom "](" r1 with
    | Some j =>
        let r2 := dropChars (j + 2) r1 in
        match findFrom ")](" r2 with
        | Some k =>
            match findFrom ")" (dropChars (k + 3) r2) with
            | Some m => Some (3 + j + 2 + k + 3 + m + 1)%nat
            | None => None
            end
        | None => None
        end
    | None => None
    end
  else None.

(** [s.replace(/re/g, "")] for a pattern that never matches the empty
    string: scanning from the left, every match is dropped and the scan
    resumes behind it.  [skip] counts the characters of a match still to
    drop. *)
Fixpoint removeMatches (matchAt : string -> option nat) (skip : nat) (s : string) : string :=
  match s with
  | EmptyString => EmptyString
  | String c r =>
      match skip with
      | S k => removeMatches matchAt k r
      | O =>
          match matchAt s with
          | Some (S n) => removeMatches matchAt n r
          | _ => String c (removeMatches matchAt 0 r)
          end
      end
  end.

Definition flush (pending : string) (hasNl : bool) : string :=
  if hasNl then String (ascii_of_nat 10) EmptyString else rev_string pending.

(** [s.replace(/\s*\n\s*/g, "\n")]: a maximal run of white space that
    holds a newline becomes one newline, any other run stays.  [pending]
    is the run read so far, reversed. *)
Fixpoint collapseNl (pending : string) (hasNl : bool) (s : string) : string :=
  match s with
  | EmptyString => flush pending hasNl
  | String c r =>
      if isSpace c then collapseNl (String c pending) (hasNl || isNl c) r
      else (flush pending hasNl ++ String c (collapseNl EmptyString false r))%string
  end.

Definition cleanMarkdown (markdown : string) : string :=
  collapseNl EmptyString false
    (replaceRuns isTabOrBlank false
       (removeMatches imageAt 0 (removeMatches linkedImageAt 0 markdown))).

(** The length of the greedy match of [\s*\n] at the head of [s]: up to
    the last newline of the leading run of white space. *)
Fixpoint toLastNl (s : string) (i : nat) (best : option nat) : option nat :=
  match s with
  | String c r =>
      if isSpace c then toLastNl r (S i) (if isNl c then Some (S i) else best)
      else best
  | EmptyString => best
  end.

(** [s.split(/\n\s*\n/)] *)
Fixpoint splitParagraphs (skip : nat) (cur : string) (s : string) : list string :=
  match s with
  | EmptyString => [rev_string cur]
  | String c r =>
      match skip with
      | S k => splitParagraphs k cur r
      | O =>
          if isNl c then
            match toLastNl r 0 None with
            | Some n => rev_string cur :: splitParagraphs n EmptyString r
            | None => splitParagraphs 0 (String c cur) r
            end
          else splitParagraphs 0 (String c cur) r
      end
  end.

(** The bullet U+2022, as its three bytes. *)
Definition bullet : string :=
  String (ascii_of_nat 226) (String (ascii_of_nat 128) (String (ascii_of_nat 162) EmptyString)).

(** [/^\s*[-*•]|^\s*\d+\./.test(p)] *)
Definition looksLikeListItem (p : string) : bool :=
  let q := dropWhile isSpace p in
  String.prefix "-" q || String.prefix "*" q || String.prefix bullet q
  || (let rest := dropWhile isDigit q in
      negb (String.eqb rest q) && String.prefix "." rest).

Definition isBlock (p : string) : bool :=
  (0 <? String.length p)%nat && negb (looksLikeListItem p).

Definition blocksOf (cleaned : string) : list string :=
  filter isBlock (map QueryExpander.norm (splitParagraphs 0 EmptyString cleaned)).

(** The distinct tokens of the query: three characters or more, split
    where the lower-cased query has anything but letters and digits. *)
Definition queryTokens (query : string) : list string :=
  mkSet (filter (fun t => (3 <=? String.length t)%nat)
                (splitRuns (fun c => negb (isLower c || isDigit c)) false EmptyString
                           (toLowerCase query))) [].

(** [Math.min(x, 1)] *)
Definition min1 (x : Q) : Q := if Qle_bool x 1 then x else 1%Q.

Definition blockScore (qTokens : list string) (p : string) : Q :=
  let lt := toLowerCase p in
  (inject_Z (Z.of_nat (List.length (filter (includes lt) qTokens)))
   + min1 (inject_Z (Z.of_nat (String.length p)) / 400) * (25 # 100))%Q.

(** [(a, b) => b.s - a.s] is positive. *)
Definition scoredAfter (a b : string * Q) : bool :=
  match Qcompare (snd a) (snd b) with Lt => true | _ => false end.

(** [p.length > 550 ? p.slice(0, 547) + "..." : p], the length and the
    slice counting bytes: on an ASCII block they are those of the
    code. *)
Definition clip (p : string) : string :=
  if (550 <? String.length p)%nat then (String.substring 0 547 p ++ "...")%string else p.

Definition extractTopSpansFromMarkdown (markdown : option string) (query : string)
           (maxSpans : Z) : list string :=
  match markdown with
  | None => []
  | Some md =>
      if String.eqb md "" || (String.length (trim md) =? 0)%nat then []
      else
        let blocks := blocksOf (cleanMarkdown md) in
        let qTokens := queryTokens query in
        let scored :=
          firstn (Z.to_nat (Z.max 1 maxSpans))
                 (stableSort scoredAfter (map (fun p => (p, blockScore qTokens p)) blocks)) in
        map (fun e => clip (fst e)) scored
  end.

(** *** Vocabulary and samples *)

(** No newline of [s] is followed by white space. *)
Fixpoint nlIsolated (s : string) : bool :=
  match s with
  | EmptyString => true
  | String c r =>
      (if isNl c then match r with
                      | EmptyString => true
                      | String d _ => negb (isSpace d)
                      end
       else true) && nlIsolated r
  end.

Fixpoint noNl (s : string) : bool :=
  match s with
  | EmptyString => true
  | String c r => negb (isNl c) && noNl r
  end.

(** Every character of [s] is an ASCII character.  Such a string is its
    own sequence of UTF-16 code units: [String.length] is [s.length],
    [String.substring 0 n] is [s.slice(0, n)], and the classes [\s] and
    [\d] hold no other character of it than [isSpace] and [isDigit]
    do. *)
Fixpoint isAscii (s : string) : bool :=
  match s with
  | EmptyString => true
  | String c r => (nat_of_ascii c <? 128)%nat && isAscii r
  end.

(** [!markdown || markdown.trim().length === 0] *)
Definition blank (md : string) : bool :=
  String.eqb md "" || (String.length (trim md) =? 0)%nat.

Definition nlStr : string := String (ascii_of_nat 10) EmptyString.

(** Two paragraphs with a blank line between them and an image. *)
Definition samplePage : string :=
  "Electric cars are quiet." ++ nlStr ++ nlStr
  ++ "![chart](https://ok.example/c.png) Prices fell in 2024.".

(** A page that opens with a list. *)
Definition sampleListPage : string :=
  "- first item" ++ nlStr ++ nlStr ++ "Electric cars are quiet and cheap to run.".

End SpanExtractor.

(* ===================================================================== *)
(** ** The controller with the span extractor of the file                *)
(* ===================================================================== *)

Module Wiring.
Import Controller.

(** The call [extractTopSpansFromMarkdown(it.markdown, req.body.query, 3)]
    of the controller, [it.markdown] being a string there. *)
Definition extractSpans (md : string) (query : string) (maxSpans : Z) : list string :=
  SpanExtractor.extractTopSpansFromMarkdown (Some md) query maxSpans.

Definition withExtractor (C : Collaborators) : Collaborators :=
  mkCollaborators (parseArray C) (JSON_parse C) (NumberToString C) (StringToNumber C)
                  (isUrlBlocked C) (getCategoryFromUrl C) extractSpans
                  (useDbAuthentication C).

(** Two dispatched web results and the documents their jobs resolved to. *)
Definition twoDispatched : list ScrapeItem :=
  [ mkScrapeItem (RankFusion.webItem "https://a.example/1" "title" "snippet") TWeb
                 (ScrapeDispatcher.inputFor "https://a.example/1");
    mkScrapeItem (RankFusion.webItem "https://a.example/2" "title" "snippet") TWeb
                 (ScrapeDispatcher.inputFor "https://a.example/2") ].

Definition twoDocuments : list ScrapeDispatcher.DocumentWithCostTracking :=
  [ ScrapeDispatcher.mkDocWithCost ScrapeDispatcher.scrapedPage
                                   (Some ScrapeDispatcher.emptyCostTracking);
    ScrapeDispatcher.placeholder (ScrapeDispatcher.inputFor "https://a.example/2")
                                 "Scrape timed out" ].

(** A job whose page was fetched and whose removal from the queue fails. *)
Definition jobNotRemoved : ScrapeDispatcher.JobWorld :=
  ScrapeDispatcher.mkJobWorld (Ok "job-1") (Ok ScrapeDispatcher.scrapedPage)
                              (Throw "queue unavailable") (Ok None).

(** The search provider is down when the second pass starts. *)
Definition envSecondSearchFails : nat -> IterEnv :=
  fun i => if (i =? 0)%nat then envNo 0%nat
           else mkIterEnv (sampleBackend noText) (fun _ => Throw "search unavailable")
                          (fun _ => jobDone) (fun _ _ => Ok 1%Z).

(** The search provider is down from the start. *)
Definition envFirstSearchFails : nat -> IterEnv :=
  fun _ => mkIterEnv (sampleBackend noText) (fun _ => Throw "search unavailable")
                     (fun _ => jobDone) (fun _ _ => Ok 1%Z).

End Wiring.

(* ===================================================================== *)
(** ** What the catch block reads of a thrown value                      *)
(* ===================================================================== *)

Module CaughtErrors.
Import ScrapeDispatcher.

(** A value a step of a job throws: an [Error] with its message, or any
    other value with the text [String(error)] gives for it. *)
Inductive Thrown :=
| ErrorInstance (message : string)
| OtherValue (asString : string).

(** [error instanceof Error ? error.message : String(error)] *)
Definition errMsg (error : Thrown) : string :=
  match error with
  | ErrorInstance message => message
  | OtherValue asString => asString
  end.

(** The step throws [error]. *)
Definition raise {A : Type} (error : Thrown) : result A := Throw (errMsg error).

(** The failure of the queue: an [Error]. *)
Definition queueError : Thrown := ErrorInstance "queue unavailable".

(** The [error] of a failed query as the code throws it when it is a
    plain object: [String(error)] is then the text below. *)
Definition queryError : Thrown := OtherValue "[object Object]".

(** A job whose page was fetched and whose cost data cannot be read. *)
Definition costUnreadable : JobWorld :=
  mkJobWorld (Ok "job-1") (Ok scrapedPage) (Ok tt) (raise queryError).

End CaughtErrors.

(* ===================================================================== *)
(** ** A completion of another shape than the one asked for              *)
(* ===================================================================== *)

Module LooseVerdict.
Import JsString AnswerEvaluator.

Definition quote : string := String (ascii_of_nat 34) EmptyString.

(** The completion: an object whose [answered] and [confidence] are
    strings and that has no [missing_facts], the keys and the strings in
    double quotes:  { answered : false , confidence : 0.9 }. *)
Definition looseText : string :=
  ("{" ++ quote ++ "answered" ++ quote ++ ":" ++ quote ++ "false" ++ quote ++ ","
       ++ quote ++ "confidence" ++ quote ++ ":" ++ quote ++ "0.9" ++ quote ++ "}")%string.

(** What [JSON.parse] returns for it. *)
Definition looseObject : json :=
  JObj [ ("answered", JStr "false"); ("confidence", JStr "0.9") ].

Definition looseBackend : string -> result string := fun _ => Ok looseText.

Definition parseLoose : string -> result json :=
  fun text => if String.eqb text looseText then Ok looseObject
              else Throw "SyntaxError: Unexpected token".

(** [Number("0.9")] is 0.9; the other strings of the sample are not
    numbers. *)
Definition numberOfText : string -> option Q :=
  fun s => if String.eqb s "0.9" then Some (9 # 10) else None.

Definition textOfNumber : Q -> string := fun _ => "0".

End LooseVerdict.

(* ===================================================================== *)
(** ** The order of the final re-ranking                                 *)
(* ===================================================================== *)

Module Reranker.
Import JsString TextSimilarity RankFusion Controller.

(** The items of [l] at the indices [order], renumbered from 1. *)
Definition renumbered (l : list Item) (order : list nat) : list Item :=
  mapFrom (fun idx i => withPosition (nth idx l emptyObject) (Z.of_nat i + 1)) 0 order.

End Reranker.

(* ===================================================================== *)
(** ** Numbers as the code computes them: IEEE-754 doubles               *)
(* ===================================================================== *)

(** The modules above hold a score as an exact rational.  The modules
    below hold it as the code does, as a binary64 number ([float]), with
    the rounded operations, the infinities and [NaN] of JavaScript. *)

Module Double.
Import PrimFloat SpecFloat.

(** The number that holds the integer [z], for [|z| < 2^63]. *)
Definition ofZ (z : Z) : float :=
  if (z <? 0)%Z then opp (of_uint63 (Uint63.of_Z (- z)))
  else of_uint63 (Uint63.of_Z z).

Definition ofNat (n : nat) : float := ofZ (Z.of_nat n).

(** The literals [60] and [0.1] of the signature of [rrfMerge]; the
    second is the double nearest to one tenth. *)
Definition k_default : float := 60%float.
Definition beta_default : float := 0x1.999999999999ap-4%float.

(** [!Number.isNaN(x)] *)
Definition isNumber (x : float) : bool := negb (is_nan x).

(** *** The order of the numbers *)

(** A number that is not [NaN], as a triple whose lexicographic order is
    the order of the numbers: the sign class, then the exponent, then
    the mantissa.  The two zeros are one number. *)
Definition key (x : spec_float) : Z * Z * Z :=
  match x with
  | S754_nan => (0, 0, 0)%Z
  | S754_zero _ => (0, 0, 0)%Z
  | S754_infinity true => (-2, 0, 0)%Z
  | S754_infinity false => (2, 0, 0)%Z
  | S754_finite true m e => (-1, - e, Z.neg m)%Z
  | S754_finite false m e => (1, e, Z.pos m)%Z
  end.

Definition lex3 (a b : Z * Z * Z) : comparison :=
  match (fst (fst a) ?= fst (fst b))%Z with
  | Eq => match (snd (fst a) ?= snd (fst b))%Z with
          | Eq => (snd a ?= snd b)%Z
          | c => c
          end
  | c => c
  end.

Definition below (a b : Z * Z * Z) : Prop :=
  (fst (fst a) < fst (fst b)
   \/ (fst (fst a) = fst (fst b)
       /\ (snd (fst a) < snd (fst b)
           \/ (snd (fst a) = snd (fst b) /\ snd a < snd b))))%Z.

Definition level (a b : Z * Z * Z) : Prop :=
  (fst (fst a) = fst (fst b) /\ snd (fst a) = snd (fst b) /\ snd a = snd b)%Z.

Definition ordKey (x : float) : Z * Z * Z := key (FloatOps.Prim2SF x).

End Double.

(* ===================================================================== *)
(** ** Blank strings                                                     *)
(* ===================================================================== *)

Module JsText.
Import JsString.

Definition byte (c : ascii) (n : nat) : bool := (nat_of_ascii c =? n)%nat.

(** The three-byte white space of [String.prototype.trim], in UTF-8:
    U+1680, U+2000 to U+200A, U+2028, U+2029, U+202F, U+205F, U+3000 and
    U+FEFF. *)
Definition isWideSpace (c d e : ascii) : bool :=
  (byte c 225 && byte d 154 && byte e 128)
  || (byte c 226 && byte d 128
      && (((128 <=? nat_of_ascii e)%nat && (nat_of_ascii e <=? 138)%nat)
          || byte e 168 || byte e 169 || byte e 175))
  || (byte c 226 && byte d 129 && byte e 159)
  || (byte c 227 && byte d 128 && byte e 128)
  || (byte c 239 && byte d 187 && byte e 191).

(** [s.trim().length === 0] for a string held as its UTF-8 bytes: every
    character is white space or a line terminator of JavaScript, U+00A0
    included. *)
Fixpoint trimsToEmpty (s : string) : bool :=
  match s with
  | EmptyString => true
  | String c r =>
      if isSpace c then trimsToEmpty r
      else match r with
           | EmptyString => false
           | String d r1 =>
               if byte c 194 && byte d 160 then trimsToEmpty r1
               else match r1 with
                    | EmptyString => false
                    | String e r2 => if isWideSpace c d e then trimsToEmpty r2 else false
                    end
           end
  end.

End JsText.

(* ===================================================================== *)
(** ** TextSimilarity in doubles                                         *)
(* ===================================================================== *)

Module TextSimilarityD.
Import JsString TextSimilarity Double PrimFloat.

(** [textSim], with the quotient [inter / uni] of the code. *)
Definition textSim (a b : string) : float :=
  let A := mkSet (toTokens a) [] in
  let B := mkSet (toTokens b) [] in
  if ((List.length A =? 0) || (List.length B =? 0))%nat then 0%float
  else
    let inter := List.length (filter (has B) A) in
    let uni := (List.length A + List.length B - inter)%nat in
    if (uni =? 0)%nat then 0%float
    else (ofNat inter / ofNat uni)%float.

End TextSimilarityD.

(* ===================================================================== *)
(** ** RankFusion in doubles                                             *)
(* ===================================================================== *)

Module RankFusionD.
Import JsString JsText Double PrimFloat.

Record Acc := mkAcc {
  score : float;
  base : float;
  sim : float;
  bestItem : Item;
  bestRank : Z;
  bestVariantIdx : nat
}.

(** [Map<string, Acc>], in insertion order. *)
Definition UrlMap := list (string * Acc).

Fixpoint get (m : UrlMap) (u : string) : option Acc :=
  match m with
  | [] => None
  | (u', a) :: r => if String.eqb u u' then Some a else get r u
  end.

Fixpoint set (m : UrlMap) (u : string) (a : Acc) : UrlMap :=
  match m with
  | [] => [(u, a)]
  | (u', a') :: r =>
      if String.eqb u u' then (u', a) :: r else (u', a') :: set r u a
  end.

(** [1 / (k + rank)]; it is an infinity where [k + rank] is zero. *)
Definition rrfTerm (k : float) (rank : Z) : float := (1 / (k + ofZ rank))%float.

(** The body of the inner [forEach]. *)
Definition visit (k : float) (variantIdx : nat) (byUrl : UrlMap) (idx : nat) (item : Item)
  : UrlMap :=
  match url item with
  | None => byUrl
  | Some u =>
      if String.eqb u "" then byUrl
      else
        let rank := RankFusion.rankOf item idx in
        let add := rrfTerm k rank in
        match get byUrl u with
        | None =>
            set byUrl u (mkAcc add add 0 item rank variantIdx)
        | Some prev =>
            let better :=
              (rank <? bestRank prev)%Z
              || ((rank =? bestRank prev)%Z && (variantIdx <? bestVariantIdx prev)%nat) in
            set byUrl u
                (mkAcc (score prev + add)%float (base prev + add)%float (sim prev)
                       (if better then item else bestItem prev)
                       (if better then rank else bestRank prev)
                       (if better then variantIdx else bestVariantIdx prev))
        end
  end.

Definition accumulate (k : float) (lists : list (option (list Item))) : UrlMap :=
  forEachFrom
    (fun byUrl variantIdx list =>
       match list with
       | None => byUrl
       | Some l => forEachFrom (visit k variantIdx) 0 l byUrl
       end)
    0 lists [].

(** The text of a representative: its description when that is a
    non-empty string that does not trim to nothing, else its title (or
    the empty string). *)
Definition textOf (it : Item) : string :=
  match description it with
  | Some d =>
      if negb (String.eqb d "") && negb (trimsToEmpty d) then d
      else match title it with Some t => t | None => "" end
  | None => match title it with Some t => t | None => "" end
  end.

Section Similarity.

(** [textSim], whatever it computes: the statements about the order of
    the output hold for every similarity function. *)
Variable textSim : string -> string -> float.

(** [let simSum = 0; for (const q of expandedQs) simSum += textSim(text, q)] *)
Definition simSum (text : string) (expandedQs : list string) : float :=
  fold_left (fun acc q => (acc + textSim text q)%float) expandedQs 0%float.

(** The similarity pass over [byUrl.values()]. *)
Definition addSim (beta : float) (expandedQs : list string) (a : Acc) : Acc :=
  let s := simSum (textOf (bestItem a)) expandedQs in
  mkAcc (base a + beta * s)%float (base a) s (bestItem a) (bestRank a) (bestVariantIdx a).

Definition scored (k beta : float) (lists : list (option (list Item)))
           (expandedQs : list string) : list Acc :=
  map (fun e => addSim beta expandedQs (snd e)) (accumulate k lists).

(** [(a, b) => b.score - a.score] is positive: the difference of two
    doubles is positive exactly when the first is the smaller one, and
    it is [NaN], which the sort takes for zero, when either is [NaN] or
    both are the same infinity. *)
Definition byScoreDesc (a b : Acc) : bool := (score a <? score b)%float.

Definition ranked (k beta : float) (lists : list (option (list Item)))
           (expandedQs : list string) : list Acc :=
  stableSort byScoreDesc (scored k beta lists expandedQs).

Definition rrfMerge (lists : list (option (list Item))) (expandedQs : list string)
           (k beta : float) : list Item :=
  mapFrom (fun entry i => withPosition (bestItem entry) (Z.of_nat i + 1)) 0
          (ranked k beta lists expandedQs).

(** *** Vocabulary *)

(** The score [rrfMerge] computes for a URL. *)
Definition scoreOf (k beta : float) (lists : list (option (list Item)))
           (expandedQs : list string) (u : string) : option float :=
  option_map (fun a => score (addSim beta expandedQs a)) (get (accumulate k lists) u).

(** The score the output is sorted by, read off an output item. *)
Definition fusedScore (k beta : float) (lists : list (option (list Item)))
           (expandedQs : list string) (it : Item) : option float :=
  match url it with
  | Some u => scoreOf k beta lists expandedQs u
  | None => None
  end.

(** No computed score is [NaN]: the comparator of the sort is then an
    ordering, and the order of the output is determined. *)
Definition scoresAreNumbers (k beta : float) (lists : list (option (list Item)))
           (expandedQs : list string) : Prop :=
  Forall (fun a => isNumber (score a) = true) (scored k beta lists expandedQs).

(** [u] has the computed score [s]. *)
Definition tied (k beta : float) (lists : list (option (list Item)))
           (expandedQs : list string) (s : float) (u : string) : bool :=
  match scoreOf k beta lists expandedQs u with
  | Some x => (x =? s)%float
  | None => false
  end.

End Similarity.

Definition keys (m : UrlMap) : list string := map fst m.

Definition step (k : float) (m : UrlMap) (o : nat * nat * Item) : UrlMap :=
  visit k (fst (fst o)) m (snd (fst o)) (snd o).

Definition keyOf (a : Acc) : string :=
  match url (bestItem a) with Some u => u | None => "" end.

(** The base score of a URL as the loop adds it up: the terms of its
    occurrences, from the left, in the order of the visits. *)
Definition baseSum (k : float) (ranks : list Z) : float :=
  match ranks with
  | [] => 0%float
  | r :: rest => fold_left (fun acc r' => (acc + rrfTerm k r')%float) rest (rrfTerm k r)
  end.

(** An accumulator of the doubles and one of the exact rationals that
    hold the same URL and the same representative. *)
Definition sameShape (d : string * Acc) (q : string * RankFusion.Acc) : Prop :=
  fst d = fst q
  /\ bestItem (snd d) = RankFusion.bestItem (snd q)
  /\ bestRank (snd d) = RankFusion.bestRank (snd q)
  /\ bestVariantIdx (snd d) = RankFusion.bestVariantIdx (snd q).

(** The accumulator a visit of [o] stores for its URL. *)
Definition visited (k : float) (m : UrlMap) (o : nat * nat * Item) : Acc :=
  let rank := RankFusion.rankOf (snd o) (snd (fst o)) in
  let add := rrfTerm k rank in
  match get m (match url (snd o) with Some u => u | None => "" end) with
  | None => mkAcc add add 0 (snd o) rank (fst (fst o))
  | Some prev =>
      let better :=
        (rank <? bestRank prev)%Z
        || ((rank =? bestRank prev)%Z && (fst (fst o) <? bestVariantIdx prev)%nat) in
      mkAcc (score prev + add)%float (base prev + add)%float (sim prev)
            (if better then snd o else bestItem prev)
            (if better then rank else bestRank prev)
            (if better then fst (fst o) else bestVariantIdx prev)
  end.

(** A base score carried on over further ranks. *)
Fixpoint extend (k : float) (start : option float) (ranks : list Z) : option float :=
  match ranks with
  | [] => start
  | r :: rest =>
      extend k (Some (match start with
                      | None => rrfTerm k r
                      | Some b => (b + rrfTerm k r)%float
                      end)) rest
  end.

(** The representative of a URL. *)
Definition representative (k : float) (lists : list (option (list Item))) (u : string)
  : option Item :=
  option_map bestItem (get (accumulate k lists) u).



(** *** Sample inputs *)

(** Three variants: the first returns only [https://b.example], the
    other two only [https://a.example], all with the same snippet. *)
Definition oneThenTwo : list (option (list Item)) :=
  [ Some [ RankFusion.webItem "https://b.example" "B" "electric cars compared" ];
    Some [ RankFusion.webItem "https://a.example" "A" "electric cars compared" ];
    Some [ RankFusion.webItem "https://a.example" "A" "electric cars compared" ] ].

Definition oneQuery : list string := [ "electric cars compared" ].

(** A rank-smoothing constant of [1e18]. *)
Definition k_huge : float := 1e18%float.

End RankFusionD.

(* ===================================================================== *)
(** ** The re-ranking in doubles                                         *)
(* ===================================================================== *)

Module RerankerD.
Import JsString JsText Double PrimFloat.

Record Scored := mkScored {
  sItem : Item;
  sScore : float;
  sIdx : nat
}.

(** [b.score !== a.score ? b.score - a.score : a.idx - b.idx] is positive. *)
Definition rerankAfter (a b : Scored) : bool :=
  if negb (sScore b =? sScore a)%float then (sScore a <? sScore b)%float
  else (sIdx b <? sIdx a)%nat.

Section Similarity.

Variable textSim : string -> string -> float.

(** [if (!text || text.trim().length === 0) return 0;
     return qs.reduce((acc, q) => acc + textSim(text, q), 0)] *)
Definition simSumOrZero (text : string) (qs : list string) : float :=
  if String.eqb text "" || trimsToEmpty text then 0%float
  else RankFusionD.simSum textSim text qs.

Definition rerankWeb (expandedQueries : list string) (l : list Item) : list Item :=
  mapFrom (fun x i => withPosition (sItem x) (Z.of_nat i + 1)) 0
          (stableSort rerankAfter
             (mapFrom (fun it idx =>
                         mkScored it (simSumOrZero (RankFusionD.textOf it) expandedQueries) idx)
                      0 l)).

(** *** Vocabulary *)

(** The score the re-ranking sorts by. *)
Definition snippetSim (expandedQueries : list string) (it : Item) : float :=
  simSumOrZero (RankFusionD.textOf it) expandedQueries.

(** The item at index [i] of [l] goes before the one at index [j]: its
    computed similarity is the higher one, or the two are equal and [i]
    is the smaller index. *)
Definition goesBefore (expandedQueries : list string) (l : list Item) (i j : nat) : Prop :=
  (snippetSim expandedQueries (nth j l emptyObject)
   <? snippetSim expandedQueries (nth i l emptyObject))%float = true
  \/ ((snippetSim expandedQueries (nth i l emptyObject)
       =? snippetSim expandedQueries (nth j l emptyObject))%float = true /\ (i < j)%nat).

(** No computed similarity is [NaN]. *)
Definition similaritiesAreNumbers (expandedQueries : list string) (l : list Item) : Prop :=
  Forall (fun it => isNumber (snippetSim expandedQueries it) = true) l.

End Similarity.

(** *** Sample input *)

(** Three results: the second matches the query word for word, the
    first and the third match it equally well. *)
Definition threeResults : list Item :=
  [ RankFusion.webItem "https://one.example" "One" "electric cars";
    RankFusion.webItem "https://two.example" "Two" "electric cars compared";
    RankFusion.webItem "https://three.example" "Three" "electric cars" ].

End RerankerD.

(* ===================================================================== *)
(** * Properties                                                         *)
(* ===================================================================== *)

Module JsStringFacts.
Import JsString.

Lemma truthy_Some (o : option string) :
  truthy o = true <-> exists s, o = Some s /\ s <> "".
Proof.
  destruct o as [s|]; simpl.
  - rewrite negb_true_iff. split.
    + intros H. exists s. split; [reflexivity|].
      intros ->. discriminate.
    + intros (s' & [= <-] & Hne). now apply String.eqb_neq.
  - split; [discriminate | now intros (s & H & _)].
Qed.

End JsStringFacts.

(** ** Generic list facts: indexed loops and the stable sort *)

Section IndexedLoops.
Context {A B S : Type}.

Lemma forEachFrom_fold (f : S -> nat -> A -> S) (l : list A) :
  forall i s,
    forEachFrom f i l s =
    fold_left (fun s' (p : nat * A) => f s' (fst p) (snd p))
              (mapFrom (fun x j => (j, x)) i l) s.
Proof.
  induction l as [|x r IH]; intros i s; simpl; [reflexivity|].
  apply IH.
Qed.

Lemma mapFrom_length (f : A -> nat -> B) (l : list A) :
  forall i, List.length (mapFrom f i l) = List.length l.
Proof.
  induction l as [|x r IH]; intros i; simpl; [reflexivity|].
  now rewrite IH.
Qed.

Lemma mapFrom_map_seq (f : A -> nat -> B) (g : B -> S) (h : nat -> S) (l : list A) :
  (forall x j, g (f x j) = h j) ->
  forall i, map g (mapFrom f i l) = map h (seq i (List.length l)).
Proof.
  intros Hg. induction l as [|x r IH]; intros i; simpl; [reflexivity|].
  now rewrite Hg, IH.
Qed.

Lemma mapFrom_map_indep (f : A -> nat -> B) (g : B -> S) (h : A -> S) (l : list A) :
  (forall x j, g (f x j) = h x) ->
  forall i, map g (mapFrom f i l) = map h l.
Proof.
  intros Hg. induction l as [|x r IH]; intros i; simpl; [reflexivity|].
  now rewrite Hg, IH.
Qed.

Lemma mapFrom_nth_error (f : A -> nat -> B) (l : list A) :
  forall i n x, nth_error l n = Some x ->
                nth_error (mapFrom f i l) n = Some (f x (i + n)%nat).
Proof.
  induction l as [|y r IH]; intros i [|n] x H; simpl in *; try discriminate.
  - injection H as ->. now rewrite Nat.add_0_r.
  - rewrite (IH (Datatypes.S i) n x H). f_equal. f_equal. lia.
Qed.
End IndexedLoops.

Section StableSortFacts.
Context {A : Type} (after : A -> A -> bool).

Lemma insertSorted_perm (x : A) (l : list A) :
  Permutation (insertSorted after x l) (x :: l).
Proof.
  induction l as [|y r IH]; simpl; [apply Permutation_refl|].
  destruct (after x y).
  - eapply perm_trans; [apply perm_skip, IH | apply perm_swap].
  - apply Permutation_refl.
Qed.

Lemma stableSort_perm (l : list A) : Permutation (stableSort after l) l.
Proof.
  induction l as [|x r IH]; simpl; [constructor|].
  eapply perm_trans; [apply insertSorted_perm | now apply perm_skip].
Qed.

Hypothesis after_asym : forall x y, after x y = true -> after y x = false.
Hypothesis notBelow_trans :
  forall x y z, after x y = false -> after y z = false -> after x z = false.

Lemma insertSorted_sorted (x : A) (l : list A) :
  StronglySorted (notBelow after) l -> StronglySorted (notBelow after) (insertSorted after x l).
Proof.
  induction l as [|y r IH]; intros Hs; simpl.
  - repeat constructor.
  - inversion Hs as [|? ? Hr Hy]; subst.
    destruct (after x y) eqn:E.
    + constructor; [now apply IH|].
      apply Forall_forall. intros z Hz.
      apply (Permutation_in _ (insertSorted_perm x r)) in Hz.
      destruct Hz as [<- | Hz].
      * now apply after_asym.
      * rewrite Forall_forall in Hy. now apply Hy.
    + constructor; [assumption|].
      constructor; [exact E|].
      rewrite Forall_forall in Hy |- *. intros z Hz.
      apply (notBelow_trans x y z E). now apply Hy.
Qed.

Lemma stableSort_sorted (l : list A) : StronglySorted (notBelow after) (stableSort after l).
Proof.
  induction l as [|x r IH]; simpl; [constructor|].
  now apply insertSorted_sorted.
Qed.
End StableSortFacts.

(** ** RankFusion *)

Module RankFusionFacts.
Import JsString TextSimilarity RankFusion.

(** *** The association list behind [byUrl] *)

Lemma get_set_eq (m : UrlMap) u a : get (set m u a) u = Some a.
Proof.
  induction m as [|[u' a'] r IH]; simpl.
  - now rewrite String.eqb_refl.
  - destruct (String.eqb u u') eqn:E; simpl; rewrite E; [reflexivity | exact IH].
Qed.

Lemma get_set_neq (m : UrlMap) u u' a : u <> u' -> get (set m u a) u' = get m u'.
Proof.
  intros Hne. induction m as [|[u0 a0] r IH]; simpl.
  - destruct (String.eqb_spec u' u); [congruence | reflexivity].
  - destruct (String.eqb_spec u u0) as [->|Hu]; simpl.
    + destruct (String.eqb_spec u' u0); [congruence | reflexivity].
    + destruct (String.eqb_spec u' u0); [reflexivity | exact IH].
Qed.

Lemma get_None_keys (m : UrlMap) u : get m u = None <-> ~ In u (keys m).
Proof.
  induction m as [|[u' a'] r IH]; simpl.
  - tauto.
  - destruct (String.eqb_spec u u') as [->|Hu].
    + split; [discriminate | tauto].
    + rewrite IH. split; [intros H [E|E]; [congruence | tauto] | tauto].
Qed.

Lemma get_In (m : UrlMap) u a : get m u = Some a -> In (u, a) m.
Proof.
  induction m as [|[u' a'] r IH]; simpl; [discriminate|].
  destruct (String.eqb_spec u u') as [->|Hu].
  - intros [= ->]. now left.
  - intros H. right. now apply IH.
Qed.

Lemma In_get (m : UrlMap) u a : NoDup (keys m) -> In (u, a) m -> get m u = Some a.
Proof.
  induction m as [|[u' a'] r IH]; simpl; [tauto|].
  intros Hnd [E|Hin].
  - injection E as -> ->. now rewrite String.eqb_refl.
  - inversion Hnd as [|? ? Hnot Hr]; subst.
    destruct (String.eqb_spec u u') as [->|Hu].
    + exfalso. apply Hnot. change (In (fst (u', a)) (map fst r)). now apply in_map.
    + now apply IH.
Qed.

Lemma keys_set_old (m : UrlMap) u a : In u (keys m) -> keys (set m u a) = keys m.
Proof.
  induction m as [|[u' a'] r IH]; simpl; [tauto|].
  intros H. destruct (String.eqb_spec u u') as [->|Hu]; simpl; [reflexivity|].
  f_equal. apply IH. destruct H; [congruence | assumption].
Qed.

Lemma keys_set_new (m : UrlMap) u a : ~ In u (keys m) -> keys (set m u a) = keys m ++ [u].
Proof.
  induction m as [|[u' a'] r IH]; simpl; [reflexivity|].
  intros H. destruct (String.eqb_spec u u') as [->|Hu]; simpl; [tauto|].
  f_equal. apply IH. tauto.
Qed.

Lemma Forall_set (P : string * Acc -> Prop) (m : UrlMap) u a :
  Forall P m -> P (u, a) -> Forall P (set m u a).
Proof.
  intros Hm Hp. induction Hm as [|[u' a'] r Hx Hr IH]; simpl.
  - now constructor.
  - destruct (String.eqb_spec u u') as [->|Hu]; constructor; assumption.
Qed.

(** *** The two loops as one fold over the occurrences *)

Lemma inner_loop_fold k v (l : list Item) :
  forall j m,
    forEachFrom (visit k v) j l m =
    fold_left (step k) (mapFrom (fun item i => (v, i, item)) j l) m.
Proof.
  induction l as [|x r IH]; intros j m; simpl; [reflexivity|].
  apply IH.
Qed.

Lemma outer_loop_fold k (lists : list (option (list Item))) :
  forall i m,
    forEachFrom
      (fun byUrl variantIdx list =>
         match list with
         | None => byUrl
         | Some l => forEachFrom (visit k variantIdx) 0 l byUrl
         end) i lists m =
    fold_left (step k)
      (List.concat
         (mapFrom (fun list v =>
                     match list with
                     | None => []
                     | Some l => mapFrom (fun item j => (v, j, item)) 0 l
                     end) i lists)) m.
Proof.
  induction lists as [|x r IH]; intros i m; simpl; [reflexivity|].
  rewrite fold_left_app, IH. f_equal.
  destruct x as [l|]; simpl; [apply inner_loop_fold | reflexivity].
Qed.

Lemma accumulate_fold k lists :
  accumulate k lists = fold_left (step k) (occurrences lists) [].
Proof. apply outer_loop_fold. Qed.

(** *** One visit *)

Lemma step_falsy k m o : truthy (url (snd o)) = false -> step k m o = m.
Proof.
  unfold step, visit, truthy. destruct (url (snd o)) as [u|]; [|reflexivity].
  intros H. apply negb_false_iff in H. now rewrite H.
Qed.

Lemma step_truthy k m o u :
  url (snd o) = Some u -> u <> "" -> step k m o = set m u (visited k m o).
Proof.
  intros Hu Hne. unfold step, visit, visited. rewrite Hu.
  apply String.eqb_neq in Hne. rewrite Hne.
  destruct (get m u); reflexivity.
Qed.

Lemma truthy_cases (o : option string) :
  truthy o = false \/ exists u, o = Some u /\ u <> "".
Proof.
  destruct (truthy o) eqn:E; [right | now left].
  now apply JsStringFacts.truthy_Some.
Qed.

Lemma visited_url k m o u :
  url (snd o) = Some u ->
  Forall (fun e => url (bestItem (snd e)) = Some (fst e)) m ->
  url (bestItem (visited k m o)) = Some u.
Proof.
  intros Hu Hm. unfold visited. rewrite Hu.
  destruct (get m u) as [prev|] eqn:G; simpl; [|assumption].
  match goal with |- context [if ?b then _ else _] => destruct b end;
    [assumption|].
  apply get_In in G. rewrite Forall_forall in Hm. exact (Hm _ G).
Qed.

(** *** Invariants of the accumulation *)

Lemma step_wf k m o : wf m -> wf (step k m o).
Proof.
  intros (Hnd & Hurl & Hne).
  destruct (truthy_cases (url (snd o))) as [Hf | (u & Hu & Hu0)].
  - rewrite step_falsy by assumption. now repeat split.
  - rewrite (step_truthy k m o u Hu Hu0).
    assert (Hk : In u (keys m) \/ ~ In u (keys m)).
    { destruct (in_dec string_dec u (keys m)); tauto. }
    repeat split.
    + destruct Hk as [Hk|Hk].
      * now rewrite keys_set_old.
      * rewrite keys_set_new by assumption.
        apply NoDup_app; [assumption | repeat constructor; simpl; tauto |].
        intros x Hx [<-|[]]. contradiction.
    + apply Forall_set; [assumption|]. simpl. now apply visited_url.
    + destruct Hk as [Hk|Hk].
      * now rewrite keys_set_old.
      * rewrite keys_set_new by assumption.
        apply Forall_app. split; [assumption | now repeat constructor].
Qed.

Lemma fold_wf k os : forall m, wf m -> wf (fold_left (step k) os m).
Proof.
  induction os as [|o r IH]; intros m Hm; simpl; [assumption|].
  apply IH. now apply step_wf.
Qed.

Lemma accumulate_wf k lists : wf (accumulate k lists).
Proof.
  rewrite accumulate_fold. apply fold_wf.
  repeat split; constructor.
Qed.

Lemma step_keys_in k m o u :
  In u (keys (step k m o)) <-> In u (keys m) \/ (url (snd o) = Some u /\ u <> "").
Proof.
  destruct (truthy_cases (url (snd o))) as [Hf | (u' & Hu & Hu0)].
  - rewrite step_falsy by assumption. split; [tauto|].
    intros [H|[H1 H2]]; [assumption|].
    rewrite H1 in Hf. simpl in Hf. apply negb_false_iff in Hf.
    apply String.eqb_eq in Hf. contradiction.
  - rewrite (step_truthy k m o u' Hu Hu0).
    destruct (in_dec string_dec u' (keys m)) as [Hk|Hk].
    + rewrite keys_set_old by assumption. split; [tauto|].
      intros [H|[H1 H2]]; [assumption | congruence].
    + rewrite keys_set_new by assumption. rewrite in_app_iff. simpl.
      split.
      * intros [H|[<-|[]]]; [now left | right; now split].
      * intros [H|[H1 H2]]; [now left | right; left; congruence].
Qed.

Lemma fold_keys_in k os : forall m u,
  In u (keys (fold_left (step k) os m)) <->
  In u (keys m) \/ exists o, In o os /\ url (snd o) = Some u /\ u <> "".
Proof.
  induction os as [|o r IH]; intros m u; simpl.
  - split; [tauto | intros [H|(o & [] & _)]; assumption].
  - rewrite IH, step_keys_in. split.
    + intros [[H|H]|(o' & Ho & H)].
      * now left.
      * right. exists o. tauto.
      * right. exists o'. tauto.
    + intros [H|(o' & [<-|Ho] & H)].
      * left. now left.
      * left. now right.
      * right. exists o'. tauto.
Qed.

Lemma fusableUrls_In lists u :
  In u (fusableUrls lists) <->
  exists o, In o (occurrences lists) /\ url (snd o) = Some u /\ u <> "".
Proof.
  unfold fusableUrls, presentUrls, itemsOf.
  rewrite filter_In, in_flat_map, negb_true_iff, String.eqb_neq. split.
  - intros ((it & Hit & Hu) & Hne).
    apply in_map_iff in Hit. destruct Hit as (o & <- & Ho).
    exists o. destruct (url (snd o)) as [u'|]; simpl in Hu; [|tauto].
    destruct Hu as [->|[]]. tauto.
  - intros (o & Ho & Hu & Hne). split; [|assumption].
    exists (snd o). split; [now apply in_map|].
    rewrite Hu. now left.
Qed.

Lemma accumulate_keys_in k lists u :
  In u (keys (accumulate k lists)) <-> In u (fusableUrls lists).
Proof.
  rewrite accumulate_fold, fold_keys_in, fusableUrls_In. simpl. tauto.
Qed.

Lemma accumulate_keys_length k lists :
  List.length (keys (accumulate k lists)) = distinct (fusableUrls lists).
Proof.
  unfold distinct. apply Permutation_length.
  apply NoDup_Permutation.
  - apply accumulate_wf.
  - apply NoDup_nodup.
  - intros u. rewrite nodup_In. apply accumulate_keys_in.
Qed.

(** *** The fused output *)

Lemma NoDup_map_Some {A : Type} (l : list A) : NoDup l -> NoDup (map Some l).
Proof.
  induction 1 as [|x r Hx Hr IH]; simpl; constructor; [|assumption].
  rewrite in_map_iff. intros (y & [= ->] & Hy). contradiction.
Qed.

Lemma rrfMerge_urls lists expandedQs k beta :
  Permutation (map url (rrfMerge lists expandedQs k beta))
              (map Some (keys (accumulate k lists))).
Proof.
  unfold rrfMerge.
  rewrite (mapFrom_map_indep _ url (fun a => url (bestItem a))) by reflexivity.
  unfold ranked.
  eapply perm_trans; [apply Permutation_map, stableSort_perm|].
  unfold scored, keys. rewrite !map_map. simpl.
  destruct (accumulate_wf k lists) as (_ & Hurl & _).
  rewrite (map_ext_Forall _ (fun e => Some (fst e)) Hurl).
  apply Permutation_refl.
Qed.

Lemma rrfMerge_length lists expandedQs k beta :
  List.length (rrfMerge lists expandedQs k beta) = distinct (fusableUrls lists).
Proof.
  rewrite <- (accumulate_keys_length k).
  rewrite <- (length_map url), (Permutation_length (rrfMerge_urls _ _ _ _)).
  now rewrite length_map.
Qed.

Lemma rrfMerge_NoDup lists expandedQs k beta :
  NoDup (map url (rrfMerge lists expandedQs k beta)).
Proof.
  eapply Permutation_NoDup; [apply Permutation_sym, rrfMerge_urls|].
  apply NoDup_map_Some.
  apply accumulate_wf.
Qed.

Lemma rrfMerge_positions lists expandedQs k beta :
  let out := rrfMerge lists expandedQs k beta in
  map position out = map (fun i => Some (Z.of_nat i)) (seq 1 (List.length out)).
Proof.
  intros out. subst out. unfold rrfMerge.
  rewrite mapFrom_length.
  rewrite (mapFrom_map_seq _ position (fun j => Some (Z.of_nat j + 1)%Z)) by reflexivity.
  rewrite <- seq_shift, map_map. apply map_ext. intros j.
  now rewrite Nat2Z.inj_succ, <- Z.add_1_r.
Qed.

Lemma rrfMerge_keeps lists expandedQs k beta u :
  In u (fusableUrls lists) -> In (Some u) (map url (rrfMerge lists expandedQs k beta)).
Proof.
  intros Hu.
  apply (Permutation_in _ (Permutation_sym (rrfMerge_urls lists expandedQs k beta))).
  apply in_map. now apply accumulate_keys_in.
Qed.

Lemma rrfMerge_only lists expandedQs k beta it :
  In it (rrfMerge lists expandedQs k beta) ->
  exists u, url it = Some u /\ In u (fusableUrls lists).
Proof.
  intros Hit. apply (in_map url) in Hit.
  apply (Permutation_in _ (rrfMerge_urls lists expandedQs k beta)) in Hit.
  apply in_map_iff in Hit. destruct Hit as (u & Hu & Hk).
  exists u. split; [now symmetry | now apply (accumulate_keys_in k)].
Qed.

Lemma all_truthy_fusable lists :
  (forall it, In it (itemsOf lists) -> truthy (url it) = true) ->
  fusableUrls lists = presentUrls lists.
Proof.
  intros H. unfold fusableUrls.
  apply forallb_filter_id. (* every present URL is non-empty *)
  apply forallb_forall. intros u Hu.
  unfold presentUrls in Hu. apply in_flat_map in Hu.
  destruct Hu as (it & Hit & Hu). specialize (H it Hit).
  destruct (url it) as [u'|]; simpl in Hu; [|tauto].
  destruct Hu as [->|[]]. exact H.
Qed.

(** *** Scores *)

Lemma step_baseOf k m o u :
  u <> "" ->
  (baseOf (step k m o) u == baseOf m u + rrfSum k (ranksIn [o] u))%Q.
Proof.
  intros Hne. unfold ranksIn. simpl. rewrite app_nil_r.
  destruct (truthy_cases (url (snd o))) as [Hf | (u' & Hu & Hu0)].
  - rewrite step_falsy by assumption.
    destruct (url (snd o)) as [u'|]; simpl; [|ring].
    simpl in Hf. apply negb_false_iff, String.eqb_eq in Hf. subst u'.
    destruct (String.eqb_spec "" u); [congruence | simpl; ring].
  - rewrite (step_truthy k m o u' Hu Hu0), Hu. unfold baseOf.
    destruct (String.eqb_spec u' u) as [->|Hd].
    + rewrite get_set_eq. unfold visited. rewrite Hu.
      destruct (get m u); simpl; ring.
    + rewrite get_set_neq by assumption. simpl. ring.
Qed.

Lemma ranksIn_cons o os u : ranksIn (o :: os) u = ranksIn [o] u ++ ranksIn os u.
Proof. unfold ranksIn. simpl. now rewrite app_nil_r. Qed.

Lemma rrfSum_app k l1 l2 : (rrfSum k (l1 ++ l2) == rrfSum k l1 + rrfSum k l2)%Q.
Proof.
  induction l1 as [|r l IH]; simpl; [ring|].
  rewrite IH. ring.
Qed.

Lemma fold_baseOf k os : forall m u,
  u <> "" ->
  (baseOf (fold_left (step k) os m) u == baseOf m u + rrfSum k (ranksIn os u))%Q.
Proof.
  induction os as [|o r IH]; intros m u Hne.
  - simpl. ring.
  - simpl fold_left. rewrite IH by assumption.
    rewrite step_baseOf by assumption.
    rewrite (ranksIn_cons o r), rrfSum_app. ring.
Qed.

Lemma accumulate_base k lists u a :
  u <> "" -> get (accumulate k lists) u = Some a ->
  (base a == rrfSum k (ranksOf lists u))%Q.
Proof.
  intros Hne Hg.
  pose proof (fold_baseOf k (occurrences lists) [] u Hne) as H.
  rewrite <- accumulate_fold in H. unfold baseOf in H.
  rewrite Hg in H. simpl in H. rewrite H. unfold ranksOf. ring.
Qed.



(** *** The fused list *)

(** C1.  Rank fusion of the per-variant lists of one category, when
    every input item carries a URL (a present, non-empty [url], which is
    what the guard [if (!url) return] lets through): no two output
    items share a URL; the output has as many items as there are
    distinct URLs in the input, and every input URL is among them; the
    [position] fields are 1, 2, ..., N in output order. *)
Theorem rrfMerge_dedup_dense lists expandedQs k beta :
  (forall it, In it (itemsOf lists) -> truthy (url it) = true) ->
  let out := rrfMerge lists expandedQs k beta in
  NoDup (map url out)
  /\ List.length out = distinct (presentUrls lists)
  /\ (forall u, In u (presentUrls lists) -> In (Some u) (map url out))
  /\ map position out = map (fun i => Some (Z.of_nat i)) (seq 1 (List.length out)).
Proof.
  intros Hall out. subst out.
  rewrite <- (all_truthy_fusable lists Hall).
  split; [apply rrfMerge_NoDup|].
  split; [apply rrfMerge_length|].
  split; [intros u; apply rrfMerge_keeps | apply rrfMerge_positions].
Qed.

Lemma sampleLists_all_truthy :
  forall it, In it (itemsOf sampleLists) -> truthy (url it) = true.
Proof.
  intros it Hit. vm_compute in Hit.
  repeat (destruct Hit as [<-|Hit]; [reflexivity|]). destruct Hit.
Qed.

Lemma rrfMerge_dedup_dense_witness :
  let out := rrfMerge sampleLists sampleQueries k_default beta_default in
  NoDup (map url out)
  /\ List.length out = distinct (presentUrls sampleLists)
  /\ (forall u, In u (presentUrls sampleLists) -> In (Some u) (map url out))
  /\ map position out = map (fun i => Some (Z.of_nat i)) (seq 1 (List.length out)).
Proof.
  apply (rrfMerge_dedup_dense sampleLists sampleQueries k_default beta_default).
  exact sampleLists_all_truthy.
Defined.

(** *** Items without a usable URL *)

Lemma nodup_length_le (l : list string) :
  (List.length (nodup string_dec l) <= List.length l)%nat.
Proof.
  induction l as [|x r IH]; simpl; [lia|].
  destruct (in_dec string_dec x r); simpl; lia.
Qed.

Lemma presentUrls_length_le lists :
  (List.length (presentUrls lists) <= List.length (itemsOf lists))%nat.
Proof.
  unfold presentUrls. induction (itemsOf lists) as [|it r IH]; simpl; [lia|].
  rewrite length_app. destruct (url it); simpl; lia.
Qed.

Lemma rrfMerge_length_le lists expandedQs k beta :
  (List.length (rrfMerge lists expandedQs k beta) <= List.length (itemsOf lists))%nat.
Proof.
  rewrite rrfMerge_length. unfold distinct, fusableUrls.
  eapply Nat.le_trans; [apply nodup_length_le|].
  eapply Nat.le_trans; [apply filter_length_le | apply presentUrls_length_le].
Qed.

(** An item whose [url] is the empty string is dropped although its URL
    is defined: the output is empty while the input holds one distinct
    defined URL. *)
Lemma rrfMerge_drops_empty_url :
  List.length (rrfMerge emptyUrlLists sampleQueries k_default beta_default) = 0%nat
  /\ distinct (presentUrls emptyUrlLists) = 1%nat.
Proof. split; reflexivity. Qed.

(** C10 (amended).  An item whose [url] is absent, undefined or the empty
    string is ignored by [rrfMerge]: visiting it leaves the accumulator
    as it was, the base score of a URL sums [1/(k + rank)] over the
    occurrences of that very URL, and no such item is in the output.  The
    output has as many items as there are distinct non-empty URLs in the
    input, at most the number of input items and sometimes fewer. *)
Theorem rrfMerge_ignores_items_without_url lists expandedQs k beta :
  (forall byUrl variantIdx idx item,
      truthy (url item) = false -> visit k variantIdx byUrl idx item = byUrl)
  /\ (forall u a, get (accumulate k lists) u = Some a ->
                  u <> "" /\ (base a == rrfSum k (ranksOf lists u))%Q)
  /\ (forall it, In it (rrfMerge lists expandedQs k beta) -> truthy (url it) = true)
  /\ List.length (rrfMerge lists expandedQs k beta) = distinct (fusableUrls lists)
  /\ (List.length (rrfMerge lists expandedQs k beta) <= List.length (itemsOf lists))%nat
  /\ (List.length (rrfMerge missingUrlLists expandedQs k beta)
      < List.length (itemsOf missingUrlLists))%nat.
Proof.
  split; [|split; [|split; [|split; [|split]]]].
  - intros byUrl variantIdx idx item Hf.
    exact (step_falsy k byUrl (variantIdx, idx, item) Hf).
  - intros u a Hg.
    assert (Hne : u <> "").
    { destruct (accumulate_wf k lists) as (_ & _ & Hne).
      rewrite Forall_forall in Hne. apply Hne.
      apply get_In in Hg. change u with (fst (u, a)). now apply in_map. }
    split; [assumption | now apply accumulate_base].
  - intros it Hit. destruct (rrfMerge_only _ _ _ _ _ Hit) as (u & Hu & Hin).
    apply JsStringFacts.truthy_Some. exists u. split; [assumption|].
    apply fusableUrls_In in Hin. destruct Hin as (o & _ & _ & Hne). exact Hne.
  - apply rrfMerge_length.
  - apply rrfMerge_length_le.
  - rewrite rrfMerge_length. vm_compute. lia.
Qed.

End RankFusionFacts.

(** ** QueryExpander *)

Module QueryExpanderFacts.
Import JsString QueryExpander.

Lemma seenHas_In seen x : seenHas seen x = true <-> In x seen.
Proof.
  unfold seenHas. rewrite existsb_exists. split.
  - intros (y & Hy & E). apply String.eqb_eq in E. now subst.
  - intros H. exists x. split; [assumption | apply String.eqb_refl].
Qed.

(** Filtering a list keeps its keys distinct. *)
Lemma filter_keeps_distinct_keys {X Y : Type} (key : X -> Y) (keep : X -> bool) :
  forall xs : list X, NoDup (map key xs) -> NoDup (map key (filter keep xs)).
Proof.
  intros xs. induction xs as [|x r IH]; simpl; intros H; [constructor|].
  inversion H as [|? ? Hx Hr]; subst.
  destruct (keep x); simpl; [|now apply IH].
  constructor; [|now apply IH].
  intros Hin. apply Hx. rewrite in_map_iff in Hin |- *.
  destruct Hin as (y & Hy & Hin). exists y. split; [assumption|].
  now apply filter_In in Hin.
Qed.

(** At the head of the loop [out] is still short of the maximum, or
    empty: the result never holds more than [max(maxVariants, 1)] entries. *)
Lemma collect_bound M variants : forall seen out res,
  collect M variants seen out = Ok res ->
  (Z.of_nat (List.length out) < M)%Z \/ out = [] ->
  (Z.of_nat (List.length res) <= Z.max M 1)%Z.
Proof.
  induction variants as [|v r IH]; intros seen out res H Hinv; simpl in H.
  - injection H as <-. destruct Hinv as [Hlt | ->]; simpl; lia.
  - destruct v as [v|e]; [|discriminate].
    destruct (String.eqb (norm v) "" || seenHas seen (toLowerCase (norm v))).
    + eapply IH; eassumption.
    + destruct (Z.leb_spec M (Z.of_nat (List.length (out ++ [norm v])))) as [Hle|Hgt].
      * injection H as <-. rewrite length_app in *. simpl in *.
        destruct Hinv as [Hlt | ->]; simpl; lia.
      * eapply IH; [eassumption|]. now left.
Qed.

Lemma collect_NoDup M variants : forall seen out res,
  collect M variants seen out = Ok res ->
  (forall x, In x seen <-> In x (map toLowerCase out)) ->
  NoDup (map toLowerCase out) ->
  NoDup (map toLowerCase res).
Proof.
  induction variants as [|v r IH]; intros seen out res H Hseen Hnd; simpl in H.
  - now injection H as <-.
  - destruct v as [v|e]; [|discriminate].
    destruct (String.eqb (norm v) "" || seenHas seen (toLowerCase (norm v))) eqn:E.
    + eapply IH; eassumption.
    + apply orb_false_iff in E. destruct E as [_ E].
      assert (Hnew : NoDup (map toLowerCase (out ++ [norm v]))).
      { rewrite map_app. simpl. apply NoDup_app; [assumption | repeat constructor; simpl; tauto |].
        intros x Hx [<-|[]].
        apply Hseen, seenHas_In in Hx. congruence. }
      destruct (M <=? Z.of_nat (List.length (out ++ [norm v])))%Z.
      * now injection H as <-.
      * eapply IH; [eassumption | | assumption].
        intros x. rewrite map_app, in_app_iff. simpl. rewrite <- Hseen. tauto.
Qed.

Lemma collect_total M variants : forall seen out,
  Forall renders variants -> exists res, collect M variants seen out = Ok res.
Proof.
  induction variants as [|v r IH]; intros seen out Hall; simpl.
  - now exists out.
  - inversion Hall as [|? ? (s & ->) Hr]; subst.
    destruct (String.eqb (norm s) "" || seenHas seen (toLowerCase (norm s))); [now apply IH|].
    destruct (M <=? Z.of_nat (List.length (out ++ [norm s])))%Z; [eexists; reflexivity|].
    now apply IH.
Qed.

(** The list returned when the call and the conversions succeed. *)
Lemma expanded_list_shape M variants res original :
  collect M variants [] [] = Ok res ->
  let out := original
               :: filter (fun v => negb (String.eqb (toLowerCase v) (toLowerCase original))) res in
  (Z.of_nat (List.length out) <= Z.max M 1 + 1)%Z /\ NoDup (map toLowerCase out).
Proof.
  intros H out. subst out. split.
  - pose proof (collect_bound M variants [] [] res H (or_intror eq_refl)) as Hb.
    pose proof (filter_length_le
                  (fun v => negb (String.eqb (toLowerCase v) (toLowerCase original))) res).
    simpl List.length. lia.
  - simpl. constructor.
    + rewrite in_map_iff. intros (y & Hy & Hin).
      apply filter_In in Hin. destruct Hin as [_ Hin].
      apply negb_true_iff, String.eqb_neq in Hin. congruence.
    + apply filter_keeps_distinct_keys.
      apply (collect_NoDup M variants [] [] res H); [simpl; tauto | constructor].
Qed.

Lemma expandQueriesPlanner_total generateText parseArray baseQuery gapHint M :
  exists out, expandQueriesPlanner generateText parseArray baseQuery gapHint M = Ok out.
Proof.
  unfold expandQueriesPlanner.
  destruct (generateText (expandPrompt baseQuery gapHint M)) as [text|e]; simpl;
    [|now eexists].
  destruct (collect M (parseVariants parseArray text) [] []); simpl; now eexists.
Qed.

(** With a maximum of 2 the expander returns three queries, and when the
    completion call fails it returns the base query as it was given, not
    normalized. *)
Lemma expandQueriesPlanner_exceeds_max :
  (exists out, expandQueriesPlanner (answering "alpha, beta") notJson "q" None 2 = Ok out
               /\ (2 < Z.of_nat (List.length out))%Z)
  /\ (exists out, expandQueriesPlanner failing notJson "  q   x " None 5 = Ok out
                  /\ hd_error out <> Some (norm "  q   x ")).
Proof.
  split.
  - exists ["q"; "alpha"; "beta"]. split; [reflexivity | simpl; lia].
  - exists ["  q   x "]. split; [reflexivity | discriminate].
Qed.

(** C4.  With the maximum of 5 that the controller passes and a
    completion that lists six alternatives, none of them the base query,
    [expandQueriesPlanner] returns six queries: the base query and the
    first five alternatives.  The loop stops when five alternatives are
    collected, and the base query is put in front of them afterwards, so
    the list is one longer than the maximum. *)
Theorem expandQueriesPlanner_six_for_five :
  expandQueriesPlanner (answering "alpha, beta, gamma, delta, epsilon, zeta") notJson
                       "q" None 5
  = Ok ["q"; "alpha"; "beta"; "gamma"; "delta"; "epsilon"]
  /\ collect 5 (parseVariants notJson "alpha, beta, gamma, delta, epsilon, zeta") [] []
     = Ok ["alpha"; "beta"; "gamma"; "delta"; "epsilon"].
Proof. split; reflexivity. Qed.

(** What [expandQueriesPlanner] returns, for every base query, gap hint
    and maximum [M], whatever the completion backend and the JSON parser
    do: it never throws, and the queries of the list are pairwise
    different case-insensitively, so that the elements after the first
    are unique and distinct from it.  Whenever the completion call
    succeeds and every parsed variant converts to a string, the first
    element is the normalized base query; otherwise the list is the base
    query alone.  The list holds the base query and at most [max(M, 1)]
    alternatives. *)
Lemma expandQueriesPlanner_shape generateText parseArray baseQuery gapHint M :
  exists out,
    expandQueriesPlanner generateText parseArray baseQuery gapHint M = Ok out
    /\ (Z.of_nat (List.length out) <= Z.max M 1 + 1)%Z
    /\ NoDup (map toLowerCase out)
    /\ (out = [baseQuery] \/ exists rest, out = norm baseQuery :: rest)
    /\ (forall text,
           generateText (expandPrompt baseQuery gapHint M) = Ok text ->
           Forall renders (parseVariants parseArray text) ->
           exists rest, out = norm baseQuery :: rest).
Proof.
  unfold expandQueriesPlanner.
  assert (Hsingle : (Z.of_nat (List.length [baseQuery]) <= Z.max M 1 + 1)%Z
                    /\ NoDup (map toLowerCase [baseQuery])).
  { split; [simpl; lia | repeat constructor; simpl; tauto]. }
  destruct (generateText (expandPrompt baseQuery gapHint M)) as [text|e] eqn:G; simpl.
  - destruct (collect M (parseVariants parseArray text) [] []) as [res|e] eqn:C; simpl.
    + destruct (expanded_list_shape M _ res (norm baseQuery) C) as (Hlen & Hnd).
      eexists. split; [reflexivity|].
      split; [exact Hlen|]. split; [exact Hnd|].
      split; [right; eexists; reflexivity|].
      intros text' _ _. eexists; reflexivity.
    + exists [baseQuery]. split; [reflexivity|].
      split; [apply Hsingle|]. split; [apply Hsingle|].
      split; [now left|].
      intros text' [= <-] Hall.
      destruct (collect_total M _ [] [] Hall) as (res & Hres). congruence.
  - exists [baseQuery]. split; [reflexivity|].
    split; [apply Hsingle|]. split; [apply Hsingle|].
    split; [now left | discriminate].
Qed.

End QueryExpanderFacts.

(** ** AnswerEvaluator *)

Module AnswerEvaluatorFacts.
Import AnswerEvaluator.

Section EvaluatorFacts.
Variable generateText : string -> result string.
Variable JSON_parse : string -> result json.
Variable NumberToString : Q -> string.
Variable StringToNumber : string -> option Q.

Let evaluate := evaluateAnswerWithLLM generateText JSON_parse NumberToString StringToNumber.

Lemma evaluate_total query spansByUrl : exists v, evaluate query spansByUrl = Ok v.
Proof.
  unfold evaluate, evaluateAnswerWithLLM.
  destruct (generateText (evalPrompt query spansByUrl)) as [text|e]; simpl;
    [|now exists neutral].
  destruct (JSON_parse text) as [parsed|e]; simpl; [|now exists neutral].
  destruct (readVerdict NumberToString StringToNumber parsed) as [v|e]; simpl;
    [now exists v | now exists neutral].
Qed.

Lemma evaluate_call_failure query spansByUrl e :
  generateText (evalPrompt query spansByUrl) = Throw e ->
  evaluate query spansByUrl = Ok neutral.
Proof. intros H. unfold evaluate, evaluateAnswerWithLLM. now rewrite H. Qed.

Lemma evaluate_parse_failure query spansByUrl text e :
  generateText (evalPrompt query spansByUrl) = Ok text ->
  JSON_parse text = Throw e ->
  evaluate query spansByUrl = Ok neutral.
Proof. intros H1 H2. unfold evaluate, evaluateAnswerWithLLM. rewrite H1. simpl. now rewrite H2. Qed.

Lemma evaluate_read_failure query spansByUrl text parsed e :
  generateText (evalPrompt query spansByUrl) = Ok text ->
  JSON_parse text = Ok parsed ->
  readVerdict NumberToString StringToNumber parsed = Throw e ->
  evaluate query spansByUrl = Ok neutral.
Proof.
  intros H1 H2 H3. unfold evaluate, evaluateAnswerWithLLM. rewrite H1. simpl. rewrite H2. simpl.
  now rewrite H3.
Qed.

Lemma evaluate_parsed query spansByUrl text parsed v :
  generateText (evalPrompt query spansByUrl) = Ok text ->
  JSON_parse text = Ok parsed ->
  readVerdict NumberToString StringToNumber parsed = Ok v ->
  evaluate query spansByUrl = Ok v.
Proof.
  intros H1 H2 H3. unfold evaluate, evaluateAnswerWithLLM. rewrite H1. simpl. rewrite H2. simpl.
  now rewrite H3.
Qed.

(** A parsed value that is not an object reads as the neutral verdict,
    or throws when it is [null]. *)
Lemma readVerdict_not_object parsed :
  (forall fields, parsed <> JObj fields) ->
  match readVerdict NumberToString StringToNumber parsed with
  | Ok v => v = neutral
  | Throw _ => parsed = JNull
  end.
Proof.
  intros Hno. destruct parsed; try reflexivity.
  exfalso. now apply (Hno fields).
Qed.

Lemma evaluate_not_object query spansByUrl text parsed :
  generateText (evalPrompt query spansByUrl) = Ok text ->
  JSON_parse text = Ok parsed ->
  (forall fields, parsed <> JObj fields) ->
  evaluate query spansByUrl = Ok neutral.
Proof.
  intros H1 H2 Hno. pose proof (readVerdict_not_object parsed Hno) as H.
  destruct (readVerdict NumberToString StringToNumber parsed) as [v|e] eqn:R.
  - subst v. now apply (evaluate_parsed query spansByUrl text parsed).
  - now apply (evaluate_read_failure query spansByUrl text parsed e).
Qed.

End EvaluatorFacts.

Lemma converged_iff v :
  converged v = true <-> answered v = true /\ (CONVERGENCE_THRESHOLD <= confidence v)%Q.
Proof. unfold converged. now rewrite andb_true_iff, Qle_bool_iff. Qed.

Lemma not_converged_iff v :
  converged v = false <-> answered v = false \/ (confidence v < CONVERGENCE_THRESHOLD)%Q.
Proof.
  rewrite <- not_true_iff_false, converged_iff. split.
  - intros H. destruct (answered v); [right | now left].
    apply Qnot_le_lt. tauto.
  - intros [H|H] [Ha Hc]; [congruence | exact (Qlt_not_le _ _ H Hc)].
Qed.

Lemma neutral_not_converged : converged neutral = false.
Proof. reflexivity. Qed.

End AnswerEvaluatorFacts.

(** ** ScrapeDispatcher *)

Module ScrapeDispatcherFacts.
Import ScrapeDispatcher.

(** What [scrapeSearchResult] resolves to: the scraped document, or the
    placeholder built from the thrown error. *)
Lemma scrapeSearchResult_cases useDb w x :
  match scrapeBody useDb w x with
  | Ok d => scrapeSearchResult useDb w x = Ok d
  | Throw e => scrapeSearchResult useDb w x = Ok (placeholder x e)
  end.
Proof. unfold scrapeSearchResult. now destruct (scrapeBody useDb w x). Qed.

Lemma scrapeSearchResult_total useDb w x : exists d, scrapeSearchResult useDb w x = Ok d.
Proof.
  pose proof (scrapeSearchResult_cases useDb w x) as H.
  destruct (scrapeBody useDb w x); eexists; exact H.
Qed.

Lemma scrapeBody_wait_failure useDb w x id e :
  started w = Ok id -> waited w = Throw e -> scrapeBody useDb w x = Throw e.
Proof. intros H1 H2. unfold scrapeBody. rewrite H1. simpl. now rewrite H2. Qed.

Lemma allFrom_pointwise {A B : Type} (f : nat -> A -> result B) (g : nat -> A -> B)
      (xs : list A) :
  forall i,
    (forall j x, nth_error xs j = Some x -> f (i + j)%nat x = Ok (g (i + j)%nat x)) ->
    allFrom f i xs = Ok (mapFrom (fun x j => g j x) i xs).
Proof.
  induction xs as [|x r IH]; intros i H; simpl; [reflexivity|].
  pose proof (H 0%nat x eq_refl) as H0. rewrite Nat.add_0_r in H0. rewrite H0.
  rewrite (IH (S i)); [reflexivity|].
  intros j y Hj. replace (S i + j)%nat with (i + S j)%nat by lia. now apply H.
Qed.

Lemma dispatchSync_resolved useDb jobs inputs :
  dispatchSync useDb jobs inputs = Ok (mapFrom (fun x i => resolved useDb jobs i x) 0 inputs).
Proof.
  unfold dispatchSync. apply allFrom_pointwise. intros j x _. simpl.
  unfold resolved. pose proof (scrapeSearchResult_cases useDb (jobs j) x) as H.
  now destruct (scrapeBody useDb (jobs j) x).
Qed.

Lemma scrapeBody_start_failure useDb w x e :
  started w = Throw e -> scrapeBody useDb w x = Throw e.
Proof. intros H. unfold scrapeBody. now rewrite H. Qed.

Lemma scrapeBody_remove_failure useDb w x id doc e :
  started w = Ok id -> waited w = Ok doc -> removed w = Throw e ->
  scrapeBody useDb w x = Throw e.
Proof. intros H1 H2 H3. unfold scrapeBody. rewrite H1, H2. simpl. now rewrite H3. Qed.

Lemma scrapeBody_cost_failure w x id doc e :
  started w = Ok id -> waited w = Ok doc -> removed w = Ok tt -> costRow w = Throw e ->
  scrapeBody true w x = Throw e.
Proof.
  intros H1 H2 H3 H4. unfold scrapeBody. rewrite H1, H2. simpl. rewrite H3. simpl.
  now rewrite H4.
Qed.

Lemma scrapeBody_fetched (useDb : bool) w x id doc cost :
  started w = Ok id -> waited w = Ok doc -> removed w = Ok tt ->
  (if useDb then costRow w else Ok (Some emptyCostTracking)) = Ok cost ->
  scrapeBody useDb w x
  = Ok (mkDocWithCost
          (spread (mkItem (sUrl x) None (sTitle x) (sDescription x) None None None None) doc)
          cost).
Proof.
  intros H1 H2 H3 H4. unfold scrapeBody. rewrite H1, H2. simpl. rewrite H3. simpl.
  now rewrite H4.
Qed.

(** C5.  In synchronous mode a batch of N dispatched items always
    returns N items, in the order of dispatch.  An item whose job is
    submitted, waited for and removed from the queue without failure
    (and, with database authentication, whose cost data is read)
    resolves to the fetched document laid over the URL, title and
    description of the search result, with its cost data, whatever
    happened to the other items.  An item whose scrape fails at any
    step, submitting the job, waiting for it (a timeout included),
    removing it or reading its cost data, resolves to the placeholder
    for that item: the URL, title and description of the search result,
    the status 500, the text of the error as the [catch] block reads it
    and the empty cost data. *)
Theorem dispatchSync_resilient useDb jobs inputs :
  exists docs,
    dispatchSync useDb jobs inputs = Ok docs
    /\ List.length docs = List.length inputs
    /\ (forall i x id doc cost,
          nth_error inputs i = Some x ->
          started (jobs i) = Ok id -> waited (jobs i) = Ok doc ->
          removed (jobs i) = Ok tt ->
          (if useDb then costRow (jobs i) else Ok (Some emptyCostTracking)) = Ok cost ->
          nth_error docs i
          = Some (mkDocWithCost
                    (spread (mkItem (sUrl x) None (sTitle x) (sDescription x)
                                    None None None None) doc)
                    cost))
    /\ (forall i x e, nth_error inputs i = Some x ->
          started (jobs i) = Throw e ->
          nth_error docs i = Some (placeholder x e))
    /\ (forall i x id e, nth_error inputs i = Some x ->
          started (jobs i) = Ok id -> waited (jobs i) = Throw e ->
          nth_error docs i = Some (placeholder x e))
    /\ (forall i x id doc e, nth_error inputs i = Some x ->
          started (jobs i) = Ok id -> waited (jobs i) = Ok doc ->
          removed (jobs i) = Throw e ->
          nth_error docs i = Some (placeholder x e))
    /\ (forall i x id doc e, nth_error inputs i = Some x ->
          started (jobs i) = Ok id -> waited (jobs i) = Ok doc ->
          removed (jobs i) = Ok tt -> useDb = true -> costRow (jobs i) = Throw e ->
          nth_error docs i = Some (placeholder x e))
    /\ (forall x e,
          document (placeholder x e)
          = mkItem (sUrl x) None (sTitle x) (sDescription x) None None None
                   (Some (mkMetadata 500 (Some e) (Some "basic")))
          /\ costTracking (placeholder x e) = Some emptyCostTracking
          /\ hasErrorStatus (placeholder x e) = true
          /\ error_of (placeholder x e) = Some e).
Proof.
  exists (mapFrom (fun x i => resolved useDb jobs i x) 0 inputs).
  split; [apply dispatchSync_resolved|].
  split; [apply mapFrom_length|].
  assert (Hnth : forall i x, nth_error inputs i = Some x ->
                   nth_error (mapFrom (fun x i => resolved useDb jobs i x) 0 inputs) i
                   = Some (resolved useDb jobs i x)).
  { intros i x Hi. now rewrite (mapFrom_nth_error _ _ 0 i x Hi). }
  repeat split.
  - intros i x id doc cost Hi Hs Hw Hr Hc. rewrite (Hnth i x Hi). unfold resolved.
    now rewrite (scrapeBody_fetched useDb (jobs i) x id doc cost Hs Hw Hr Hc).
  - intros i x e Hi Hs. rewrite (Hnth i x Hi). unfold resolved.
    now rewrite (scrapeBody_start_failure useDb (jobs i) x e Hs).
  - intros i x id e Hi Hs Hw. rewrite (Hnth i x Hi). unfold resolved.
    now rewrite (scrapeBody_wait_failure useDb (jobs i) x id e Hs Hw).
  - intros i x id doc e Hi Hs Hw Hr. rewrite (Hnth i x Hi). unfold resolved.
    now rewrite (scrapeBody_remove_failure useDb (jobs i) x id doc e Hs Hw Hr).
  - intros i x id doc e Hi Hs Hw Hr -> Hc. rewrite (Hnth i x Hi). unfold resolved.
    now rewrite (scrapeBody_cost_failure (jobs i) x id doc e Hs Hw Hr Hc).
Qed.

(** Five dispatched fetches of which the third times out: five items
    come back, the first is the fetched page laid over its search
    result, the third is the placeholder of the third search result. *)
Lemma dispatchSync_resilient_witness :
  exists docs,
    dispatchSync false fiveJobs fiveInputs = Ok docs
    /\ List.length docs = 5%nat
    /\ nth_error docs 0
       = Some (mkDocWithCost
                 (spread (mkItem (Some "https://a.example/1") None (Some "title")
                                 (Some "snippet") None None None None) scrapedPage)
                 (Some emptyCostTracking))
    /\ nth_error docs 2
       = Some (placeholder (inputFor "https://a.example/3") "Scrape timed out").
Proof.
  destruct (dispatchSync_resilient false fiveJobs fiveInputs)
    as (docs & H1 & H2 & H3 & _ & H5 & _).
  exists docs. split; [exact H1|]. split; [exact H2|]. split.
  - exact (H3 0%nat (inputFor "https://a.example/1") "job" scrapedPage
              (Some emptyCostTracking) eq_refl eq_refl eq_refl eq_refl eq_refl).
  - exact (H5 2%nat (inputFor "https://a.example/3") "job" "Scrape timed out"
              eq_refl eq_refl eq_refl).
Defined.

(** The scenario of five dispatched fetches of which the third times
    out: five items come back, the third alone carrying the error status. *)
Lemma five_fetches_one_failure :
  dispatchSync false fiveJobs fiveInputs
  = Ok [ resolved false fiveJobs 0 (inputFor "https://a.example/1");
         resolved false fiveJobs 1 (inputFor "https://a.example/2");
         placeholder (inputFor "https://a.example/3") "Scrape timed out";
         resolved false fiveJobs 3 (inputFor "https://a.example/4");
         resolved false fiveJobs 4 (inputFor "https://a.example/5") ]
  /\ map hasErrorStatus
         (mapFrom (fun x i => resolved false fiveJobs i x) 0 fiveInputs)
     = [false; false; true; false; false].
Proof. split; reflexivity. Qed.

End ScrapeDispatcherFacts.

(** ** IterationController *)

Module ControllerFacts.
Import JsString TextSimilarity RankFusion QueryExpander AnswerEvaluator ScrapeDispatcher.
Import Controller.

Lemma trace_fullPass (t : list Phase) :
  ((((((((t ++ [Expanding]) ++ [Searching]) ++ [Fusing]) ++ [Labeling]) ++ [Limiting])
      ++ [Filtering]) ++ [Dispatching]) ++ [Extracting]) ++ [Evaluating]
  = t ++ fullPass.
Proof. unfold fullPass. repeat rewrite <- app_assoc. reflexivity. Qed.

(** A synchronous pass that does not throw has gone through every
    phase and ends with the step its verdict decides. *)
Lemma iteration_sync_inv C E req st t step t' :
  iteration C E req shouldScrape isAsyncScraping st t = Ok (step, t') ->
  exists st' rec qs,
    isSyncPass C E req st st' rec qs /\ step = stepOf st' rec /\ t' = t ++ fullPass.
Proof.
  unfold iteration, pbind, lift, enter, ret, shouldScrape, isAsyncScraping. cbn [negb].
  destruct (expandQueriesPlanner (generateText E) (parseArray C) (query req) (gapHint st) 5)
    as [qs|e] eqn:Hq; [|discriminate].
  destruct (all (search E) qs) as [searches|e] eqn:Hs; [|discriminate].
  destruct (dispatchSync (useDbAuthentication C) (jobs E)
              (map scrapeInput
                   (itemsToScrape C (applyLimit (limit req) (label C (fuse searches qs))))))
    as [docs|e] eqn:Hd; [|discriminate].
  match goal with
  | |- context [evaluateAnswerWithLLM ?g ?p ?n ?m ?q ?sp] =>
      destruct (evaluateAnswerWithLLM g p n m q sp) as [v|e] eqn:Hv; [|discriminate]
  end.
  intros H.
  eexists _, (mkPassRecord _ _ docs (creditCallsOf docs) v), qs.
  split; [|split].
  - exists searches. cbn [limited dispatched results creditCalls verdict].
    repeat split; try eassumption; reflexivity.
  - unfold stepOf. cbn [verdict].
    destruct (converged v); injection H as <- _; reflexivity.
  - rewrite <- trace_fullPass.
    destruct (converged v); injection H as _ <-; reflexivity.
Qed.

Lemma all_total {A B : Type} (f : A -> result B) (xs : list A) :
  (forall x, exists y, f x = Ok y) -> exists ys, all f xs = Ok ys.
Proof.
  intros H. induction xs as [|x r (ys & IH)]; simpl; [now eexists|].
  destruct (H x) as (y & ->). rewrite IH. now eexists.
Qed.

(** A synchronous pass returns whenever the search provider does. *)
Lemma iteration_sync_total C E req st t :
  (forall q, exists r, search E q = Ok r) ->
  exists step t', iteration C E req shouldScrape isAsyncScraping st t = Ok (step, t').
Proof.
  intros Hsearch.
  unfold iteration, pbind, lift, enter, ret, shouldScrape, isAsyncScraping. cbn [negb].
  destruct (QueryExpanderFacts.expandQueriesPlanner_total
              (generateText E) (parseArray C) (query req) (gapHint st) 5) as (qs & ->).
  destruct (all_total (search E) qs Hsearch) as (searches & ->).
  rewrite ScrapeDispatcherFacts.dispatchSync_resolved.
  match goal with
  | |- context [evaluateAnswerWithLLM ?g ?p ?n ?m ?q ?sp] =>
      destruct (AnswerEvaluatorFacts.evaluate_total g p n m q sp) as (v & ->)
  end.
  destruct (converged v); eexists _, _; reflexivity.
Qed.

(** The two ways the loop of a request can run when the searches
    succeed: one pass whose verdict has converged, or a first pass whose
    verdict has not, followed by a second and last pass. *)
Lemma runLoop_shape C env req :
  (forall i q, exists r, search (env i) q = Ok r) ->
  (exists st0 rec0 qs0,
      isSyncPass C (env 0%nat) req initialState st0 rec0 qs0
      /\ converged (verdict rec0) = true
      /\ runLoop C env req = Ok (Finished st0 [rec0], fullPass))
  \/ (exists st0 rec0 qs0 st1 rec1 qs1,
         isSyncPass C (env 0%nat) req initialState st0 rec0 qs0
         /\ converged (verdict rec0) = false
         /\ isSyncPass C (env 1%nat) req st0 st1 rec1 qs1
         /\ runLoop C env req = Ok (Finished st1 [rec0; rec1], fullPass ++ fullPass)).
Proof.
  intros Hsearch.
  destruct (iteration_sync_total C (env 0%nat) req initialState [] (Hsearch 0%nat))
    as (step0 & t0 & H0).
  destruct (iteration_sync_inv _ _ _ _ _ _ _ H0) as (st0 & rec0 & qs0 & P0 & -> & ->).
  assert (Hrun0 : runLoop C env req
                  = match stepOf st0 rec0 with
                    | Continue st' rec =>
                        loop C env req shouldScrape isAsyncScraping 1 1 st'
                             (recorded [] rec) ([] ++ fullPass)
                    | Break st' rec => Ok (Finished st' [rec], [] ++ fullPass)
                    | Return r => Ok (Returned r, [] ++ fullPass)
                    end).
  { unfold runLoop, MAX_ITERATIONS. cbn [loop]. unfold pbind at 1. rewrite H0.
    destruct (stepOf st0 rec0); reflexivity. }
  rewrite Hrun0. unfold stepOf. destruct (converged (verdict rec0)) eqn:E0.
  - left. exists st0, rec0, qs0. repeat split; assumption || reflexivity.
  - right.
    destruct (iteration_sync_total C (env 1%nat) req st0 ([] ++ fullPass) (Hsearch 1%nat))
      as (step1 & t1 & H1).
    destruct (iteration_sync_inv _ _ _ _ _ _ _ H1) as (st1 & rec1 & qs1 & P1 & -> & ->).
    exists st0, rec0, qs0, st1, rec1, qs1.
    repeat split; try assumption.
    cbn [loop recorded]. unfold pbind. rewrite H1.
    unfold stepOf. destruct (converged (verdict rec1)); reflexivity.
Qed.

Lemma isSyncPass_iterations C E req st st' rec qs :
  isSyncPass C E req st st' rec qs -> iterations st' = S (iterations st).
Proof. intros (searches & _ & _ & _ & _ & _ & _ & _ & ->). reflexivity. Qed.

(** C3.  When the searches of the request succeed, the loop ends having
    made between 1 and [MAX_ITERATIONS = 2] passes, each of them through
    every phase up to the evaluation, after which alone the decision to
    stop is taken.  It makes exactly one pass if the evaluation of the
    first pass yields [answered = true] with a confidence of at least
    0.6, and exactly [MAX_ITERATIONS] passes if every evaluation yields
    [answered = false] or a confidence below 0.6. *)
Theorem loop_iteration_count C env req :
  (forall i q, exists r, search (env i) q = Ok r) ->
  exists st passes t,
    runLoop C env req = Ok (Finished st passes, t)
    /\ iterations st = List.length passes
    /\ (1 <= List.length passes <= MAX_ITERATIONS)%nat
    /\ t = List.concat (repeat fullPass (List.length passes))
    /\ (forall n rec, nth_error passes n = Some rec ->
          exists st0 st' qs, isSyncPass C (env n) req st0 st' rec qs)
    /\ (forall first,
          hd_error passes = Some first ->
          answered (verdict first) = true ->
          (CONVERGENCE_THRESHOLD <= confidence (verdict first))%Q ->
          List.length passes = 1%nat)
    /\ (Forall (fun rec => answered (verdict rec) = false
                           \/ (confidence (verdict rec) < CONVERGENCE_THRESHOLD)%Q) passes ->
        List.length passes = MAX_ITERATIONS).
Proof.
  intros Hsearch.
  destruct (runLoop_shape C env req Hsearch)
    as [(st0 & rec0 & qs0 & P0 & E0 & Hrun)
       | (st0 & rec0 & qs0 & st1 & rec1 & qs1 & P0 & E0 & P1 & Hrun)].
  - exists st0, [rec0], fullPass. split; [exact Hrun|].
    split; [exact (isSyncPass_iterations _ _ _ _ _ _ _ P0)|].
    split; [unfold MAX_ITERATIONS; simpl; lia|].
    split; [reflexivity|].
    split; [|split].
    + intros [|[|n]] rec Hn; simpl in Hn; try discriminate.
      injection Hn as <-. now exists initialState, st0, qs0.
    + reflexivity.
    + intros Hall. inversion Hall as [|? ? Hfirst _]; subst.
      apply AnswerEvaluatorFacts.not_converged_iff in Hfirst. congruence.
  - exists st1, [rec0; rec1], (fullPass ++ fullPass). split; [exact Hrun|].
    split.
    { rewrite (isSyncPass_iterations _ _ _ _ _ _ _ P1),
              (isSyncPass_iterations _ _ _ _ _ _ _ P0). reflexivity. }
    split; [unfold MAX_ITERATIONS; simpl; lia|].
    split; [reflexivity|].
    split; [|split].
    + intros [|[|[|n]]] rec Hn; simpl in Hn; try discriminate; injection Hn as <-.
      * now exists initialState, st0, qs0.
      * now exists st0, st1, qs1.
    + intros first [= <-] Ha Hc.
      assert (converged (verdict rec0) = true)
        by (apply AnswerEvaluatorFacts.converged_iff; now split).
      congruence.
    + reflexivity.
Qed.

Lemma loop_iteration_count_witness :
  exists st passes t,
    runLoop sampleCollaborators envYes sampleRequest = Ok (Finished st passes, t)
    /\ iterations st = List.length passes
    /\ (1 <= List.length passes <= MAX_ITERATIONS)%nat
    /\ t = List.concat (repeat fullPass (List.length passes))
    /\ (forall n rec, nth_error passes n = Some rec ->
          exists st0 st' qs,
            isSyncPass sampleCollaborators (envYes n) sampleRequest st0 st' rec qs)
    /\ (forall first,
          hd_error passes = Some first ->
          answered (verdict first) = true ->
          (CONVERGENCE_THRESHOLD <= confidence (verdict first))%Q ->
          List.length passes = 1%nat)
    /\ (Forall (fun rec => answered (verdict rec) = false
                           \/ (confidence (verdict rec) < CONVERGENCE_THRESHOLD)%Q) passes ->
        List.length passes = MAX_ITERATIONS).
Proof.
  apply (loop_iteration_count sampleCollaborators envYes sampleRequest).
  intros i q. eexists. reflexivity.
Defined.

(** The two stubs of the evaluator: satisfied at once, one pass; never
    satisfied, [MAX_ITERATIONS] passes. *)
Lemma loop_stub_runs :
  (exists st passes t,
      runLoop sampleCollaborators envYes sampleRequest = Ok (Finished st passes, t)
      /\ List.length passes = 1%nat /\ iterations st = 1%nat)
  /\ (exists st passes t,
         runLoop sampleCollaborators envNo sampleRequest = Ok (Finished st passes, t)
         /\ List.length passes = 2%nat /\ iterations st = 2%nat).
Proof.
  split; vm_compute; eexists _, _, _; repeat split.
Qed.

(** C9 (amended).  Whatever the query and the spans,
    [evaluateAnswerWithLLM] returns a verdict and never throws; the
    verdict is the neutral one,
    [{answered: false, confidence: 0, missing_facts: []}], whenever the
    completion call fails, [JSON.parse] rejects its output, the parsed
    value is not an object, or reading the verdict off it throws.  A
    parsed object is not checked against the expected structure: the
    verdict is read off it by coercion, [Boolean(parsed.answered)],
    [Number(parsed.confidence) || 0] and the strings of
    [parsed.missing_facts] when that is an array, else no fact, whatever
    the types of its fields.  The neutral verdict has not converged: a
    pass that ends with it does not break the loop, leaves [answered]
    false and hands an empty gap hint to the next pass. *)
Theorem evaluator_neutral_on_failure generateText JSON_parse NumberToString StringToNumber
        query spansByUrl :
  let evaluate :=
    evaluateAnswerWithLLM generateText JSON_parse NumberToString StringToNumber in
  (exists v, evaluate query spansByUrl = Ok v)
  /\ (forall e, generateText (evalPrompt query spansByUrl) = Throw e ->
                evaluate query spansByUrl = Ok neutral)
  /\ (forall text e,
         generateText (evalPrompt query spansByUrl) = Ok text ->
         JSON_parse text = Throw e ->
         evaluate query spansByUrl = Ok neutral)
  /\ (forall text parsed,
         generateText (evalPrompt query spansByUrl) = Ok text ->
         JSON_parse text = Ok parsed ->
         (forall fields, parsed <> JObj fields) ->
         evaluate query spansByUrl = Ok neutral)
  /\ (forall text parsed e,
         generateText (evalPrompt query spansByUrl) = Ok text ->
         JSON_parse text = Ok parsed ->
         readVerdict NumberToString StringToNumber parsed = Throw e ->
         evaluate query spansByUrl = Ok neutral)
  /\ (forall text fields c facts,
         generateText (evalPrompt query spansByUrl) = Ok text ->
         JSON_parse text = Ok (JObj fields) ->
         toNumberOr0 NumberToString StringToNumber (lookup "confidence" fields) = Ok c ->
         toFacts NumberToString (lookup "missing_facts" fields) = Ok facts ->
         evaluate query spansByUrl
         = Ok (mkVerdict (toBoolean (lookup "answered" fields)) c facts))
  /\ converged neutral = false
  /\ (forall C E req st t step t',
         iteration C E req shouldScrape isAsyncScraping st t = Ok (step, t') ->
         exists st' rec,
           (step = Break st' rec \/ step = Continue st' (Some rec))
           /\ (verdict rec = neutral ->
               step = Continue st' (Some rec)
               /\ isAnswered st' = false
               /\ gapHint st' = Some "")).
Proof.
  intros evaluate. subst evaluate.
  split; [apply AnswerEvaluatorFacts.evaluate_total|].
  split; [intros e; apply AnswerEvaluatorFacts.evaluate_call_failure|].
  split; [intros text e; apply AnswerEvaluatorFacts.evaluate_parse_failure|].
  split; [intros text parsed; apply AnswerEvaluatorFacts.evaluate_not_object|].
  split; [intros text parsed e; apply AnswerEvaluatorFacts.evaluate_read_failure|].
  split.
  { intros text fields c facts Ht Hp Hc Hf.
    apply (AnswerEvaluatorFacts.evaluate_parsed _ _ _ _ _ _ text (JObj fields));
      [exact Ht | exact Hp |].
    unfold readVerdict. cbn [getProp bind]. rewrite Hc. cbn [bind]. now rewrite Hf. }
  split; [reflexivity|].
  intros C E req st t step t' H.
  destruct (iteration_sync_inv _ _ _ _ _ _ _ H) as (st' & rec & qs & P & -> & _).
  exists st', rec. split.
  - unfold stepOf. destruct (converged (verdict rec)); [now left | now right].
  - intros Hn. destruct P as (searches & _ & _ & _ & _ & _ & _ & _ & ->).
    unfold stepOf. rewrite Hn. simpl. repeat split; reflexivity.
Qed.

(** A completion that is valid JSON of another shape than the one asked
    for, its [answered] the string [false] and its [confidence] the
    string [0.9], without [missing_facts]: the verdict is not the
    neutral one, it says answered with confidence 0.9, and it has
    converged. *)
Lemma loose_object_reads_as_converged :
  LooseVerdict.parseLoose LooseVerdict.looseText = Ok LooseVerdict.looseObject
  /\ evaluateAnswerWithLLM LooseVerdict.looseBackend LooseVerdict.parseLoose
                           LooseVerdict.textOfNumber LooseVerdict.numberOfText
                           "who wrote it" []
     = Ok (mkVerdict true (9 # 10) [])
  /\ answered neutral = false
  /\ converged (mkVerdict true (9 # 10) []) = true.
Proof. vm_compute. repeat split. Qed.

(** A backend whose answer is not JSON: both passes end with the neutral
    verdict and the loop runs to [MAX_ITERATIONS]. *)
Lemma garbled_verdict_run :
  exists st rec0 rec1 t,
    runLoop sampleCollaborators envGarbled sampleRequest = Ok (Finished st [rec0; rec1], t)
    /\ verdict rec0 = neutral /\ verdict rec1 = neutral /\ iterations st = 2%nat.
Proof. vm_compute. eexists _, _, _, _. repeat split. Qed.

(** *** The items handed to the dispatcher *)

Lemma guarded_flat_map_notBlocked C (g : Item -> ScrapeItem) (l : list Item) :
  (forall it, sUrl (scrapeInput (g it)) = url it) ->
  Forall (notBlocked C)
         (flat_map (fun it => if isUrlBlocked C (url it) then [] else [g it]) l).
Proof.
  intros Hg. induction l as [|it r IH]; simpl; [constructor|].
  destruct (isUrlBlocked C (url it)) eqn:E; simpl; [assumption|].
  constructor; [|assumption]. unfold notBlocked. now rewrite Hg.
Qed.

Lemma itemsToScrape_notBlocked C r : Forall (notBlocked C) (itemsToScrape C r).
Proof.
  unfold itemsToScrape, webItems, newsItems, imageItems.
  repeat (apply Forall_app; split); apply guarded_flat_map_notBlocked; reflexivity.
Qed.

Lemma guarded_flat_map_filter C (g : Item -> ScrapeItem) (l : list Item) :
  flat_map (fun it => if isUrlBlocked C (url it) then [] else [g it])
           (filter (fun it => negb (isUrlBlocked C (url it))) l)
  = flat_map (fun it => if isUrlBlocked C (url it) then [] else [g it]) l.
Proof.
  induction l as [|it r IH]; simpl; [reflexivity|].
  destruct (isUrlBlocked C (url it)) eqn:E; simpl; [assumption|].
  now rewrite E, IH.
Qed.

Lemma filter_comm {A : Type} (p q : A -> bool) (l : list A) :
  filter p (filter q l) = filter q (filter p l).
Proof.
  induction l as [|x r IH]; simpl; [reflexivity|].
  destruct (p x) eqn:Ep, (q x) eqn:Eq; simpl; rewrite ?Ep, ?Eq, IH; reflexivity.
Qed.

Lemma orEmpty_option_map (f : list Item -> list Item) (o : option (list Item)) :
  f [] = [] -> orEmpty (option_map f o) = f (orEmpty o).
Proof. intros H. destruct o; simpl; congruence. Qed.

(** Dropping the blocked items from the lists changes nothing in what
    is dispatched. *)
Lemma itemsToScrape_withoutBlocked C r :
  itemsToScrape C (withoutBlocked C r) = itemsToScrape C r.
Proof.
  unfold itemsToScrape, withoutBlocked. cbn [web images news].
  rewrite !orEmpty_option_map by reflexivity.
  unfold webItems, newsItems, imageItems.
  rewrite (filter_comm (fun it => truthy (url it))).
  rewrite (filter_comm (fun it => truthy (url it))
                       (fun it => negb (isUrlBlocked C (url it))) (orEmpty (images r))).
  now rewrite !guarded_flat_map_filter.
Qed.

Lemma all_length {A B : Type} (f : A -> result B) (xs : list A) : forall ys,
  all f xs = Ok ys -> List.length ys = List.length xs.
Proof.
  induction xs as [|x r IH]; simpl; intros ys H.
  - now injection H as <-.
  - destruct (f x); [|discriminate]. destruct (all f r) eqn:E; [|discriminate].
    injection H as <-. simpl. f_equal. now apply IH.
Qed.

Lemma isSyncPass_results_length C E req st st' rec qs :
  isSyncPass C E req st st' rec qs ->
  List.length (results rec) = List.length (dispatched rec)
  /\ List.length (creditCalls rec) = List.length (dispatched rec).
Proof.
  intros (searches & _ & _ & _ & _ & Hd & Hc & _).
  rewrite ScrapeDispatcherFacts.dispatchSync_resolved in Hd. injection Hd as Hd.
  assert (List.length (results rec) = List.length (dispatched rec))
    by (rewrite <- Hd, mapFrom_length; apply length_map).
  split; [assumption|]. rewrite Hc. unfold creditCallsOf. now rewrite length_map.
Qed.

Lemma isSyncPass_credits C E req st st' rec qs :
  isSyncPass C E req st st' rec qs ->
  match all (fun c => calculateCreditsToBeBilled E (fst c) (snd c)) (creditCalls rec) with
  | Ok cs => credits_billed st' = sumZ cs
  | Throw _ => credits_billed st' = Z.of_nat (totalResultsCount (limited rec))
  end.
Proof.
  intros (searches & _ & _ & _ & _ & _ & Hc & _ & ->). cbn [credits_billed].
  unfold creditsOf. rewrite Hc.
  now destruct (all _ (creditCallsOf (results rec))).
Qed.

(** *** A run as a whole *)

Lemma run_summary C env req :
  (forall i q, exists r, search (env i) q = Ok r) ->
  exists st passes t last,
    runLoop C env req = Ok (Finished st passes, t)
    /\ (forall m rec, nth_error passes m = Some rec ->
          exists s s' q, isSyncPass C (env m) req s s' rec q)
    /\ isLastPass C env req st passes last.
Proof.
  intros Hsearch.
  destruct (runLoop_shape C env req Hsearch)
    as [(st0 & rec0 & qs0 & P0 & E0 & Hrun)
       | (st0 & rec0 & qs0 & st1 & rec1 & qs1 & P0 & E0 & P1 & Hrun)].
  - exists st0, [rec0], fullPass, rec0. split; [exact Hrun|]. split.
    + intros [|[|m]] rec Hm; simpl in Hm; try discriminate.
      injection Hm as <-. now exists initialState, st0, qs0.
    + exists initialState, qs0. now split.
  - exists st1, [rec0; rec1], (fullPass ++ fullPass), rec1. split; [exact Hrun|]. split.
    + intros [|[|[|m]]] rec Hm; simpl in Hm; try discriminate; injection Hm as <-.
      * now exists initialState, st0, qs0.
      * now exists st0, st1, qs1.
    + exists st0, qs1. now split.
Qed.

Lemma searchController_finished C env req st passes t :
  forceZDR req = false ->
  runLoop C env req = Ok (Finished st passes, t) ->
  searchController C env req
  = Success (match finalSearchResponse st with Some r => r | None => emptyResponse end)
            None (credits_billed st).
Proof. intros Hz Hrun. unfold searchController. now rewrite Hz, Hrun. Qed.

Lemma isLastPass_response C env req st passes last :
  isLastPass C env req st passes last ->
  exists qs,
    finalSearchResponse st
    = Some (rerank qs (mergeScraped (resultsMapOf (dispatched last) (results last))
                                    (limited last))).
Proof.
  intros (st0 & qs & _ & (searches & _ & _ & _ & _ & _ & _ & _ & ->)).
  now exists qs.
Qed.

(** *** C6: blocked URLs, dispatch and credits *)

(** With a failing credit computation the total falls back to the
    number of limited results: the request whose results include the
    blocked URL is charged 2 credits, the same request without it 1. *)
Lemma blocked_url_counted_on_fallback :
  (exists data,
      searchController sampleCollaborators (envNoBilling sampleResults) sampleRequest
      = Success data None 2
      /\ existsb (fun it => isUrlBlocked sampleCollaborators (url it)) (orEmpty (web data))
         = true)
  /\ (exists data,
         searchController sampleCollaborators (envNoBilling onlyOkResults) sampleRequest
         = Success data None 1).
Proof.
  split.
  - vm_compute. eexists. split; reflexivity.
  - vm_compute. eexists. reflexivity.
Qed.

(** C6 (amended).  For every request whose searches succeed, in every
    pass no item with a blocked URL is among the items handed to the
    dispatcher, which are exactly those of the limited lists with the
    blocked items left out; and when the credit computations of the last
    pass succeed, the credit total of the request is the sum of their
    values, one per dispatched item, so that a blocked item adds nothing
    to it. *)
Theorem blocked_urls_not_dispatched_nor_billed C env req :
  (forall i q, exists r, search (env i) q = Ok r) ->
  forceZDR req = false ->
  exists st passes t last data,
    runLoop C env req = Ok (Finished st passes, t)
    /\ isLastPass C env req st passes last
    /\ searchController C env req = Success data None (credits_billed st)
    /\ (forall rec, In rec passes ->
          Forall (notBlocked C) (dispatched rec)
          /\ dispatched rec = itemsToScrape C (withoutBlocked C (limited rec)))
    /\ (forall cs, lastCredits env passes last = Ok cs ->
          credits_billed st = sumZ cs
          /\ List.length cs = List.length (dispatched last)).
Proof.
  intros Hsearch Hz.
  destruct (run_summary C env req Hsearch) as (st & passes & t & last & Hrun & Hall & Hlast).
  exists st, passes, t, last. eexists.
  split; [exact Hrun|]. split; [exact Hlast|].
  split; [exact (searchController_finished C env req st passes t Hz Hrun)|].
  split.
  - intros rec Hin. destruct (In_nth_error _ _ Hin) as (m & Hm).
    destruct (Hall m rec Hm) as (s & s' & q & (searches & _ & _ & _ & Hd & _)).
    rewrite Hd. split; [apply itemsToScrape_notBlocked|].
    symmetry. apply itemsToScrape_withoutBlocked.
  - intros cs Hcs. destruct Hlast as (st0 & qs & _ & P).
    pose proof (isSyncPass_credits _ _ _ _ _ _ _ P) as Hc.
    unfold lastCredits in Hcs. rewrite Hcs in Hc. split; [exact Hc|].
    rewrite (all_length _ _ _ Hcs).
    exact (proj2 (isSyncPass_results_length _ _ _ _ _ _ _ P)).
Qed.

Lemma blocked_urls_not_dispatched_nor_billed_witness :
  exists st passes t last data,
    runLoop sampleCollaborators envYes sampleRequest = Ok (Finished st passes, t)
    /\ isLastPass sampleCollaborators envYes sampleRequest st passes last
    /\ searchController sampleCollaborators envYes sampleRequest
       = Success data None (credits_billed st)
    /\ (forall rec, In rec passes ->
          Forall (notBlocked sampleCollaborators) (dispatched rec)
          /\ dispatched rec
             = itemsToScrape sampleCollaborators
                             (withoutBlocked sampleCollaborators (limited rec)))
    /\ (forall cs, lastCredits envYes passes last = Ok cs ->
          credits_billed st = sumZ cs
          /\ List.length cs = List.length (dispatched last)).
Proof.
  apply (blocked_urls_not_dispatched_nor_billed sampleCollaborators envYes sampleRequest).
  - intros i q. eexists. reflexivity.
  - reflexivity.
Defined.

(** *** C7: blocked URLs and the response *)

Lemma spread_emptyObject it : spread it emptyObject = it.
Proof. now destruct it. Qed.

Lemma keyEqb_eq a b : keyEqb a b = true <-> a = b.
Proof.
  destruct a as [x|], b as [y|]; simpl; try (split; congruence).
  rewrite String.eqb_eq. split; congruence.
Qed.

Lemma mapGet_Some (m : ResultsMap) k doc :
  mapGet m k = Some doc -> In k (map fst m).
Proof.
  unfold mapGet. destruct (find _ (rev m)) as [e|] eqn:F; [|discriminate].
  intros _. apply find_some in F. destruct F as [Hin Hk].
  apply keyEqb_eq in Hk. subst k. apply in_map. now apply in_rev.
Qed.

Lemma blocked_has_no_document C toScrape docs k :
  Forall (notBlocked C) toScrape ->
  isUrlBlocked C k = true ->
  mapGet (resultsMapOf toScrape docs) k = None.
Proof.
  intros Hall Hk.
  destruct (mapGet (resultsMapOf toScrape docs) k) as [doc|] eqn:G; [exfalso | reflexivity].
  apply mapGet_Some in G. unfold resultsMapOf in G.
  apply in_map_iff in G. destruct G as ([k' d] & Hfst & Hin). simpl in Hfst. subst k'.
  apply in_combine_l, in_map_iff in Hin. destruct Hin as (i & Hi & Hin).
  rewrite Forall_forall in Hall. specialize (Hall i Hin). unfold notBlocked in Hall.
  congruence.
Qed.

Lemma mapFrom_In {A B : Type} (f : A -> nat -> B) (l : list A) i x :
  In x l -> exists j, In (f x j) (mapFrom f i l).
Proof.
  intros Hin. destruct (In_nth_error _ _ Hin) as (n & Hn).
  exists (i + n)%nat. eapply nth_error_In. now apply mapFrom_nth_error.
Qed.

Lemma rerankWeb_keeps qs l it :
  In it l -> exists p, In (withPosition it p) (rerankWeb qs l).
Proof.
  intros Hin. unfold rerankWeb.
  destruct (mapFrom_In (fun it0 idx => mkScored it0 (simSumOrZero (textOf it0) qs) idx)
                       l 0 it Hin) as (idx & Hs).
  apply (Permutation_in _ (Permutation_sym (stableSort_perm rerankAfter _))) in Hs.
  destruct (mapFrom_In (fun x i => withPosition (sItem x) (Z.of_nat i + 1)) _ 0 _ Hs)
    as (j & Hj).
  now exists (Z.of_nat j + 1)%Z.
Qed.

Lemma whenNonEmpty_In (f : list Item -> list Item) (o : option (list Item)) x y :
  In x (orEmpty o) ->
  (forall l, In x l -> In y (f l)) ->
  In y (orEmpty (whenNonEmpty f o)).
Proof.
  intros Hin Hf. destruct o as [l|]; simpl in *; [|contradiction].
  destruct l as [|z r]; [contradiction|]. simpl. now apply Hf.
Qed.

(** An item with a blocked URL comes out of the merge as it went in. *)
Lemma blocked_item_unchanged C toScrape docs it :
  Forall (notBlocked C) toScrape ->
  isUrlBlocked C (url it) = true ->
  enrichWeb (resultsMapOf toScrape docs) it = it
  /\ enrichOther (resultsMapOf toScrape docs) it = it.
Proof.
  intros Hall Hb. unfold enrichWeb, enrichOther.
  rewrite (blocked_has_no_document C toScrape docs (url it) Hall Hb).
  destruct (truthy (url it)); split; apply spread_emptyObject.
Qed.

(** The sample request: the blocked URL is in the web list of the
    response. *)
Lemma blocked_url_in_response :
  exists data credits,
    searchController sampleCollaborators envYes sampleRequest = Success data None credits
    /\ existsb (fun it => isUrlBlocked sampleCollaborators (url it)) (orEmpty (web data))
       = true.
Proof. vm_compute. eexists _, _. split; reflexivity. Qed.

(** C7 (amended).  The blocked-URL check only keeps an item out of the
    scrape dispatch.  For every request whose searches succeed, an item
    of the limited lists whose URL is blocked is still in its category
    list of the emitted response, with the fields the search gave it and
    nothing scraped merged in: unchanged in the news and image lists, and
    with only its position renumbered by the final re-ranking in the web
    list. *)
Theorem blocked_urls_stay_in_response C env req :
  (forall i q, exists r, search (env i) q = Ok r) ->
  forceZDR req = false ->
  exists st passes t last data,
    runLoop C env req = Ok (Finished st passes, t)
    /\ isLastPass C env req st passes last
    /\ searchController C env req = Success data None (credits_billed st)
    /\ Forall (notBlocked C) (dispatched last)
    /\ (forall it, In it (orEmpty (web (limited last))) ->
                   isUrlBlocked C (url it) = true ->
                   exists p, In (withPosition it p) (orEmpty (web data)))
    /\ (forall it, In it (orEmpty (news (limited last))) ->
                   isUrlBlocked C (url it) = true ->
                   In it (orEmpty (news data)))
    /\ (forall it, In it (orEmpty (images (limited last))) ->
                   isUrlBlocked C (url it) = true ->
                   In it (orEmpty (images data))).
Proof.
  intros Hsearch Hz.
  destruct (run_summary C env req Hsearch) as (st & passes & t & last & Hrun & _ & Hlast).
  exists st, passes, t, last. eexists.
  split; [exact Hrun|]. split; [exact Hlast|].
  split; [exact (searchController_finished C env req st passes t Hz Hrun)|].
  destruct (isLastPass_response _ _ _ _ _ _ Hlast) as (qs & ->).
  assert (Hnb : Forall (notBlocked C) (dispatched last)).
  { destruct Hlast as (st0 & qs' & _ & (searches & _ & _ & _ & Hd & _)).
    rewrite Hd. apply itemsToScrape_notBlocked. }
  split; [exact Hnb|].
  unfold rerank, mergeScraped. cbn [web news images].
  split; [|split].
  - intros it Hin Hb.
    destruct (blocked_item_unchanged C (dispatched last) (results last) it Hnb Hb)
      as [Hw _].
    assert (Hmid : In it (orEmpty (whenNonEmpty
                     (map (enrichWeb (resultsMapOf (dispatched last) (results last))))
                     (web (limited last))))).
    { apply (whenNonEmpty_In _ _ it it Hin). intros l Hl.
      rewrite <- Hw. now apply in_map. }
    destruct (whenNonEmpty _ (web (limited last))) as [l|]; simpl in Hmid; [|contradiction].
    destruct (rerankWeb_keeps qs l it Hmid) as (p & Hp). exists p.
    destruct l as [|z r]; [contradiction|]. exact Hp.
  - intros it Hin Hb.
    destruct (blocked_item_unchanged C (dispatched last) (results last) it Hnb Hb)
      as [_ Ho].
    apply (whenNonEmpty_In _ _ it it Hin). intros l Hl.
    rewrite <- Ho. now apply in_map.
  - intros it Hin Hb.
    destruct (blocked_item_unchanged C (dispatched last) (results last) it Hnb Hb)
      as [_ Ho].
    apply (whenNonEmpty_In _ _ it it Hin). intros l Hl.
    rewrite <- Ho. now apply in_map.
Qed.

Lemma blocked_urls_stay_in_response_witness :
  exists st passes t last data,
    runLoop sampleCollaborators envYes sampleRequest = Ok (Finished st passes, t)
    /\ isLastPass sampleCollaborators envYes sampleRequest st passes last
    /\ searchController sampleCollaborators envYes sampleRequest
       = Success data None (credits_billed st)
    /\ Forall (notBlocked sampleCollaborators) (dispatched last)
    /\ (forall it, In it (orEmpty (web (limited last))) ->
                   isUrlBlocked sampleCollaborators (url it) = true ->
                   exists p, In (withPosition it p) (orEmpty (web data)))
    /\ (forall it, In it (orEmpty (news (limited last))) ->
                   isUrlBlocked sampleCollaborators (url it) = true ->
                   In it (orEmpty (news data)))
    /\ (forall it, In it (orEmpty (images (limited last))) ->
                   isUrlBlocked sampleCollaborators (url it) = true ->
                   In it (orEmpty (images data))).
Proof.
  apply (blocked_urls_stay_in_response sampleCollaborators envYes sampleRequest).
  - intros i q. eexists. reflexivity.
  - reflexivity.
Defined.

(** *** C8: what the credit computation is asked *)

(** Every fetch of the sample request times out: no item is produced
    successfully, yet the credit computation is invoked, once, for the
    placeholder, and its value is the credit total.  And when the
    evaluator is never satisfied the computation is invoked in both
    passes, one credit each time, while the total is 1, not 2. *)
Lemma credits_computed_for_failed_item :
  (exists st rec t,
      runLoop sampleCollaborators envTimeouts sampleRequest = Ok (Finished st [rec], t)
      /\ List.length (creditCalls rec) = 1%nat
      /\ List.length (filter (fun d => negb (hasErrorStatus d)) (results rec)) = 0%nat
      /\ credits_billed st = 1%Z)
  /\ (exists st rec0 rec1 t,
         runLoop sampleCollaborators envNo sampleRequest = Ok (Finished st [rec0; rec1], t)
         /\ all (fun c => calculateCreditsToBeBilled (envNo 0%nat) (fst c) (snd c))
                (creditCalls rec0 ++ creditCalls rec1) = Ok [1%Z; 1%Z]
         /\ credits_billed st = 1%Z).
Proof.
  split.
  - vm_compute. eexists _, _, _. repeat split.
  - vm_compute. eexists _, _, _, _. repeat split.
Qed.

(** C8 (amended).  In synchronous mode, for every request whose searches
    succeed, each pass invokes the credit computation exactly once per
    dispatched item, on the document that item resolved to, be it the
    scraped document or the error placeholder.  The credit total of the
    request is that of the last pass: the sum of its per-item values
    when all of its computations succeed, and the number of limited
    results when one fails. *)
Theorem credits_once_per_dispatched_item C env req :
  (forall i q, exists r, search (env i) q = Ok r) ->
  forceZDR req = false ->
  exists st passes t last data,
    runLoop C env req = Ok (Finished st passes, t)
    /\ isLastPass C env req st passes last
    /\ searchController C env req = Success data None (credits_billed st)
    /\ (forall m rec, nth_error passes m = Some rec ->
          results rec
          = mapFrom (fun x i => resolved (useDbAuthentication C) (jobs (env m)) i x) 0
                    (map scrapeInput (dispatched rec))
          /\ creditCalls rec = map (fun d => (document d, costTracking d)) (results rec)
          /\ List.length (creditCalls rec) = List.length (dispatched rec))
    /\ match lastCredits env passes last with
       | Ok cs => credits_billed st = sumZ cs
       | Throw _ => credits_billed st = Z.of_nat (totalResultsCount (limited last))
       end.
Proof.
  intros Hsearch Hz.
  destruct (run_summary C env req Hsearch) as (st & passes & t & last & Hrun & Hall & Hlast).
  exists st, passes, t, last. eexists.
  split; [exact Hrun|]. split; [exact Hlast|].
  split; [exact (searchController_finished C env req st passes t Hz Hrun)|].
  split.
  - intros m rec Hm. destruct (Hall m rec Hm) as (s & s' & q & P).
    pose proof (isSyncPass_results_length _ _ _ _ _ _ _ P) as [_ Hlen].
    destruct P as (searches & _ & _ & _ & _ & Hd & Hc & _).
    rewrite ScrapeDispatcherFacts.dispatchSync_resolved in Hd. injection Hd as Hd.
    repeat split; [now symmetry | exact Hc | exact Hlen].
  - destruct Hlast as (st0 & qs & _ & P).
    exact (isSyncPass_credits _ _ _ _ _ _ _ P).
Qed.

Lemma credits_once_per_dispatched_item_witness :
  exists st passes t last data,
    runLoop sampleCollaborators envTimeouts sampleRequest = Ok (Finished st passes, t)
    /\ isLastPass sampleCollaborators envTimeouts sampleRequest st passes last
    /\ searchController sampleCollaborators envTimeouts sampleRequest
       = Success data None (credits_billed st)
    /\ (forall m rec, nth_error passes m = Some rec ->
          results rec
          = mapFrom (fun x i => resolved (useDbAuthentication sampleCollaborators)
                                         (jobs (envTimeouts m)) i x) 0
                    (map scrapeInput (dispatched rec))
          /\ creditCalls rec = map (fun d => (document d, costTracking d)) (results rec)
          /\ List.length (creditCalls rec) = List.length (dispatched rec))
    /\ match lastCredits envTimeouts passes last with
       | Ok cs => credits_billed st = sumZ cs
       | Throw _ => credits_billed st = Z.of_nat (totalResultsCount (limited last))
       end.
Proof.
  apply (credits_once_per_dispatched_item sampleCollaborators envTimeouts sampleRequest).
  - intros i q. eexists. reflexivity.
  - reflexivity.
Defined.

End ControllerFacts.

(* ===================================================================== *)
(** * Further properties of the code                                     *)
(* ===================================================================== *)

(** ** TextSimilarity *)

Module TextSimilarityFacts.
Import JsString TextSimilarity.

Lemma has_In (S : list string) t : has S t = true <-> In t S.
Proof.
  unfold has. rewrite existsb_exists. split.
  - intros (y & Hy & E). apply String.eqb_eq in E. now subst.
  - intros H. exists t. split; [assumption | apply String.eqb_refl].
Qed.

Lemma mkSet_In l : forall seen x,
  In x (mkSet l seen) <-> In x l /\ ~ In x seen.
Proof.
  induction l as [|t r IH]; intros seen x; simpl; [tauto|].
  destruct (existsb (String.eqb t) seen) eqn:E.
  - change (existsb (String.eqb t) seen) with (has seen t) in E.
    apply has_In in E. rewrite IH. split; [tauto|].
    intros [[<-|H] Hn]; [contradiction | tauto].
  - assert (Hn : ~ In t seen).
    { intros H. apply has_In in H. unfold has in H. congruence. }
    simpl. rewrite IH. simpl. split.
    + intros [<-|[H1 H2]]; [tauto|]. split; [now right|]. tauto.
    + intros [[<-|H] Hx]; [now left|].
      destruct (string_dec t x) as [->|Hd]; [now left | right].
      split; [assumption|]. intros [E'|E']; [congruence | contradiction].
Qed.

Lemma mkSet_NoDup l : forall seen, NoDup (mkSet l seen).
Proof.
  induction l as [|t r IH]; intros seen; simpl; [constructor|].
  destruct (existsb (String.eqb t) seen); [apply IH|].
  constructor; [|apply IH].
  rewrite mkSet_In. simpl. tauto.
Qed.

Lemma tokenSet_In s x : In x (mkSet (toTokens s) []) <-> In x (toTokens s).
Proof. rewrite mkSet_In. simpl. tauto. Qed.

(** The size of the intersection does not depend on the side it is
    counted from. *)
Lemma inter_comm (A B : list string) :
  NoDup A -> NoDup B ->
  List.length (filter (has B) A) = List.length (filter (has A) B).
Proof.
  intros HA HB. apply Permutation_length, NoDup_Permutation.
  - now apply NoDup_filter.
  - now apply NoDup_filter.
  - intros x. rewrite !filter_In, !has_In. tauto.
Qed.

Lemma inter_le_l (A B : list string) :
  (List.length (filter (has B) A) <= List.length A)%nat.
Proof. apply filter_length_le. Qed.

Lemma inter_le_r (A B : list string) :
  NoDup A -> NoDup B -> (List.length (filter (has B) A) <= List.length B)%nat.
Proof. intros HA HB. rewrite (inter_comm A B HA HB). apply filter_length_le. Qed.

(** X1.  [textSim] is symmetric: the similarity of [a] to [b] is that of
    [b] to [a]. *)
Theorem textSim_symmetric a b : textSim a b = textSim b a.
Proof.
  unfold textSim.
  set (A := mkSet (toTokens a) []). set (B := mkSet (toTokens b) []).
  rewrite (orb_comm (List.length B =? 0)%nat).
  rewrite (inter_comm B A (mkSet_NoDup _ _) (mkSet_NoDup _ _)).
  now rewrite (Nat.add_comm (List.length B)).
Qed.

Lemma ratio_bounds (i u : nat) :
  (i <= u)%nat -> (0 < u)%nat ->
  (0 <= inject_Z (Z.of_nat i) / inject_Z (Z.of_nat u) <= 1)%Q.
Proof.
  intros Hi Hu.
  assert (Hpos : (0 < inject_Z (Z.of_nat u))%Q).
  { change 0%Q with (inject_Z 0). rewrite <- Zlt_Qlt. lia. }
  split.
  - apply Qle_shift_div_l; [assumption|]. rewrite Qmult_0_l.
    change 0%Q with (inject_Z 0). rewrite <- Zle_Qle. lia.
  - apply Qle_shift_div_r; [assumption|]. rewrite Qmult_1_l.
    rewrite <- Zle_Qle. lia.
Qed.

(** X2.  The similarity of two texts lies between 0 and 1. *)
Theorem textSim_range a b : (0 <= textSim a b <= 1)%Q.
Proof.
  unfold textSim.
  set (A := mkSet (toTokens a) []). set (B := mkSet (toTokens b) []).
  destruct ((List.length A =? 0)%nat || (List.length B =? 0)%nat) eqn:E;
    [split; discriminate|].
  apply orb_false_iff in E. destruct E as [EA EB].
  apply Nat.eqb_neq in EA, EB.
  pose proof (inter_le_l A B) as H1.
  pose proof (inter_le_r A B (mkSet_NoDup _ _) (mkSet_NoDup _ _)) as H2.
  destruct (Nat.eqb_spec (List.length A + List.length B
                          - List.length (filter (has B) A)) 0) as [Hz|Hnz];
    [split; discriminate|].
  apply ratio_bounds; lia.
Qed.

Lemma filter_all {A : Type} (p : A -> bool) (l : list A) :
  (forall x, In x l -> p x = true) -> filter p l = l.
Proof.
  intros H. induction l as [|x r IH]; simpl; [reflexivity|].
  rewrite (H x (or_introl eq_refl)). f_equal. apply IH.
  intros y Hy. apply H. now right.
Qed.

(** X3.  A text with at least one token of three characters or more is
    fully similar to itself; a text without any has similarity 0 to
    every text, itself included. *)
Theorem textSim_self a :
  (toTokens a <> [] -> (textSim a a == 1)%Q)
  /\ (toTokens a = [] -> forall b, textSim a b = 0%Q /\ textSim b a = 0%Q).
Proof.
  split.
  - intros Hne. unfold textSim. set (A := mkSet (toTokens a) []).
    assert (HA : List.length A <> 0%nat).
    { intros H0. apply length_zero_iff_nil in H0.
      assert (Hin : forall t, In t (toTokens a) -> In t A)
        by (intros t Ht; now apply tokenSet_In).
      rewrite H0 in Hin. destruct (toTokens a) as [|t r]; [congruence|].
      exact (Hin t (or_introl eq_refl)). }
    apply Nat.eqb_neq in HA. rewrite HA. simpl.
    rewrite (filter_all (has A) A) by (intros x Hx; now apply has_In).
    replace (List.length A + List.length A - List.length A)%nat
      with (List.length A) by lia.
    rewrite HA. apply Nat.eqb_neq in HA.
    unfold Qdiv. apply Qmult_inv_r.
    intros H. apply HA.
    unfold Qeq in H. simpl in H. lia.
  - intros Hnil b. unfold textSim. rewrite Hnil. simpl.
    split; [reflexivity|]. now rewrite orb_true_r.
Qed.

Lemma ratio_zero (i u : nat) :
  (0 < u)%nat ->
  (inject_Z (Z.of_nat i) / inject_Z (Z.of_nat u) == 0)%Q <-> i = 0%nat.
Proof.
  intros Hu.
  assert (Hnz : ~ (inject_Z (Z.of_nat u) == 0)%Q).
  { unfold Qeq. simpl. lia. }
  split.
  - intros H.
    assert (E : (inject_Z (Z.of_nat i) == 0)%Q).
    { rewrite <- (Qmult_div_r (inject_Z (Z.of_nat i)) (inject_Z (Z.of_nat u)) Hnz).
      rewrite H. apply Qmult_0_r. }
    unfold Qeq in E. simpl in E. lia.
  - intros ->. unfold Qdiv. apply Qmult_0_l.
Qed.

Lemma filter_nil_iff {A : Type} (p : A -> bool) (l : list A) :
  List.length (filter p l) = 0%nat <-> (forall x, In x l -> p x = false).
Proof.
  induction l as [|x r IH]; simpl; [tauto|].
  destruct (p x) eqn:E; simpl.
  - split; [discriminate|]. intros H. specialize (H x (or_introl eq_refl)). congruence.
  - rewrite IH. split.
    + intros H y [<-|Hy]; [assumption | now apply H].
    + intros H y Hy. apply H. now right.
Qed.

(** X4.  The similarity of two texts is 0 exactly when they share no
    token. *)
Theorem textSim_zero_iff_disjoint a b :
  (textSim a b == 0)%Q <-> (forall t, In t (toTokens a) -> ~ In t (toTokens b)).
Proof.
  unfold textSim.
  set (A := mkSet (toTokens a) []). set (B := mkSet (toTokens b) []).
  assert (HA : forall t, In t A <-> In t (toTokens a)) by (intros t; apply tokenSet_In).
  assert (HB : forall t, In t B <-> In t (toTokens b)) by (intros t; apply tokenSet_In).
  destruct (Nat.eqb_spec (List.length A) 0) as [EA|EA]; simpl.
  { split; [|reflexivity]. intros _ t Ht.
    apply HA in Ht. apply length_zero_iff_nil in EA. rewrite EA in Ht. contradiction. }
  destruct (Nat.eqb_spec (List.length B) 0) as [EB|EB]; simpl.
  { split; [|reflexivity]. intros _ t _ Ht.
    apply HB in Ht. apply length_zero_iff_nil in EB. rewrite EB in Ht. contradiction. }
  pose proof (inter_le_l A B) as H1.
  destruct (Nat.eqb_spec (List.length A + List.length B
                          - List.length (filter (has B) A)) 0) as [Hz|Hnz]; [lia|].
  rewrite ratio_zero by lia. rewrite filter_nil_iff. split.
  - intros H t Ht Hb. apply HA in Ht. specialize (H t Ht).
    apply HB, has_In in Hb. congruence.
  - intros H t Ht. destruct (has B t) eqn:E; [|reflexivity].
    exfalso. apply has_In, HB in E. apply HA in Ht. exact (H t Ht E).
Qed.

End TextSimilarityFacts.

(** ** SpanExtractor *)

Module SpanExtractorFacts.
Import JsString SpanExtractor.

Lemma rev_onto_onto (s a b : string) :
  rev_string_onto (rev_string_onto s a) b = rev_string_onto a (s ++ b)%string.
Proof.
  revert a. induction s as [|c r IH]; intros a; simpl; [reflexivity|].
  now rewrite IH.
Qed.

Lemma append_empty_r (s : string) : (s ++ "")%string = s.
Proof. induction s as [|c r IH]; simpl; [reflexivity | now rewrite IH]. Qed.

Lemma rev_string_involutive (s : string) : rev_string (rev_string s) = s.
Proof.
  unfold rev_string. rewrite rev_onto_onto. simpl. apply append_empty_r.
Qed.

Lemma append_assoc (a b c : string) : ((a ++ b) ++ c = a ++ (b ++ c))%string.
Proof. induction a as [|x r IH]; simpl; [reflexivity | now rewrite IH]. Qed.

Lemma rev_onto_append (s acc : string) :
  rev_string_onto s acc = (rev_string s ++ acc)%string.
Proof.
  unfold rev_string. revert acc.
  induction s as [|c r IH]; intros acc; simpl; [reflexivity|].
  rewrite (IH (String c "")), IH.
  rewrite append_assoc. reflexivity.
Qed.

Lemma rev_string_snoc (s : string) (c : ascii) :
  rev_string (s ++ String c "")%string = String c (rev_string s).
Proof.
  unfold rev_string.
  assert (H : forall acc, rev_string_onto (s ++ String c "")%string acc
                          = String c (rev_string_onto s acc)).
  { induction s as [|x r IH]; intros acc; simpl; [reflexivity | apply IH]. }
  apply H.
Qed.

Lemma trimStart_snoc (s : string) (c : ascii) :
  isSpace c = false ->
  trimStart (s ++ String c "")%string = (trimStart s ++ String c "")%string.
Proof.
  intros Hc. induction s as [|x r IH]; simpl.
  - now rewrite Hc.
  - destruct (isSpace x); [exact IH | reflexivity].
Qed.

(** White space at the end is cut behind the last visible character. *)
Lemma trimEnd_cons (c : ascii) (r : string) :
  isSpace c = false -> trimEnd (String c r) = String c (trimEnd r).
Proof.
  intros Hc. unfold trimEnd.
  change (rev_string (String c r)) with (rev_string_onto r (String c "")).
  rewrite rev_onto_append, (trimStart_snoc _ _ Hc).
  apply rev_string_snoc.
Qed.

Lemma trim_cons (c : ascii) (r : string) :
  isSpace c = false -> trim (String c r) = String c (trimEnd r).
Proof.
  intros Hc. unfold trim. simpl. rewrite Hc. now apply trimEnd_cons.
Qed.

Lemma isNl_isSpace (c : ascii) : isNl c = true -> isSpace c = true.
Proof.
  unfold isNl, isSpace. intros H. apply Nat.eqb_eq in H. now rewrite H.
Qed.

Lemma noNl_rev_onto (p acc : string) :
  noNl (rev_string_onto p acc) = noNl p && noNl acc.
Proof.
  revert acc. induction p as [|c r IH]; intros acc; simpl; [reflexivity|].
  rewrite IH. simpl. now destruct (isNl c), (noNl r).
Qed.

Lemma noNl_rev (s : string) : noNl (rev_string s) = noNl s.
Proof. unfold rev_string. rewrite noNl_rev_onto. simpl. apply andb_true_r. Qed.

Lemma noNl_isolated (s : string) : noNl s = true -> nlIsolated s = true.
Proof.
  induction s as [|c r IH]; simpl; [reflexivity|].
  intros H. apply andb_true_iff in H as [Hc Hr].
  apply negb_true_iff in Hc. rewrite Hc. now apply IH.
Qed.

Lemma nlIsolated_app (a : string) (c : ascii) (t : string) :
  nlIsolated a = true -> isSpace c = false ->
  nlIsolated (String c t) = true ->
  nlIsolated (a ++ String c t)%string = true.
Proof.
  intros Ha Hc Ht. induction a as [|x a' IH]; [exact Ht|].
  change (nlIsolated (String x (a' ++ String c t)%string) = true).
  simpl in Ha. apply andb_true_iff in Ha as [Hx Ha'].
  cbn [nlIsolated]. apply andb_true_iff. split; [|now apply IH].
  destruct (isNl x); [|reflexivity].
  destruct a' as [|y a'']; simpl; [now rewrite Hc | exact Hx].
Qed.

Lemma flush_isolated (pending : string) (hasNl : bool) :
  (hasNl = false -> noNl pending = true) ->
  nlIsolated (flush pending hasNl) = true.
Proof.
  intros H. unfold flush. destruct hasNl; [reflexivity|].
  apply noNl_isolated. rewrite noNl_rev. now apply H.
Qed.

(** After [\s*\n\s*] has been collapsed, no newline is followed by white
    space. *)
Lemma collapseNl_isolated (s pending : string) (hasNl : bool) :
  (hasNl = false -> noNl pending = true) ->
  nlIsolated (collapseNl pending hasNl s) = true.
Proof.
  revert pending hasNl. induction s as [|c r IH]; intros pending hasNl Hinv; simpl.
  - now apply flush_isolated.
  - destruct (isSpace c) eqn:Hc.
    + apply IH. intros H. apply orb_false_iff in H as [H1 H2].
      simpl. rewrite H2. simpl. now apply Hinv.
    + apply nlIsolated_app; [now apply flush_isolated | exact Hc |].
      cbn [nlIsolated].
      destruct (isNl c) eqn:Hn.
      { apply isNl_isSpace in Hn. congruence. }
      simpl. now apply IH.
Qed.

(** So [/\n\s*\n/] finds nothing to split at. *)
Lemma splitParagraphs_isolated (s : string) :
  nlIsolated s = true ->
  forall cur, splitParagraphs 0 cur s = [rev_string (rev_string_onto s cur)].
Proof.
  induction s as [|c r IH]; intros Hs cur; [reflexivity|].
  cbn [nlIsolated] in Hs. apply andb_true_iff in Hs as [Hc Hr].
  cbn [splitParagraphs rev_string_onto].
  destruct (isNl c).
  - assert (Hnone : toLastNl r 0 None = None).
    { destruct r as [|d r']; [reflexivity|].
      simpl. apply negb_true_iff in Hc. now rewrite Hc. }
    rewrite Hnone. now apply IH.
  - now apply IH.
Qed.

Lemma splitParagraphs_cleaned (md : string) :
  splitParagraphs 0 "" (cleanMarkdown md) = [cleanMarkdown md].
Proof.
  rewrite splitParagraphs_isolated.
  - fold (rev_string (cleanMarkdown md)). now rewrite rev_string_involutive.
  - unfold cleanMarkdown. now apply collapseNl_isolated.
Qed.

(** The whole function, once the split is known to find nothing. *)
Lemma extract_single_block (md query : string) (maxSpans : Z) :
  extractTopSpansFromMarkdown (Some md) query maxSpans =
  if blank md then []
  else let p := QueryExpander.norm (cleanMarkdown md) in
       if isBlock p then [clip p] else [].
Proof.
  unfold extractTopSpansFromMarkdown, blank.
  destruct (String.eqb md "" || (String.length (trim md) =? 0)%nat); [reflexivity|].
  unfold blocksOf. rewrite splitParagraphs_cleaned.
  cbn [map filter].
  destruct (isBlock (QueryExpander.norm (cleanMarkdown md))); cbn [map stableSort fold_right insertSorted].
  - assert (Hn : exists n, Z.to_nat (Z.max 1 maxSpans) = S n).
    { exists (Nat.pred (Z.to_nat (Z.max 1 maxSpans))). lia. }
    destruct Hn as [n ->]. cbn [firstn map fst]. now rewrite firstn_nil.
  - now rewrite firstn_nil.
Qed.

(** X5. [extractTopSpansFromMarkdown] returns at most one span, and the
    same one whatever the query and [maxSpans]: once [\s*\n\s*] has been
    collapsed to a newline, the split at [\n\s*\n] finds no blank line, so
    the whole page is one block and the scoring has nothing to choose
    from. *)
Theorem extract_at_most_one_span (markdown : option string) (query : string) (maxSpans : Z) :
  (List.length (extractTopSpansFromMarkdown markdown query maxSpans) <= 1)%nat
  /\ forall query' maxSpans',
       extractTopSpansFromMarkdown markdown query' maxSpans'
       = extractTopSpansFromMarkdown markdown query maxSpans.
Proof.
  destruct markdown as [md|]; [|split; [apply Nat.le_0_l | reflexivity]].
  split.
  - rewrite extract_single_block.
    destruct (blank md); [apply Nat.le_0_l|].
    cbv zeta. destruct (isBlock _); simpl; lia.
  - intros query' maxSpans'. now rewrite !extract_single_block.
Qed.

Lemma length_append (a b : string) :
  String.length (a ++ b) = (String.length a + String.length b)%nat.
Proof. induction a as [|c r IH]; simpl; [reflexivity | now rewrite IH]. Qed.

Lemma length_substring_le (n : nat) (s : string) :
  (String.length (String.substring 0 n s) <= n)%nat.
Proof.
  revert s. induction n as [|n IH]; intros [|c r]; simpl; try lia.
  specialize (IH r). lia.
Qed.

Lemma noNl_append (a b : string) : noNl (a ++ b) = noNl a && noNl b.
Proof.
  induction a as [|c r IH]; simpl; [reflexivity|].
  rewrite IH. apply andb_assoc.
Qed.

Lemma noNl_substring (s : string) :
  noNl s = true -> forall n m, noNl (String.substring n m s) = true.
Proof.
  induction s as [|c r IH]; intros Hs n m.
  - now destruct n, m.
  - simpl in Hs. apply andb_true_iff in Hs as [Hc Hr].
    destruct n as [|n]; simpl.
    + destruct m as [|m]; [reflexivity|].
      simpl. rewrite Hc. simpl. now apply IH.
    + now apply IH.
Qed.

Lemma noNl_trimStart (s : string) : noNl s = true -> noNl (trimStart s) = true.
Proof.
  induction s as [|c r IH]; intros Hs; [reflexivity|].
  simpl. destruct (isSpace c); [|exact Hs].
  simpl in Hs. apply andb_true_iff in Hs as [_ Hr]. now apply IH.
Qed.

Lemma noNl_trim (s : string) : noNl s = true -> noNl (trim s) = true.
Proof.
  intros Hs. unfold trim, trimEnd.
  rewrite noNl_rev. apply noNl_trimStart. rewrite noNl_rev.
  now apply noNl_trimStart.
Qed.

Lemma noNl_replaceRuns (s : string) (inRun : bool) :
  noNl (replaceRuns isSpace inRun s) = true.
Proof.
  revert inRun. induction s as [|c r IH]; intros inRun; simpl; [reflexivity|].
  destruct (isSpace c) eqn:Hc.
  - destruct inRun; [apply IH|]. simpl. apply IH.
  - simpl. rewrite IH, andb_true_r.
    destruct (isNl c) eqn:Hn; [|reflexivity].
    apply isNl_isSpace in Hn. congruence.
Qed.

Lemma noNl_norm (s : string) : noNl (QueryExpander.norm s) = true.
Proof. unfold QueryExpander.norm. apply noNl_trim, noNl_replaceRuns. Qed.

Lemma clip_shape (p : string) :
  (0 < String.length p)%nat -> noNl p = true ->
  (0 < String.length (clip p) <= 550)%nat /\ noNl (clip p) = true.
Proof.
  intros Hlen Hnl. unfold clip.
  destruct (550 <? String.length p)%nat eqn:Hbig.
  - rewrite length_append, noNl_append, (noNl_substring _ Hnl).
    pose proof (length_substring_le 547 p). simpl. split; [lia | reflexivity].
  - apply Nat.ltb_ge in Hbig. split; [lia | exact Hnl].
Qed.

(** *** ASCII pages *)

Lemma isAscii_rev_onto (p acc : string) :
  isAscii (rev_string_onto p acc) = isAscii p && isAscii acc.
Proof.
  revert acc. induction p as [|c r IH]; intros acc; simpl; [reflexivity|].
  rewrite IH. simpl. now destruct (nat_of_ascii c <? 128)%nat, (isAscii r).
Qed.

Lemma isAscii_rev (s : string) : isAscii (rev_string s) = isAscii s.
Proof. unfold rev_string. rewrite isAscii_rev_onto. simpl. apply andb_true_r. Qed.

Lemma isAscii_append (a b : string) : isAscii (a ++ b) = isAscii a && isAscii b.
Proof.
  induction a as [|c r IH]; simpl; [reflexivity|].
  rewrite IH. apply andb_assoc.
Qed.

Lemma isAscii_substring (s : string) :
  isAscii s = true -> forall n m, isAscii (String.substring n m s) = true.
Proof.
  induction s as [|c r IH]; intros Hs n m.
  - now destruct n, m.
  - simpl in Hs. apply andb_true_iff in Hs as [Hc Hr].
    destruct n as [|n]; simpl.
    + destruct m as [|m]; [reflexivity|].
      simpl. rewrite Hc. simpl. now apply IH.
    + now apply IH.
Qed.

Lemma isAscii_trimStart (s : string) : isAscii s = true -> isAscii (trimStart s) = true.
Proof.
  induction s as [|c r IH]; intros Hs; [reflexivity|].
  simpl. destruct (isSpace c); [|exact Hs].
  simpl in Hs. apply andb_true_iff in Hs as [_ Hr]. now apply IH.
Qed.

Lemma isAscii_trim (s : string) : isAscii s = true -> isAscii (trim s) = true.
Proof.
  intros Hs. unfold trim, trimEnd.
  rewrite isAscii_rev. apply isAscii_trimStart. rewrite isAscii_rev.
  now apply isAscii_trimStart.
Qed.

Lemma isAscii_replaceRuns (cls : ascii -> bool) (s : string) : forall inRun,
  isAscii s = true -> isAscii (replaceRuns cls inRun s) = true.
Proof.
  induction s as [|c r IH]; intros inRun Hs; simpl; [reflexivity|].
  simpl in Hs. apply andb_true_iff in Hs as [Hc Hr].
  destruct (cls c).
  - destruct inRun; [now apply IH|]. simpl. now apply IH.
  - simpl. rewrite Hc. simpl. now apply IH.
Qed.

Lemma isAscii_removeMatches (matchAt : string -> option nat) (s : string) : forall skip,
  isAscii s = true -> isAscii (removeMatches matchAt skip s) = true.
Proof.
  induction s as [|c r IH]; intros skip Hs; [reflexivity|].
  pose proof Hs as Hs'. simpl in Hs'. apply andb_true_iff in Hs' as [Hc Hr].
  cbn [removeMatches]. destruct skip as [|k]; [|now apply IH].
  destruct (matchAt (String c r)) as [[|n]|].
  - simpl. rewrite Hc. simpl. now apply IH.
  - now apply IH.
  - simpl. rewrite Hc. simpl. now apply IH.
Qed.

Lemma isAscii_flush (pending : string) (hasNl : bool) :
  isAscii pending = true -> isAscii (flush pending hasNl) = true.
Proof.
  intros H. unfold flush. destruct hasNl; [reflexivity|]. now rewrite isAscii_rev.
Qed.

Lemma isAscii_collapseNl (s : string) : forall pending hasNl,
  isAscii pending = true -> isAscii s = true ->
  isAscii (collapseNl pending hasNl s) = true.
Proof.
  induction s as [|c r IH]; intros pending hasNl Hp Hs; cbn [collapseNl].
  - now apply isAscii_flush.
  - simpl in Hs. apply andb_true_iff in Hs as [Hc Hr].
    destruct (isSpace c).
    + apply IH; [|exact Hr]. simpl. now rewrite Hc.
    + rewrite isAscii_append, (isAscii_flush _ _ Hp). simpl. rewrite Hc. simpl.
      now apply IH.
Qed.

Lemma isAscii_cleanMarkdown (md : string) :
  isAscii md = true -> isAscii (cleanMarkdown md) = true.
Proof.
  intros H. unfold cleanMarkdown.
  apply isAscii_collapseNl; [reflexivity|].
  apply isAscii_replaceRuns. now do 2 apply isAscii_removeMatches.
Qed.

Lemma isAscii_clip (p : string) : isAscii p = true -> isAscii (clip p) = true.
Proof.
  intros H. unfold clip. destruct (550 <? String.length p)%nat; [|exact H].
  now rewrite isAscii_append, (isAscii_substring _ H).
Qed.

(** X6. On a page of ASCII characters every span that
    [extractTopSpansFromMarkdown] returns is a non-empty single line of
    at most 550 characters, all of them ASCII.  (A character outside
    ASCII is more than one byte of the string and need not be one
    UTF-16 code unit; the property says nothing about such pages.) *)
Theorem extract_span_shape (md query : string) (maxSpans : Z) :
  isAscii md = true ->
  Forall (fun s => isAscii s = true
                   /\ (0 < String.length s <= 550)%nat
                   /\ noNl s = true)
         (extractTopSpansFromMarkdown (Some md) query maxSpans).
Proof.
  intros Hascii.
  rewrite extract_single_block.
  destruct (blank md); [constructor|].
  cbv zeta. destruct (isBlock _) eqn:Hb; [|constructor].
  constructor; [|constructor].
  unfold isBlock in Hb. apply andb_true_iff in Hb as [Hlen _].
  apply Nat.ltb_lt in Hlen.
  split.
  - apply isAscii_clip. unfold QueryExpander.norm.
    apply isAscii_trim, isAscii_replaceRuns. now apply isAscii_cleanMarkdown.
  - apply clip_shape; [exact Hlen | apply noNl_norm].
Qed.

Lemma extract_span_shape_witness :
  Forall (fun s => isAscii s = true
                   /\ (0 < String.length s <= 550)%nat
                   /\ noNl s = true)
         (extractTopSpansFromMarkdown (Some samplePage) "electric cars" 3).
Proof.
  apply (extract_span_shape samplePage "electric cars" 3). reflexivity.
Defined.

(** A visible character other than [[] and [!] goes through the cleaning
    untouched. *)
Lemma cleanMarkdown_cons (c : ascii) (r : string) :
  isSpace c = false -> c <> "["%char -> c <> "!"%char ->
  cleanMarkdown (String c r) = String c (cleanMarkdown r).
Proof.
  intros Hs Hb He. unfold cleanMarkdown.
  assert (H1 : linkedImageAt (String c r) = None).
  { unfold linkedImageAt. cbn [String.prefix].
    destruct (ascii_dec "[" c) as [E|_]; [now subst c | reflexivity]. }
  cbn [removeMatches]. rewrite H1.
  assert (H2 : forall t, imageAt (String c t) = None).
  { intros t. unfold imageAt. cbn [String.prefix].
    destruct (ascii_dec "!" c) as [E|_]; [now subst c | reflexivity]. }
  cbn [removeMatches]. rewrite H2.
  assert (H3 : isTabOrBlank c = false).
  { unfold isSpace in Hs. unfold isTabOrBlank. cbv zeta in Hs.
    destruct (nat_of_ascii c =? 32)%nat; [discriminate|].
    destruct (nat_of_ascii c =? 9)%nat eqn:E; [|reflexivity].
    apply Nat.eqb_eq in E. rewrite E in Hs. discriminate. }
  cbn [replaceRuns]. rewrite H3.
  cbn [collapseNl]. rewrite Hs. reflexivity.
Qed.

Lemma norm_cons (c : ascii) (r : string) :
  isSpace c = false ->
  QueryExpander.norm (String c r) = String c (trimEnd (replaceRuns isSpace false r)).
Proof.
  intros Hs. unfold QueryExpander.norm. cbn [replaceRuns]. rewrite Hs.
  now apply trim_cons.
Qed.

Lemma not_blank_cons (c : ascii) (r : string) :
  isSpace c = false -> blank (String c r) = false.
Proof.
  intros Hs. unfold blank. now rewrite (trim_cons _ _ Hs).
Qed.

Lemma prefix_head (c : ascii) (r : string) : String.prefix (String c "") (String c r) = true.
Proof.
  cbn [String.prefix]. destruct (ascii_dec c c); [now destruct r | congruence].
Qed.

Lemma marker_not_block (r : string) :
  isBlock (String "-" r) = false /\ isBlock (String "*" r) = false.
Proof.
  unfold isBlock, looksLikeListItem.
  split; cbn [dropWhile]; change (isSpace _) with false; cbv iota.
  - now rewrite prefix_head, andb_false_r.
  - now rewrite (prefix_head "*"), orb_true_r, andb_false_r.
Qed.

Lemma numbered_not_block (d : ascii) (r : string) :
  isDigit d = true -> isBlock (String d (String "." r)) = false.
Proof.
  intros Hd.
  assert (Hs : isSpace d = false).
  { unfold isDigit in Hd. unfold isSpace. cbv zeta in *.
    apply andb_true_iff in Hd as [H1 H2].
    apply Nat.leb_le in H1. apply Nat.leb_le in H2.
    destruct (Nat.eqb_spec (nat_of_ascii d) 32); [lia|].
    destruct (Nat.leb_spec (nat_of_ascii d) 13); [lia|].
    now rewrite andb_false_r. }
  unfold isBlock, looksLikeListItem.
  cbn [dropWhile]. rewrite Hs. cbn [dropWhile]. rewrite Hd.
  cbn [dropWhile]. change (isDigit ".") with false. cbv iota zeta.
  assert (Hne : String.eqb (String "." r) (String d (String "." r)) = false).
  { apply String.eqb_neq. intros [= E _]. subst d. discriminate. }
  rewrite Hne, prefix_head. cbn [negb andb].
  now rewrite orb_true_r, andb_false_r.
Qed.

Lemma digit_visible (d : ascii) :
  isDigit d = true -> isSpace d = false /\ d <> "["%char /\ d <> "!"%char.
Proof.
  intros Hd. repeat split.
  - unfold isDigit in Hd. unfold isSpace. cbv zeta in *.
    apply andb_true_iff in Hd as [H1 H2].
    apply Nat.leb_le in H1. apply Nat.leb_le in H2.
    destruct (Nat.eqb_spec (nat_of_ascii d) 32); [lia|].
    destruct (Nat.leb_spec (nat_of_ascii d) 13); [lia|].
    now rewrite andb_false_r.
  - intros ->. discriminate.
  - intros ->. discriminate.
Qed.

(** X7. A page whose markdown begins with a list marker ([-], [*], or a
    digit and a full stop) yields no span at all, whatever text follows:
    the page is one block, and a block that looks like a list item is
    dropped. *)
Theorem list_page_yields_no_span (rest query : string) (maxSpans : Z) :
  extractTopSpansFromMarkdown (Some (String "-" rest)) query maxSpans = []
  /\ extractTopSpansFromMarkdown (Some (String "*" rest)) query maxSpans = []
  /\ forall d, isDigit d = true ->
       extractTopSpansFromMarkdown (Some (String d (String "." rest))) query maxSpans = [].
Proof.
  repeat split.
  - rewrite extract_single_block, not_blank_cons by reflexivity.
    rewrite cleanMarkdown_cons by (reflexivity || discriminate).
    cbv zeta. rewrite norm_cons by reflexivity.
    now rewrite (proj1 (marker_not_block _)).
  - rewrite extract_single_block, not_blank_cons by reflexivity.
    rewrite cleanMarkdown_cons by (reflexivity || discriminate).
    cbv zeta. rewrite norm_cons by reflexivity.
    now rewrite (proj2 (marker_not_block _)).
  - intros d Hd.
    destruct (digit_visible d Hd) as (Hs & Hb & He).
    rewrite extract_single_block, (not_blank_cons _ _ Hs).
    rewrite (cleanMarkdown_cons _ _ Hs Hb He).
    rewrite cleanMarkdown_cons by (reflexivity || discriminate).
    cbv zeta. rewrite (norm_cons _ _ Hs).
    cbn [replaceRuns]. change (isSpace ".") with false. cbv iota.
    rewrite trimEnd_cons by reflexivity.
    now rewrite numbered_not_block.
Qed.

End SpanExtractorFacts.

(** ** The controller's evidence *)

Module WiringFacts.
Import Controller AnswerEvaluator Wiring.

(** X8. With the span extractor of the file, every source the controller
    hands to the evaluator carries exactly one span, and only web
    results with non-empty markdown become sources. *)
Theorem evidence_one_span_per_source (C : Collaborators) (query : string)
        (r : SearchV2Response) :
  Forall (fun g => List.length (spans g) = 1%nat
                   /\ exists it md, In it (orEmpty (web r))
                                    /\ markdown it = Some md /\ md <> ""
                                    /\ sourceUrl g = urlText (url it)
                                    /\ spans g = extractSpans md query 3)
         (spansOf (withExtractor C) query r).
Proof.
  unfold spansOf. apply Forall_forall. intros g Hg.
  apply in_flat_map in Hg as (it & Hit & Hg).
  destruct (markdown it) as [md|] eqn:Hmd; [|contradiction].
  destruct (0 <? String.length md)%nat eqn:Hlen; [|contradiction].
  cbv zeta in Hg.
  change (extractTopSpansFromMarkdown (withExtractor C)) with extractSpans in Hg.
  destruct (0 <? List.length (extractSpans md query 3))%nat eqn:Hsp; [|contradiction].
  destruct Hg as [<-|[]]. cbn [spans sourceUrl].
  split.
  - apply Nat.ltb_lt in Hsp.
    unfold extractSpans in *. rewrite SpanExtractorFacts.extract_single_block in *.
    destruct (SpanExtractor.blank md); [simpl in Hsp; lia|].
    cbv zeta in *. destruct (SpanExtractor.isBlock _); [reflexivity | simpl in Hsp; lia].
  - exists it, md. repeat split; try assumption.
    intros ->. discriminate.
Qed.

End WiringFacts.

(** ** RankFusion: representatives and order *)

Module FusionOrderFacts.
Import JsString TextSimilarity RankFusion RankFusionFacts FusionOrder.

Lemma noWorse_spec o o' :
  noWorse o o' = true <->
  (occRank o < occRank o')%Z \/ (occRank o = occRank o' /\ (occVariant o <= occVariant o')%nat).
Proof.
  unfold noWorse. rewrite orb_true_iff, andb_true_iff, Z.ltb_lt, Z.eqb_eq, Nat.leb_le.
  reflexivity.
Qed.

Lemma wf_key_nonempty m u a : wf m -> get m u = Some a -> u <> "".
Proof.
  intros (_ & _ & Hne) Hget. apply get_In in Hget.
  rewrite Forall_forall in Hne. apply Hne.
  unfold keys. change u with (fst (u, a)). now apply in_map.
Qed.

Lemma truthy_nonempty u : u <> "" -> truthy (Some u) = true.
Proof. intros H. simpl. apply negb_true_iff. now apply String.eqb_neq. Qed.

Lemma step_covered k m o os : covered os m -> covered (os ++ [o]) (step k m o).
Proof.
  intros Hc o' u Hin Hu Hne. apply step_keys_in.
  apply in_app_or in Hin as [Hin | [<- | []]].
  - left. now apply (Hc o').
  - right. now split.
Qed.

Lemma step_bestOf k m o os :
  wf m -> covered os m -> bestOf os m -> bestOf (os ++ [o]) (step k m o).
Proof.
  intros Hwf Hc Hb u a Hget.
  destruct (truthy_cases (url (snd o))) as [Hf | (u0 & Hu0 & Hne0)].
  - rewrite step_falsy in Hget by exact Hf.
    destruct (Hb u a Hget) as (o1 & Hin & H1 & H2 & H3 & H4 & Hmin).
    exists o1. repeat split; try assumption; [apply in_or_app; now left|].
    intros o' Hin' Hu'. apply in_app_or in Hin' as [Hin' | [<- | []]]; [now apply Hmin|].
    rewrite Hu' in Hf. rewrite truthy_nonempty in Hf; [discriminate|].
    now apply (wf_key_nonempty m u a).
  - rewrite (step_truthy k m o u0 Hu0 Hne0) in Hget.
    destruct (string_dec u0 u) as [->|Hneq].
    + rewrite get_set_eq in Hget. injection Hget as <-.
      unfold visited. rewrite Hu0.
      destruct (get m u) as [prev|] eqn:Hprev.
      * destruct (Hb u prev Hprev) as (o1 & Hin & H1 & H2 & H3 & H4 & Hmin).
        fold (occRank o) (occVariant o).
        destruct ((occRank o <? bestRank prev)%Z
                  || ((occRank o =? bestRank prev)%Z && (occVariant o <? bestVariantIdx prev)%nat))
                 eqn:Hbetter; cbn [bestItem bestRank bestVariantIdx].
        -- exists o. repeat split; try reflexivity; try assumption;
             [apply in_or_app; right; now left|].
           intros o' Hin' Hu'. apply noWorse_spec.
           apply in_app_or in Hin' as [Hin' | [<- | []]]; [|right; split; [reflexivity | lia]].
           specialize (Hmin o' Hin' Hu'). apply noWorse_spec in Hmin.
           apply orb_true_iff in Hbetter.
           rewrite andb_true_iff, Z.ltb_lt, Z.eqb_eq, Nat.ltb_lt in Hbetter. lia.
        -- exists o1. repeat split; try assumption; [apply in_or_app; now left|].
           intros o' Hin' Hu'.
           apply in_app_or in Hin' as [Hin' | [<- | []]]; [now apply Hmin|].
           apply noWorse_spec.
           apply orb_false_iff in Hbetter as [Hlt Hand].
           apply Z.ltb_ge in Hlt. apply andb_false_iff in Hand.
           rewrite Z.eqb_neq, Nat.ltb_ge in Hand. lia.
      * fold (occRank o) (occVariant o). cbn [bestItem bestRank bestVariantIdx].
        exists o. repeat split; try reflexivity; try assumption;
          [apply in_or_app; right; now left|].
        intros o' Hin' Hu'. apply noWorse_spec.
        apply in_app_or in Hin' as [Hin' | [<- | []]]; [|right; split; [reflexivity | lia]].
        exfalso. apply get_None_keys in Hprev. apply Hprev.
        now apply (Hc o').
    + rewrite get_set_neq in Hget by exact Hneq.
      destruct (Hb u a Hget) as (o1 & Hin & H1 & H2 & H3 & H4 & Hmin).
      exists o1. repeat split; try assumption; [apply in_or_app; now left|].
      intros o' Hin' Hu'. apply in_app_or in Hin' as [Hin' | [<- | []]]; [now apply Hmin|].
      congruence.
Qed.

Lemma fold_bestOf k os2 : forall os1 m,
  wf m -> covered os1 m -> bestOf os1 m ->
  bestOf (os1 ++ os2) (fold_left (step k) os2 m).
Proof.
  induction os2 as [|o os2 IH]; intros os1 m Hwf Hc Hb; simpl.
  - now rewrite app_nil_r.
  - replace (os1 ++ o :: os2) with ((os1 ++ [o]) ++ os2) by now rewrite <- app_assoc.
    apply IH; [now apply step_wf | now apply step_covered | now apply step_bestOf].
Qed.

Lemma accumulate_bestOf k lists : bestOf (occurrences lists) (accumulate k lists).
Proof.
  rewrite accumulate_fold.
  apply (fold_bestOf k (occurrences lists) [] []).
  - repeat split; constructor.
  - intros o u [].
  - intros u a Hget. discriminate.
Qed.

(** An entry of the sorted list is the scored accumulator of its URL. *)
Lemma ranked_entry k beta lists expandedQs e :
  In e (ranked k beta lists expandedQs) ->
  exists u a, get (accumulate k lists) u = Some a
              /\ e = addSim beta expandedQs a
              /\ url (bestItem e) = Some u.
Proof.
  intros Hin. unfold ranked in Hin.
  apply (Permutation_in _ (stableSort_perm _ _)) in Hin.
  unfold scored in Hin. apply in_map_iff in Hin as ([u a] & <- & Hin).
  destruct (accumulate_wf k lists) as (Hnd & Hurl & _).
  exists u, a. repeat split.
  - now apply In_get.
  - rewrite Forall_forall in Hurl. exact (Hurl _ Hin).
Qed.

Lemma mapFrom_In_inv {A B : Type} (f : A -> nat -> B) (l : list A) : forall i y,
  In y (mapFrom f i l) -> exists x j, In x l /\ y = f x j.
Proof.
  induction l as [|x r IH]; intros i y Hin; [contradiction|].
  destruct Hin as [<- | Hin].
  - exists x, i. split; [now left | reflexivity].
  - destruct (IH _ _ Hin) as (x' & j & Hx & ->). exists x', j. split; [now right | reflexivity].
Qed.

(** X9. Every item [rrfMerge] returns is a copy, with only its position
    overwritten, of one input occurrence of its URL, and that occurrence
    is the best one: no other occurrence of the same URL has a smaller
    rank, or the same rank in an earlier variant. *)
Theorem rrfMerge_items_are_best_occurrences lists expandedQs k beta :
  Forall (fun it =>
            exists o p,
              In o (occurrences lists)
              /\ it = withPosition (snd o) p
              /\ truthy (url (snd o)) = true
              /\ forall o', In o' (occurrences lists) ->
                            url (snd o') = url (snd o) -> noWorse o o' = true)
         (rrfMerge lists expandedQs k beta).
Proof.
  apply Forall_forall. intros it Hin. unfold rrfMerge in Hin.
  apply mapFrom_In_inv in Hin as (e & j & He & ->).
  apply ranked_entry in He as (u & a & Hget & -> & Hurl).
  destruct (accumulate_bestOf k lists u a Hget) as (o & Hin & H1 & _ & _ & H4 & Hmin).
  exists o, (Z.of_nat j + 1)%Z. repeat split.
  - exact Hin.
  - cbn [bestItem addSim]. now rewrite H1.
  - rewrite H4. apply truthy_nonempty.
    now apply (wf_key_nonempty _ u a (accumulate_wf k lists)).
  - intros o' Hin' Hu'. apply Hmin; [exact Hin' | congruence].
Qed.

Lemma mapFrom_sorted {A B : Type} (R : A -> A -> Prop) (R' : B -> B -> Prop)
      (f : A -> nat -> B) (l : list A) :
  StronglySorted R l ->
  (forall x y i j, In x l -> In y l -> R x y -> R' (f x i) (f y j)) ->
  forall i, StronglySorted R' (mapFrom f i l).
Proof.
  intros Hs. induction Hs as [|x r Hr IH Hx]; intros HR i; simpl; constructor.
  - apply IH. intros a b i' j' Ha Hb. apply HR; now right.
  - apply Forall_forall. intros y Hy.
    apply mapFrom_In_inv in Hy as (b & j & Hb & ->).
    rewrite Forall_forall in Hx.
    apply HR; [now left | now right | now apply Hx].
Qed.

(** *** Ties *)

Lemma insertSorted_filter {A : Type} (after : A -> A -> bool) (keep : A -> bool) x l :
  (forall a b, keep a = true -> keep b = true -> after a b = false) ->
  filter keep (insertSorted after x l) = filter keep (x :: l).
Proof.
  intros Hk. induction l as [|y r IH]; [reflexivity|].
  cbn [insertSorted]. destruct (after x y) eqn:Hxy; [|reflexivity].
  cbn [filter] in *. destruct (keep x) eqn:Kx.
  - destruct (keep y) eqn:Ky; [rewrite (Hk x y Kx Ky) in Hxy; discriminate|].
    exact IH.
  - now rewrite IH.
Qed.

(** The sort leaves elements that compare equal in their input order. *)
Lemma stableSort_filter {A : Type} (after : A -> A -> bool) (keep : A -> bool) l :
  (forall a b, keep a = true -> keep b = true -> after a b = false) ->
  filter keep (stableSort after l) = filter keep l.
Proof.
  intros Hk. induction l as [|x r IH]; [reflexivity|].
  cbn [stableSort fold_right]. fold (stableSort after r).
  rewrite (insertSorted_filter after keep x _ Hk). cbn [filter]. now rewrite IH.
Qed.

Lemma mkSet_seen_ext (l : list string) : forall s1 s2,
  (forall x, In x s1 <-> In x s2) -> mkSet l s1 = mkSet l s2.
Proof.
  induction l as [|t r IH]; intros s1 s2 H; simpl; [reflexivity|].
  assert (E : existsb (String.eqb t) s1 = existsb (String.eqb t) s2).
  { apply eq_true_iff_eq. rewrite !existsb_exists. split.
    - intros (y & Hy & Ey). exists y. split; [now apply H | exact Ey].
    - intros (y & Hy & Ey). exists y. split; [now apply H | exact Ey]. }
  rewrite E. destruct (existsb (String.eqb t) s2); [now apply IH|].
  f_equal. apply IH. intros x. simpl. now rewrite H.
Qed.

Lemma existsb_eqb_In (t : string) (l : list string) :
  existsb (String.eqb t) l = true <-> In t l.
Proof.
  rewrite existsb_exists. split.
  - intros (y & Hy & E). apply String.eqb_eq in E. now subst.
  - intros H. exists t. split; [exact H | apply String.eqb_refl].
Qed.

Lemma urlsIn_cons_falsy o os : truthy (url (snd o)) = false -> urlsIn (o :: os) = urlsIn os.
Proof.
  unfold urlsIn. cbn [map flat_map]. intros H.
  destruct (url (snd o)) as [u|]; [|reflexivity].
  simpl in H. apply negb_false_iff in H. cbn [app filter]. now rewrite H.
Qed.

Lemma urlsIn_cons_truthy o os u :
  url (snd o) = Some u -> u <> "" -> urlsIn (o :: os) = u :: urlsIn os.
Proof.
  unfold urlsIn. cbn [map flat_map]. intros -> Hne.
  apply String.eqb_neq in Hne. cbn [app filter]. now rewrite Hne.
Qed.

(** The keys of the accumulator are the URLs in the order they were
    first met. *)
Lemma fold_keys_order k os : forall m,
  keys (fold_left (step k) os m) = keys m ++ mkSet (urlsIn os) (keys m).
Proof.
  induction os as [|o os IH]; intros m; cbn [fold_left].
  - cbn. now rewrite app_nil_r.
  - rewrite IH.
    destruct (truthy_cases (url (snd o))) as [Hf | (u & Hu & Hne)].
    + now rewrite (step_falsy k m o Hf), (urlsIn_cons_falsy o os Hf).
    + rewrite (step_truthy k m o u Hu Hne), (urlsIn_cons_truthy o os u Hu Hne).
      cbn [mkSet]. destruct (existsb (String.eqb u) (keys m)) eqn:E.
      * apply existsb_eqb_In in E. now rewrite (keys_set_old m u _ E).
      * assert (Hnin : ~ In u (keys m)).
        { intros H. apply existsb_eqb_In in H. congruence. }
        rewrite (keys_set_new m u _ Hnin), <- app_assoc. cbn [app].
        do 2 f_equal. apply mkSet_seen_ext. intros x.
        rewrite in_app_iff. simpl. tauto.
Qed.

Lemma accumulate_keys_order k lists : keys (accumulate k lists) = firstSeen lists.
Proof.
  rewrite accumulate_fold, fold_keys_order. reflexivity.
Qed.

Lemma filter_map_ext_in {X Y : Type} (g : X -> Y) (p : Y -> bool) (q : X -> bool) (l : list X) :
  (forall x, In x l -> p (g x) = q x) ->
  filter p (map g l) = map g (filter q l).
Proof.
  induction l as [|x r IH]; intros H; simpl; [reflexivity|].
  rewrite (H x) by now left.
  rewrite IH by (intros y Hy; apply H; now right).
  now destruct (q x).
Qed.

End FusionOrderFacts.

(** ** The final re-ranking *)

Module RerankerFacts.
Import JsString TextSimilarity RankFusion Controller Reranker.

Lemma mapFrom_map {A B C : Type} (g : A -> B) (f : B -> nat -> C) (l : list A) :
  forall i, mapFrom f i (map g l) = mapFrom (fun x j => f (g x) j) i l.
Proof. induction l as [|x r IH]; intros i; simpl; [reflexivity | now rewrite IH]. Qed.

Lemma mapFrom_ext_in {A B : Type} (f g : A -> nat -> B) (l : list A) :
  (forall x j, In x l -> f x j = g x j) ->
  forall i, mapFrom f i l = mapFrom g i l.
Proof.
  induction l as [|x r IH]; intros H i; simpl; [reflexivity|].
  rewrite (H x i) by now left.
  rewrite IH; [reflexivity|]. intros y j Hy. apply H. now right.
Qed.

Lemma sorted_map_distinct {A B : Type} (R : A -> A -> Prop) (R' : B -> B -> Prop)
      (g : A -> B) (l : list A) :
  StronglySorted R l -> NoDup (map g l) ->
  (forall x y, In x l -> In y l -> R x y -> g x <> g y -> R' (g x) (g y)) ->
  StronglySorted R' (map g l).
Proof.
  intros Hs. induction Hs as [|x r Hr IH Hx]; intros Hnd HR; simpl; constructor.
  - apply IH; [now inversion Hnd|]. intros a b Ha Hb. apply HR; now right.
  - apply Forall_forall. intros y Hy. apply in_map_iff in Hy as (b & <- & Hb).
    rewrite Forall_forall in Hx.
    apply HR; [now left | now right | now apply Hx |].
    inversion Hnd as [|? ? Hnin _]; subst. intros E. apply Hnin. rewrite E.
    now apply in_map.
Qed.

End RerankerFacts.

(** ** The limit *)

Module LimitFacts.
Import JsString RankFusion ScrapeDispatcher Controller ControllerFacts.

Lemma truncate_firstn (n : nat) (l : list Item) : truncate n l = firstn n l.
Proof.
  unfold truncate. destruct (n <? List.length l)%nat eqn:H; [reflexivity|].
  apply Nat.ltb_ge in H. now rewrite firstn_all2.
Qed.

Lemma limited_firstn (n : nat) (o : option (list Item)) :
  orEmpty (whenNonEmpty (truncate n) o) = firstn n (orEmpty o).
Proof.
  destruct o as [l|]; simpl; [|now rewrite firstn_nil].
  destruct l as [|x r]; simpl; [now rewrite firstn_nil|].
  apply truncate_firstn.
Qed.

Lemma limited_length (n : nat) (o : option (list Item)) :
  (lengthOf (whenNonEmpty (truncate n) o) <= n)%nat.
Proof.
  unfold lengthOf. rewrite limited_firstn. apply firstn_le_length.
Qed.

Lemma whenNonEmpty_length (f : list Item -> list Item) (o : option (list Item)) :
  (forall l, List.length (f l) = List.length l) ->
  lengthOf (whenNonEmpty f o) = lengthOf o.
Proof.
  intros Hf. destruct o as [l|]; [|reflexivity]. unfold lengthOf. simpl.
  destruct (0 <? List.length l)%nat; simpl; [apply Hf | reflexivity].
Qed.

Lemma rerankWeb_length qs (l : list Item) : List.length (rerankWeb qs l) = List.length l.
Proof.
  unfold rerankWeb. rewrite mapFrom_length.
  rewrite (Permutation_length (stableSort_perm _ _)). apply mapFrom_length.
Qed.

Lemma guarded_flat_map_length {X Y : Type} (skip : X -> bool) (g : X -> Y) (l : list X) :
  (List.length (flat_map (fun x => if skip x then [] else [g x]) l) <= List.length l)%nat.
Proof.
  induction l as [|x r IH]; simpl; [lia|].
  destruct (skip x); simpl; lia.
Qed.

Lemma filter_length_le {X : Type} (keep : X -> bool) (l : list X) :
  (List.length (filter keep l) <= List.length l)%nat.
Proof.
  induction l as [|x r IH]; simpl; [lia|]. destruct (keep x); simpl; lia.
Qed.

Lemma itemsToScrape_length C r :
  (List.length (itemsToScrape C r) <= totalResultsCount r)%nat.
Proof.
  unfold itemsToScrape, totalResultsCount, lengthOf, webItems, newsItems, imageItems.
  rewrite !length_app.
  pose proof (guarded_flat_map_length (fun it => isUrlBlocked C (url it))
                (fun it => mkScrapeItem it TWeb
                             (mkScrapeJobInput (url it) (title it) (description it)))
                (orEmpty (web r))) as Hw.
  pose proof (guarded_flat_map_length (fun it => isUrlBlocked C (url it))
                (fun it => mkScrapeItem it TNews
                             (mkScrapeJobInput (url it) (orEmptyString (title it))
                                               (orEmptyString (snippet it))))
                (filter (fun it => truthy (url it)) (orEmpty (news r)))) as Hn.
  pose proof (guarded_flat_map_length (fun it => isUrlBlocked C (url it))
                (fun it => mkScrapeItem it TImage
                             (mkScrapeJobInput (url it) (orEmptyString (title it)) (Some "")))
                (filter (fun it => truthy (url it)) (orEmpty (images r)))) as Hi.
  pose proof (filter_length_le (fun it => truthy (url it)) (orEmpty (news r))).
  pose proof (filter_length_le (fun it => truthy (url it)) (orEmpty (images r))).
  lia.
Qed.

Lemma applyLimit_total (n : nat) r : (totalResultsCount (applyLimit n r) <= 3 * n)%nat.
Proof.
  unfold totalResultsCount, applyLimit. cbn [web images news].
  pose proof (limited_length n (web r)). pose proof (limited_length n (images r)).
  pose proof (limited_length n (news r)). lia.
Qed.

Lemma emitted_lengths qs m r :
  lengthOf (web (rerank qs (mergeScraped m r))) = lengthOf (web r)
  /\ lengthOf (news (rerank qs (mergeScraped m r))) = lengthOf (news r)
  /\ lengthOf (images (rerank qs (mergeScraped m r))) = lengthOf (images r).
Proof.
  unfold rerank, mergeScraped. cbn [web images news].
  repeat split.
  - rewrite whenNonEmpty_length by apply rerankWeb_length.
    apply whenNonEmpty_length. intros l. apply length_map.
  - apply whenNonEmpty_length. intros l. apply length_map.
  - apply whenNonEmpty_length. intros l. apply length_map.
Qed.

(** X12. For every request whose searches succeed, the emitted response
    holds at most [limit] results in each of its three lists, and every
    pass keeps the first [limit] results of each fused list and hands at
    most [3 * limit] items to the dispatcher. *)
Theorem limit_bounds_lists_and_jobs C env req :
  (forall i q, exists r, search (env i) q = Ok r) ->
  forceZDR req = false ->
  exists st passes t data,
    runLoop C env req = Ok (Finished st passes, t)
    /\ searchController C env req = Success data None (credits_billed st)
    /\ (lengthOf (web data) <= limit req)%nat
    /\ (lengthOf (news data) <= limit req)%nat
    /\ (lengthOf (images data) <= limit req)%nat
    /\ forall m rec, nth_error passes m = Some rec ->
         (exists qs searches,
             all (search (env m)) qs = Ok searches
             /\ orEmpty (web (limited rec))
                = firstn (limit req) (orEmpty (web (label C (fuse searches qs))))
             /\ orEmpty (news (limited rec))
                = firstn (limit req) (orEmpty (news (label C (fuse searches qs))))
             /\ orEmpty (images (limited rec))
                = firstn (limit req) (orEmpty (images (label C (fuse searches qs)))))
         /\ (List.length (dispatched rec) <= 3 * limit req)%nat.
Proof.
  intros Hsearch Hzdr.
  destruct (run_summary C env req Hsearch) as (st & passes & t & last & Hrun & Hall & Hlast).
  exists st, passes, t.
  pose proof (searchController_finished C env req st passes t Hzdr Hrun) as Hresp.
  destruct (isLastPass_response C env req st passes last Hlast) as (qs & Hfinal).
  rewrite Hfinal in Hresp. eexists. split; [exact Hrun|]. split; [exact Hresp|].
  destruct Hlast as (st0 & qs0 & _ & (searches & _ & _ & Hlim & _)).
  destruct (emitted_lengths qs (resultsMapOf (dispatched last) (results last)) (limited last))
    as (Hw & Hn & Hi).
  rewrite Hw, Hn, Hi, Hlim. unfold applyLimit. cbn [web news images].
  repeat split; try apply limited_length.
  - destruct (Hall m rec H) as (s & s' & q & (srch & _ & Hs & Hl & _)).
    exists q, srch. rewrite Hl. unfold applyLimit. cbn [web news images].
    repeat split; try apply limited_firstn. exact Hs.
  - destruct (Hall m rec H) as (s & s' & q & (srch & _ & _ & Hl & Hd & _)).
    rewrite Hd. etransitivity; [apply itemsToScrape_length|].
    rewrite Hl. apply applyLimit_total.
Qed.

Lemma limit_bounds_lists_and_jobs_witness :
  exists st passes t data,
    runLoop sampleCollaborators envNo sampleRequest = Ok (Finished st passes, t)
    /\ searchController sampleCollaborators envNo sampleRequest
       = Success data None (credits_billed st)
    /\ (lengthOf (web data) <= limit sampleRequest)%nat
    /\ (lengthOf (news data) <= limit sampleRequest)%nat
    /\ (lengthOf (images data) <= limit sampleRequest)%nat
    /\ forall m rec, nth_error passes m = Some rec ->
         (exists qs searches,
             all (search (envNo m)) qs = Ok searches
             /\ orEmpty (web (limited rec))
                = firstn (limit sampleRequest)
                         (orEmpty (web (label sampleCollaborators (fuse searches qs))))
             /\ orEmpty (news (limited rec))
                = firstn (limit sampleRequest)
                         (orEmpty (news (label sampleCollaborators (fuse searches qs))))
             /\ orEmpty (images (limited rec))
                = firstn (limit sampleRequest)
                         (orEmpty (images (label sampleCollaborators (fuse searches qs)))))
         /\ (List.length (dispatched rec) <= 3 * limit sampleRequest)%nat.
Proof.
  apply (limit_bounds_lists_and_jobs sampleCollaborators envNo sampleRequest).
  - intros i q. eexists. reflexivity.
  - reflexivity.
Defined.

End LimitFacts.

(** ** From one pass to the next *)

Module RefinementFacts.
Import JsString QueryExpander AnswerEvaluator ScrapeDispatcher Controller ControllerFacts.

(** X13. The first pass expands the query without a hint.  A second
    pass is made only when the first verdict has not converged, and all
    it takes from the first pass is the gap hint, the first five missing
    facts of that verdict joined by [; ]: it expands the query with that
    hint and then runs as a pass from a fresh state would, so that the
    results of the first pass are discarded. *)
Theorem second_pass_starts_from_gap_hint C env req :
  (forall i q, exists r, search (env i) q = Ok r) ->
  exists st passes t,
    runLoop C env req = Ok (Finished st passes, t)
    /\ (forall first, nth_error passes 0 = Some first ->
          exists st' qs,
            expandQueriesPlanner (generateText (env 0%nat)) (parseArray C) (query req)
                                 None 5 = Ok qs
            /\ isSyncPass C (env 0%nat) req initialState st' first qs)
    /\ (forall first second,
          nth_error passes 0 = Some first -> nth_error passes 1 = Some second ->
          converged (verdict first) = false
          /\ exists qs,
               expandQueriesPlanner (generateText (env 1%nat)) (parseArray C) (query req)
                                    (Some (gapHintOf (verdict first))) 5 = Ok qs
               /\ isSyncPass C (env 1%nat) req
                             (mkLoopState (Some (gapHintOf (verdict first))) None false 0 0 1)
                             st second qs).
Proof.
  intros Hs.
  destruct (runLoop_shape C env req Hs)
    as [(st0 & rec0 & qs0 & H0 & Hc & Hrun)
       | (st0 & rec0 & qs0 & st1 & rec1 & qs1 & H0 & Hc & H1 & Hrun)].
  - exists st0, [rec0], fullPass. split; [exact Hrun|]. split.
    + intros first [= <-]. exists st0, qs0. split; [|exact H0].
      now destruct H0 as (s0 & He & _).
    + intros first second _ H. discriminate H.
  - exists st1, [rec0; rec1], (fullPass ++ fullPass). split; [exact Hrun|]. split.
    + intros first [= <-]. exists st0, qs0. split; [|exact H0].
      now destruct H0 as (s0 & He & _).
    + intros first second [= <-] [= <-]. split; [exact Hc|].
      destruct H0 as (s0 & _ & _ & _ & _ & _ & _ & _ & Hst0).
      destruct H1 as (s1 & He & Ha & Hl & Hd & Hds & Hcc & Hev & Hst1).
      rewrite Hc in Hst0. subst st0. cbn [gapHint iterations initialState] in *.
      exists qs1. split; [exact He|].
      exists s1. cbn [gapHint iterations]. repeat split; assumption.
Qed.

Lemma second_pass_starts_from_gap_hint_witness :
  exists st passes t,
    runLoop sampleCollaborators envNo sampleRequest = Ok (Finished st passes, t)
    /\ (forall first, nth_error passes 0 = Some first ->
          exists st' qs,
            expandQueriesPlanner (generateText (envNo 0%nat)) (parseArray sampleCollaborators)
                                 (query sampleRequest) None 5 = Ok qs
            /\ isSyncPass sampleCollaborators (envNo 0%nat) sampleRequest initialState st'
                          first qs)
    /\ (forall first second,
          nth_error passes 0 = Some first -> nth_error passes 1 = Some second ->
          converged (verdict first) = false
          /\ exists qs,
               expandQueriesPlanner (generateText (envNo 1%nat))
                                    (parseArray sampleCollaborators) (query sampleRequest)
                                    (Some (gapHintOf (verdict first))) 5 = Ok qs
               /\ isSyncPass sampleCollaborators (envNo 1%nat) sampleRequest
                             (mkLoopState (Some (gapHintOf (verdict first))) None false 0 0 1)
                             st second qs).
Proof.
  apply (second_pass_starts_from_gap_hint sampleCollaborators envNo sampleRequest).
  intros i q. eexists. reflexivity.
Defined.

End RefinementFacts.

(** ** Merging the scraped documents *)

Module MergeFacts.
Import JsString ScrapeDispatcher Controller ControllerFacts Wiring.

Lemma find_app_first {X : Type} (p : X -> bool) (a b : list X) :
  find p (a ++ b) = match find p a with Some x => Some x | None => find p b end.
Proof.
  induction a as [|x r IH]; simpl; [reflexivity|]. now destruct (p x).
Qed.

Lemma find_none {X : Type} (p : X -> bool) (l : list X) :
  (forall x, In x l -> p x = false) -> find p l = None.
Proof.
  induction l as [|x r IH]; intros H; simpl; [reflexivity|].
  rewrite (H x) by now left. apply IH. intros y Hy. apply H. now right.
Qed.

Lemma combine_app_same {X Y : Type} (a b : list X) (a' b' : list Y) :
  List.length a = List.length a' ->
  combine (a ++ b) (a' ++ b') = combine a a' ++ combine b b'.
Proof.
  revert a'. induction a as [|x r IH]; intros [|y r'] H; try discriminate; simpl.
  - reflexivity.
  - f_equal. apply IH. now injection H.
Qed.

Lemma keyEqb_refl k : keyEqb k k = true.
Proof. now apply keyEqb_eq. Qed.

(** X14. After a batch, the document a URL is merged with is that of
    the last dispatched job for the URL: when no later dispatched item
    has the URL of the item at index [i], the lookup of that URL gives
    the document of job [i], and a web result with that URL is overlaid
    with it. *)
Theorem merged_document_is_last_dispatched toScrape docs i x d :
  List.length docs = List.length toScrape ->
  nth_error toScrape i = Some x ->
  nth_error docs i = Some d ->
  (forall j y, (i < j)%nat -> nth_error toScrape j = Some y ->
               sUrl (scrapeInput y) <> sUrl (scrapeInput x)) ->
  mapGet (resultsMapOf toScrape docs) (sUrl (scrapeInput x)) = Some (document d)
  /\ forall it, url it = sUrl (scrapeInput x) ->
                enrichWeb (resultsMapOf toScrape docs) it = spread it (document d).
Proof.
  intros Hlen Hx Hd Hlast.
  assert (Hget : mapGet (resultsMapOf toScrape docs) (sUrl (scrapeInput x))
                 = Some (document d)).
  { apply nth_error_split in Hx as (pre & post & -> & Hpre).
    apply nth_error_split in Hd as (dpre & dpost & -> & Hdpre).
    unfold mapGet, resultsMapOf.
    rewrite !map_app. cbn [map].
    rewrite combine_app_same by (rewrite !length_map; congruence).
    cbn [combine]. rewrite rev_app_distr. cbn [rev].
    rewrite <- app_assoc, find_app_first, find_none.
    - cbn [app find fst]. now rewrite keyEqb_refl.
    - intros e He. apply in_rev in He.
      destruct e as [k doc]. apply in_combine_l in He.
      apply in_map_iff in He as (y & <- & Hy).
      apply In_nth_error in Hy as (n & Hn).
      cbn [fst]. destruct (keyEqb _ _) eqn:E; [|reflexivity].
      apply keyEqb_eq in E. exfalso.
      apply (Hlast (List.length pre + S n)%nat y); [lia | | exact E].
      rewrite nth_error_app2 by lia.
      replace (List.length pre + S n - List.length pre)%nat with (S n) by lia.
      exact Hn. }
  split; [exact Hget|].
  intros it Hit. unfold enrichWeb. now rewrite Hit, Hget.
Qed.

Lemma merged_document_is_last_dispatched_witness :
  mapGet (resultsMapOf twoDispatched twoDocuments) (Some "https://a.example/1")
  = Some scrapedPage
  /\ forall it, url it = Some "https://a.example/1" ->
                enrichWeb (resultsMapOf twoDispatched twoDocuments) it
                = spread it scrapedPage.
Proof.
  apply (merged_document_is_last_dispatched twoDispatched twoDocuments 0
           (mkScrapeItem (RankFusion.webItem "https://a.example/1" "title" "snippet") TWeb
                         (inputFor "https://a.example/1"))
           (mkDocWithCost scrapedPage (Some emptyCostTracking))).
  - reflexivity.
  - reflexivity.
  - reflexivity.
  - intros j y Hj Hy. destruct j as [|[|j]]; [lia | | now destruct j].
    simpl in Hy. injection Hy as <-. discriminate.
Defined.

End MergeFacts.

(** ** Reading the verdict *)

Module VerdictFacts.
Import JsString AnswerEvaluator Controller.

Lemma strings_render NumberToString (facts : list string) :
  all (toStringJs NumberToString) (map JStr facts) = Ok facts.
Proof.
  induction facts as [|f r IH]; simpl; [reflexivity|]. now rewrite IH.
Qed.

(** X15. A well-formed verdict is read back as it is: when the
    completion parses to an object whose [answered] is a boolean, whose
    [confidence] is a number and whose [missing_facts] is an array of
    strings, the evaluator returns exactly these three values, whatever
    other keys the object has and in whatever order.  The confidence is
    not clamped to the range 0..1. *)
Theorem well_formed_verdict_is_read_back
        generateText JSON_parse NumberToString StringToNumber query spansByUrl
        text fields b q facts :
  generateText (evalPrompt query spansByUrl) = Ok text ->
  JSON_parse text = Ok (JObj fields) ->
  lookup "answered" fields = Some (JBool b) ->
  lookup "confidence" fields = Some (JNum q) ->
  lookup "missing_facts" fields = Some (JArr (map JStr facts)) ->
  evaluateAnswerWithLLM generateText JSON_parse NumberToString StringToNumber
                        query spansByUrl
  = Ok (mkVerdict b q facts).
Proof.
  intros Hgen Hparse Ha Hc Hm.
  unfold evaluateAnswerWithLLM. rewrite Hgen. cbn [bind]. rewrite Hparse. cbn [bind].
  unfold readVerdict. cbn [getProp bind]. rewrite Ha, Hc, Hm.
  cbn [toNumberOr0 bind toFacts toBoolean]. rewrite strings_render. reflexivity.
Qed.

Lemma well_formed_verdict_is_read_back_witness :
  evaluateAnswerWithLLM (sampleBackend noText) sampleParse (fun _ => "0") (fun _ => None)
                        "best electric cars" []
  = Ok (mkVerdict false (2 # 10) ["price"]).
Proof.
  apply (well_formed_verdict_is_read_back
           (sampleBackend noText) sampleParse (fun _ => "0") (fun _ => None)
           "best electric cars" [] noText
           [("answered", JBool false); ("confidence", JNum (2 # 10));
            ("missing_facts", JArr [JStr "price"])]
           false (2 # 10) ["price"]); reflexivity.
Defined.

End VerdictFacts.

(** ** Failures after the fetch *)

Module ScrapeFailureFacts.
Import JsString ScrapeDispatcher Wiring CaughtErrors.

(** X16. A page that was fetched is still lost when a later step of the
    job fails: if removing the job from the queue throws, or, with
    database authentication, reading the cost data throws, the item
    resolves to the error placeholder, which has status 500 and no
    markdown.  The error text of the placeholder is what the [catch]
    block reads of the thrown value: the message of an [Error], and
    [String(error)] of any other value.  Without database
    authentication the cost data is never read: the item resolves to the
    fetched document laid over the URL, title and description of the
    search result, with the empty cost data. *)
Theorem late_failure_discards_fetched_page useDb w x id doc :
  started w = Ok id ->
  waited w = Ok doc ->
  (forall error, removed w = raise error ->
                 scrapeSearchResult useDb w x = Ok (placeholder x (errMsg error))
                 /\ markdown (document (placeholder x (errMsg error))) = None
                 /\ hasErrorStatus (placeholder x (errMsg error)) = true
                 /\ error_of (placeholder x (errMsg error)) = Some (errMsg error))
  /\ (forall error, removed w = Ok tt -> useDb = true -> costRow w = raise error ->
                    scrapeSearchResult useDb w x = Ok (placeholder x (errMsg error))
                    /\ markdown (document (placeholder x (errMsg error))) = None)
  /\ (removed w = Ok tt -> useDb = false ->
      scrapeSearchResult useDb w x
      = Ok (mkDocWithCost
              (spread (mkItem (sUrl x) None (sTitle x) (sDescription x)
                              None None None None) doc)
              (Some emptyCostTracking))).
Proof.
  intros Hs Hw. unfold scrapeSearchResult, scrapeBody. rewrite Hs, Hw. cbn [bind].
  split; [|split].
  - intros error Hr. rewrite Hr. repeat split.
  - intros error Hr -> Hc. rewrite Hr. cbn [bind]. rewrite Hc. repeat split.
  - intros Hr ->. rewrite Hr. reflexivity.
Qed.

(** The removal fails with an [Error]: the placeholder carries its
    message.  The cost data cannot be read and the thrown value is a
    plain object: the placeholder carries the text [String] gives for
    it. *)
Lemma late_failure_discards_fetched_page_witness :
  (scrapeSearchResult false jobNotRemoved (inputFor "https://a.example/1")
   = Ok (placeholder (inputFor "https://a.example/1") "queue unavailable")
   /\ markdown (document (placeholder (inputFor "https://a.example/1") "queue unavailable"))
      = None)
  /\ (scrapeSearchResult true costUnreadable (inputFor "https://a.example/1")
      = Ok (placeholder (inputFor "https://a.example/1") "[object Object]")
      /\ markdown (document (placeholder (inputFor "https://a.example/1") "[object Object]"))
         = None).
Proof.
  split.
  - destruct (late_failure_discards_fetched_page false jobNotRemoved
                (inputFor "https://a.example/1") "job-1" scrapedPage eq_refl eq_refl)
      as (H & _).
    destruct (H queueError eq_refl) as (H1 & H2 & _). split; [exact H1 | exact H2].
  - destruct (late_failure_discards_fetched_page true costUnreadable
                (inputFor "https://a.example/1") "job-1" scrapedPage eq_refl eq_refl)
      as (_ & H & _).
    exact (H queryError eq_refl eq_refl eq_refl).
Defined.

End ScrapeFailureFacts.

(** ** Where the expanded queries come from *)

Module ExpansionFacts.
Import JsString QueryExpander.

Lemma collect_from_variants M variants : forall seen out res,
  collect M variants seen out = Ok res ->
  forall q, In q res ->
            In q out \/ (q <> "" /\ exists v, In (Ok v) variants /\ q = norm v).
Proof.
  induction variants as [|[v|e] r IH]; intros seen out res Hc q Hq; simpl in Hc.
  - injection Hc as <-. now left.
  - destruct (String.eqb (norm v) "" || seenHas seen (toLowerCase (norm v))) eqn:Hskip.
    + destruct (IH _ _ _ Hc q Hq) as [H | (Hne & v' & Hv' & ->)]; [now left|].
      right. split; [exact Hne|]. exists v'. split; [now right | reflexivity].
    + apply orb_false_iff in Hskip as [Hne _]. apply String.eqb_neq in Hne.
      assert (Hnew : In q (out ++ [norm v]) ->
                     In q out \/ (q <> "" /\ exists v0, In (Ok v0) (Ok v :: r) /\ q = norm v0)).
      { intros H. apply in_app_or in H as [H | [<- | []]]; [now left|].
        right. split; [exact Hne|]. exists v. split; [now left | reflexivity]. }
      destruct (M <=? Z.of_nat (List.length (out ++ [norm v])))%Z.
      * injection Hc as <-. now apply Hnew.
      * destruct (IH _ _ _ Hc q Hq) as [H | (Hne' & v' & Hv' & ->)]; [now apply Hnew|].
        right. split; [exact Hne'|]. exists v'. split; [now right | reflexivity].
  - discriminate.
Qed.

(** X17. [expandQueriesPlanner] never invents a query: its result is
    the base query alone, or the normalized base query followed by
    alternatives each of which is a variant parsed from the completion
    with its white space normalized, is not empty, and differs from the
    base query even when case is ignored. *)
Theorem alternatives_come_from_the_completion generateText parseArray baseQuery gapHint M :
  exists out,
    expandQueriesPlanner generateText parseArray baseQuery gapHint M = Ok out
    /\ (out = [baseQuery]
        \/ exists text rest,
             generateText (expandPrompt baseQuery gapHint M) = Ok text
             /\ out = norm baseQuery :: rest
             /\ Forall (fun q =>
                          q <> ""
                          /\ toLowerCase q <> toLowerCase (norm baseQuery)
                          /\ exists v, In (Ok v) (parseVariants parseArray text)
                                       /\ q = norm v)
                       rest).
Proof.
  unfold expandQueriesPlanner.
  destruct (generateText (expandPrompt baseQuery gapHint M)) as [text|e];
    cbn [bind try_catch]; [|eexists; split; [reflexivity | now left]].
  destruct (collect M (parseVariants parseArray text) [] []) as [res|e] eqn:Hc;
    cbn [bind try_catch]; [|eexists; split; [reflexivity | now left]].
  eexists. split; [reflexivity|]. right. exists text. eexists.
  split; [reflexivity|]. split; [reflexivity|].
  apply Forall_forall. intros q Hq. apply filter_In in Hq as [Hq Hdiff].
  apply negb_true_iff, String.eqb_neq in Hdiff.
  destruct (collect_from_variants _ _ _ _ _ Hc q Hq) as [[] | (Hne & v & Hv & ->)].
  repeat split; try assumption. now exists v.
Qed.

Lemma dropWhile_head cls (s : string) :
  dropWhile cls s = "" \/ exists c r, dropWhile cls s = String c r /\ cls c = false.
Proof.
  induction s as [|c r IH]; simpl; [now left|].
  destruct (cls c) eqn:Hc; [exact IH|]. right. now exists c, r.
Qed.

Lemma bullet_not_space c : isBulletChar c = false -> isSpace c = false.
Proof.
  unfold isBulletChar. intros H. now apply orb_false_iff in H as [_ H].
Qed.

(** X18. When the completion is not a JSON array, the third stage of the
    parse chain splits it at newlines and commas and strips leading
    bullets and numbering: every piece it keeps begins with a character
    that is none of [-], [*], [.], a digit or white space, so a variant
    that begins with a number loses it. *)
Theorem fallback_pieces_begin_with_text (cleaned : string) :
  Forall (fun piece => exists c r, piece = String c r /\ isBulletChar c = false)
         (splitFallback cleaned).
Proof.
  unfold splitFallback. apply Forall_forall. intros piece Hp.
  apply filter_In in Hp as [Hp Hlen].
  apply in_map_iff in Hp as (s & <- & _).
  destruct (dropWhile_head isBulletChar s) as [E | (c & r & E & Hc)]; rewrite E in *.
  - discriminate Hlen.
  - rewrite SpanExtractorFacts.trim_cons by now apply bullet_not_space.
    now exists c, (trimEnd r).
Qed.

End ExpansionFacts.

(** ** A search that fails *)

Module SearchFailureFacts.
Import JsString QueryExpander AnswerEvaluator ScrapeDispatcher Controller ControllerFacts Wiring.

Lemma iteration_search_failure C E req st t qs e :
  expandQueriesPlanner (generateText E) (parseArray C) (query req) (gapHint st) 5 = Ok qs ->
  all (search E) qs = Throw e ->
  iteration C E req shouldScrape isAsyncScraping st t = Throw e.
Proof.
  intros Hq Hs. unfold iteration, pbind, lift, enter. now rewrite Hq, Hs.
Qed.

(** X20. A failing search fails the whole request, in the first pass
    and in the second alike: when a search of the first pass throws, or
    the first pass has run to its end without converging and a search
    of the second pass throws, the loop of the controller throws that
    error, the response is a failure, and what the first pass had found
    is not returned.  The status and the text of the failure response
    are chosen by the class of the error (a validation error, a scrape
    timeout, any other) and are no part of the statement. *)
Theorem search_failure_fails_the_request C env req :
  forceZDR req = false ->
  (forall qs e,
      expandQueriesPlanner (generateText (env 0%nat)) (parseArray C) (query req) None 5
      = Ok qs ->
      all (search (env 0%nat)) qs = Throw e ->
      runLoop C env req = Throw e
      /\ exists status msg, searchController C env req = Failure status msg)
  /\ (forall st0 rec0 t0 qs1 e,
         iteration C (env 0%nat) req shouldScrape isAsyncScraping initialState []
         = Ok (Continue st0 rec0, t0) ->
         expandQueriesPlanner (generateText (env 1%nat)) (parseArray C) (query req)
                              (gapHint st0) 5 = Ok qs1 ->
         all (search (env 1%nat)) qs1 = Throw e ->
         runLoop C env req = Throw e
         /\ exists status msg, searchController C env req = Failure status msg).
Proof.
  intros Hzdr. split.
  - intros qs e Hq Hs.
    assert (Hrun : runLoop C env req = Throw e).
    { unfold runLoop, MAX_ITERATIONS. cbn [loop]. unfold pbind at 1.
      now rewrite (iteration_search_failure C (env 0%nat) req initialState [] qs e Hq Hs). }
    split; [exact Hrun|]. exists 500%Z, e.
    unfold searchController. now rewrite Hzdr, Hrun.
  - intros st0 rec0 t0 qs1 e H0 Hq Hs.
    assert (Hrun : runLoop C env req = Throw e).
    { unfold runLoop, MAX_ITERATIONS. cbn [loop]. unfold pbind at 1. rewrite H0.
      cbn [loop]. unfold pbind at 1.
      now rewrite (iteration_search_failure C (env 1%nat) req st0 _ qs1 e Hq Hs). }
    split; [exact Hrun|]. exists 500%Z, e.
    unfold searchController. now rewrite Hzdr, Hrun.
Qed.

(** The search provider is down from the start, and the search provider
    goes down after a first pass that found results and did not
    converge: either way the loop throws and the request fails. *)
Lemma search_failure_fails_the_request_witness :
  (runLoop sampleCollaborators envFirstSearchFails sampleRequest = Throw "search unavailable"
   /\ exists status msg,
        searchController sampleCollaborators envFirstSearchFails sampleRequest
        = Failure status msg)
  /\ (runLoop sampleCollaborators envSecondSearchFails sampleRequest
      = Throw "search unavailable"
      /\ exists status msg,
           searchController sampleCollaborators envSecondSearchFails sampleRequest
           = Failure status msg).
Proof.
  split.
  - eapply (proj1 (search_failure_fails_the_request sampleCollaborators envFirstSearchFails
                     sampleRequest eq_refl)).
    + vm_compute. reflexivity.
    + vm_compute. reflexivity.
  - eapply (proj2 (search_failure_fails_the_request sampleCollaborators envSecondSearchFails
                     sampleRequest eq_refl)).
    + vm_compute. reflexivity.
    + vm_compute. reflexivity.
    + vm_compute. reflexivity.
Defined.

End SearchFailureFacts.

(* ===================================================================== *)
(** * Properties of the code in double precision                         *)
(* ===================================================================== *)

(** ** The order of the doubles *)

Module DoubleFacts.
Import PrimFloat SpecFloat FloatOps Double.

Lemma lex3_Lt a b : lex3 a b = Lt <-> below a b.
Proof.
  unfold lex3, below.
  destruct (Z.compare_spec (fst (fst a)) (fst (fst b)));
    destruct (Z.compare_spec (snd (fst a)) (snd (fst b)));
    destruct (Z.compare_spec (snd a) (snd b));
    split; intros; try discriminate; try reflexivity; lia.
Qed.

Lemma lex3_Eq a b : lex3 a b = Eq <-> level a b.
Proof.
  unfold lex3, level.
  destruct (Z.compare_spec (fst (fst a)) (fst (fst b)));
    destruct (Z.compare_spec (snd (fst a)) (snd (fst b)));
    destruct (Z.compare_spec (snd a) (snd b));
    split; intros; try discriminate; try reflexivity; lia.
Qed.

(** The comparison of two numbers is the lexicographic comparison of
    their keys. *)
Lemma SFcompare_key x y :
  x <> S754_nan -> y <> S754_nan -> SFcompare x y = Some (lex3 (key x) (key y)).
Proof.
  intros Hx Hy.
  destruct x as [sx|sx| |sx mx ex], y as [sy|sy| |sy my ey]; try congruence;
    try (destruct sx); try (destruct sy); try reflexivity.
  unfold SFcompare, key, lex3. cbn [fst snd].
  rewrite Z.compare_opp. cbn [Z.compare].
  rewrite (Z.compare_antisym ey ex).
  destruct (ey ?= ex)%Z; reflexivity.
Qed.

Lemma is_nan_spec (x : float) : is_nan x = true <-> Prim2SF x = S754_nan.
Proof.
  unfold Prim2SF. destruct (is_nan x); split; try reflexivity; try discriminate.
  destruct (is_zero x); [discriminate|].
  destruct (is_infinity x); [discriminate|].
  destruct (Z.frexp x) as [r e].
  destruct (shr_fexp _ _ _ _ _) as [sh e'].
  destruct (shr_m sh); discriminate.
Qed.

Lemma isNumber_spec (x : float) : isNumber x = true <-> Prim2SF x <> S754_nan.
Proof.
  unfold isNumber. rewrite negb_true_iff. split.
  - intros H E. apply is_nan_spec in E. congruence.
  - intros H. destruct (is_nan x) eqn:E; [|reflexivity].
    apply is_nan_spec in E. contradiction.
Qed.

Lemma ltb_below (x y : float) :
  isNumber x = true -> isNumber y = true ->
  ((x <? y)%float = true <-> below (ordKey x) (ordKey y)).
Proof.
  intros Hx Hy. apply isNumber_spec in Hx, Hy.
  rewrite FloatAxioms.ltb_spec. unfold SFltb, ordKey.
  rewrite (SFcompare_key _ _ Hx Hy). split.
  - intros H. apply lex3_Lt. destruct (lex3 _ _); congruence.
  - intros H. apply lex3_Lt in H. now rewrite H.
Qed.

Lemma eqb_level (x y : float) :
  isNumber x = true -> isNumber y = true ->
  ((x =? y)%float = true <-> level (ordKey x) (ordKey y)).
Proof.
  intros Hx Hy. apply isNumber_spec in Hx, Hy.
  rewrite FloatAxioms.eqb_spec. unfold SFeqb, ordKey.
  rewrite (SFcompare_key _ _ Hx Hy). split.
  - intros H. apply lex3_Eq. destruct (lex3 _ _); congruence.
  - intros H. apply lex3_Eq in H. now rewrite H.
Qed.

(** A comparison with [NaN] is false. *)
Lemma ltb_numbers (x y : float) :
  (x <? y)%float = true -> isNumber x = true /\ isNumber y = true.
Proof.
  rewrite FloatAxioms.ltb_spec. unfold SFltb. intros H.
  split; apply isNumber_spec; intros E; rewrite E in H;
    [|destruct (Prim2SF x)]; discriminate.
Qed.

Lemma eqb_numbers (x y : float) :
  (x =? y)%float = true -> isNumber x = true /\ isNumber y = true.
Proof.
  rewrite FloatAxioms.eqb_spec. unfold SFeqb. intros H.
  split; apply isNumber_spec; intros E; rewrite E in H;
    [|destruct (Prim2SF x)]; discriminate.
Qed.

Lemma ltb_false_iff (x y : float) :
  isNumber x = true -> isNumber y = true ->
  ((x <? y)%float = false <-> ~ below (ordKey x) (ordKey y)).
Proof.
  intros Hx Hy. rewrite <- (ltb_below x y Hx Hy).
  destruct (x <? y)%float; split; congruence.
Qed.

Lemma ltb_asym (x y : float) : (x <? y)%float = true -> (y <? x)%float = false.
Proof.
  intros H. destruct (ltb_numbers x y H) as [Hx Hy].
  apply (ltb_below x y Hx Hy) in H. apply (ltb_false_iff y x Hy Hx).
  unfold below in *. lia.
Qed.

(** "Not less" is transitive through a number. *)
Lemma ltb_false_trans (x y z : float) :
  isNumber y = true ->
  (x <? y)%float = false -> (y <? z)%float = false -> (x <? z)%float = false.
Proof.
  intros Hy H1 H2.
  destruct (x <? z)%float eqn:E; [|reflexivity].
  destruct (ltb_numbers x z E) as [Hx Hz].
  apply (ltb_below x z Hx Hz) in E.
  apply (ltb_false_iff x y Hx Hy) in H1. apply (ltb_false_iff y z Hy Hz) in H2.
  unfold below in *. lia.
Qed.

Lemma eqb_refl_number (x : float) : isNumber x = true -> (x =? x)%float = true.
Proof.
  intros Hx. apply (eqb_level x x Hx Hx). unfold level. lia.
Qed.


(** Two numbers equal to a third are not one below the other. *)
Lemma tied_not_below (x y s : float) :
  (x =? s)%float = true -> (y =? s)%float = true -> (x <? y)%float = false.
Proof.
  intros H1 H2.
  destruct (eqb_numbers x s H1) as [Hx Hs]. destruct (eqb_numbers y s H2) as [Hy _].
  apply (eqb_level x s Hx Hs) in H1. apply (eqb_level y s Hy Hs) in H2.
  apply (ltb_false_iff x y Hx Hy). unfold level, below in *. lia.
Qed.

Lemma eqb_not_below (x y : float) : (x =? y)%float = true -> (x <? y)%float = false.
Proof.
  intros H. destruct (eqb_numbers x y H) as [_ Hy].
  apply (tied_not_below x y y H). now apply eqb_refl_number.
Qed.

(** Two numbers are equal or one is below the other. *)
Lemma number_trichotomy (x y : float) :
  isNumber x = true -> isNumber y = true ->
  (x <? y)%float = true \/ (x =? y)%float = true \/ (y <? x)%float = true.
Proof.
  intros Hx Hy.
  rewrite (ltb_below x y Hx Hy), (eqb_level x y Hx Hy), (ltb_below y x Hy Hx).
  unfold below, level. lia.
Qed.

End DoubleFacts.

(** ** Sorting with a comparator that is an ordering on the elements *)

Section SortedOn.
Context {A : Type} (after : A -> A -> bool) (P : A -> Prop).
Hypothesis after_asym_on :
  forall x y, P x -> P y -> after x y = true -> after y x = false.
Hypothesis notBelow_trans_on :
  forall x y z, P x -> P y -> P z ->
                after x y = false -> after y z = false -> after x z = false.

Lemma insertSorted_P (x : A) (l : list A) : P x -> Forall P l -> Forall P (insertSorted after x l).
Proof.
  intros Hx Hl. apply Forall_forall. intros z Hz.
  apply (Permutation_in _ (insertSorted_perm after x l)) in Hz.
  destruct Hz as [<-|Hz]; [exact Hx|]. rewrite Forall_forall in Hl. now apply Hl.
Qed.

Lemma insertSorted_sorted_on (x : A) (l : list A) :
  P x -> Forall P l ->
  StronglySorted (notBelow after) l -> StronglySorted (notBelow after) (insertSorted after x l).
Proof.
  intros Hx. induction l as [|y r IH]; intros Hl Hs; simpl.
  - repeat constructor.
  - inversion Hs as [|? ? Hr Hy]; subst.
    inversion Hl as [|? ? Py Pr]; subst.
    destruct (after x y) eqn:E.
    + constructor; [now apply IH|].
      apply Forall_forall. intros z Hz.
      apply (Permutation_in _ (insertSorted_perm after x r)) in Hz.
      destruct Hz as [<- | Hz].
      * now apply after_asym_on.
      * rewrite Forall_forall in Hy. now apply Hy.
    + constructor; [assumption|].
      constructor; [exact E|].
      rewrite Forall_forall in Hy, Pr |- *. intros z Hz.
      apply (notBelow_trans_on x y z Hx Py (Pr z Hz) E). now apply Hy.
Qed.

Lemma stableSort_sorted_on (l : list A) :
  Forall P l -> StronglySorted (notBelow after) (stableSort after l).
Proof.
  induction l as [|x r IH]; intros Hl; simpl; [constructor|].
  inversion Hl as [|? ? Px Pr]; subst.
  apply insertSorted_sorted_on; [assumption | | now apply IH].
  apply Forall_forall. intros z Hz.
  apply (Permutation_in _ (stableSort_perm after r)) in Hz.
  rewrite Forall_forall in Pr. now apply Pr.
Qed.

End SortedOn.

(** ** RankFusion in doubles *)

Module RankFusionDFacts.
Import JsString Double PrimFloat DoubleFacts RankFusionD.

(** *** The association list *)

Lemma get_set_eq_d (m : UrlMap) u a : get (set m u a) u = Some a.
Proof.
  induction m as [|[u' a'] r IH]; simpl.
  - now rewrite String.eqb_refl.
  - destruct (String.eqb u u') eqn:E; simpl; rewrite E; [reflexivity | exact IH].
Qed.

Lemma get_set_neq_d (m : UrlMap) u u' a : u <> u' -> get (set m u a) u' = get m u'.
Proof.
  intros Hne. induction m as [|[v b] r IH]; simpl.
  - destruct (String.eqb_spec u' u); [congruence | reflexivity].
  - destruct (String.eqb_spec u v) as [->|Huv]; simpl.
    + destruct (String.eqb_spec u' v); [congruence | reflexivity].
    + now rewrite IH.
Qed.

Lemma In_get_d (m : UrlMap) u a : NoDup (keys m) -> In (u, a) m -> get m u = Some a.
Proof.
  induction m as [|[u' a'] r IH]; simpl; [tauto|].
  intros Hnd [E|Hin].
  - injection E as -> ->. now rewrite String.eqb_refl.
  - inversion Hnd as [|? ? Hnot Hr]; subst.
    destruct (String.eqb_spec u u') as [->|Hu].
    + exfalso. apply Hnot. change (In (fst (u', a)) (map fst r)). now apply in_map.
    + now apply IH.
Qed.

(** *** The same shape as in exact arithmetic *)

Lemma get_shape mD mQ u :
  Forall2 sameShape mD mQ ->
  match get mD u, RankFusion.get mQ u with
  | Some a, Some b => sameShape (u, a) (u, b)
  | None, None => True
  | _, _ => False
  end.
Proof.
  intros H. induction H as [|[ud a] [uq b] rD rQ (Hk & Hrest) Hr IH]; simpl; [exact I|].
  cbn [fst snd] in *. subst uq.
  destruct (String.eqb u ud); [|exact IH].
  repeat split; apply Hrest.
Qed.

Lemma set_shape mD mQ u a b :
  Forall2 sameShape mD mQ -> sameShape (u, a) (u, b) ->
  Forall2 sameShape (set mD u a) (RankFusion.set mQ u b).
Proof.
  intros H Hab. induction H as [|[ud a'] [uq b'] rD rQ Hh Hr IH]; simpl.
  - constructor; [exact Hab | constructor].
  - assert (E : ud = uq) by apply Hh. subst uq.
    destruct (String.eqb u ud) eqn:Eu.
    + constructor; [|assumption]. apply String.eqb_eq in Eu. subst ud.
      exact Hab.
    + now constructor.
Qed.

Lemma visit_shape k kq v mD mQ idx item :
  Forall2 sameShape mD mQ ->
  Forall2 sameShape (visit k v mD idx item) (RankFusion.visit kq v mQ idx item).
Proof.
  intros H. unfold visit, RankFusion.visit.
  destruct (url item) as [u|]; [|exact H].
  destruct (String.eqb u ""); [exact H|].
  pose proof (get_shape mD mQ u H) as Hg.
  destruct (get mD u) as [a|], (RankFusion.get mQ u) as [b|]; try contradiction.
  - destruct Hg as (_ & Hi & Hr & Hv). cbn [snd] in Hi, Hr, Hv.
    apply set_shape; [exact H|].
    unfold sameShape. cbn [fst snd bestItem bestRank bestVariantIdx
                            RankFusion.bestItem RankFusion.bestRank
                            RankFusion.bestVariantIdx].
    rewrite Hi, Hr, Hv. repeat split.
  - apply set_shape; [exact H|]. repeat split.
Qed.

Lemma forEachFrom_related {X S S' : Type} (R : S -> S' -> Prop)
      (f : S -> nat -> X -> S) (g : S' -> nat -> X -> S') (l : list X) :
  (forall s s' i x, R s s' -> R (f s i x) (g s' i x)) ->
  forall i s s', R s s' -> R (forEachFrom f i l s) (forEachFrom g i l s').
Proof.
  intros Hfg. induction l as [|x r IH]; intros i s s' H; simpl; [exact H|].
  apply IH. now apply Hfg.
Qed.

Lemma accumulate_shape k kq lists :
  Forall2 sameShape (accumulate k lists) (RankFusion.accumulate kq lists).
Proof.
  unfold accumulate, RankFusion.accumulate.
  apply (forEachFrom_related (Forall2 sameShape)); [|constructor].
  intros s s' i [l|] H; [|exact H].
  apply (forEachFrom_related (Forall2 sameShape)); [|exact H].
  intros t t' j x Ht. now apply visit_shape.
Qed.

Lemma shape_keys mD mQ : Forall2 sameShape mD mQ -> keys mD = RankFusion.keys mQ.
Proof.
  intros H. induction H as [|d q rD rQ Hh Hr IH]; simpl; [reflexivity|].
  f_equal; [apply Hh | exact IH].
Qed.

(** The keys of the accumulator are the distinct non-empty URLs of the
    input in the order of their first appearance. *)
Lemma accumulate_keys_d k lists : keys (accumulate k lists) = FusionOrder.firstSeen lists.
Proof.
  rewrite (shape_keys _ _ (accumulate_shape k 1%Q lists)).
  apply FusionOrderFacts.accumulate_keys_order.
Qed.

Lemma accumulate_NoDup_d k lists : NoDup (keys (accumulate k lists)).
Proof.
  rewrite (shape_keys _ _ (accumulate_shape k 1%Q lists)).
  apply (RankFusionFacts.accumulate_wf 1%Q lists).
Qed.

(** Every representative carries the URL it is filed under, and that
    URL is not empty. *)
Lemma accumulate_urls_d k lists :
  Forall (fun e => url (bestItem (snd e)) = Some (fst e) /\ fst e <> "") (accumulate k lists).
Proof.
  pose proof (accumulate_shape k 1%Q lists) as H.
  destruct (RankFusionFacts.accumulate_wf 1%Q lists) as (_ & Hurl & Hne).
  unfold RankFusion.keys in Hne. rewrite Forall_map in Hne.
  induction H as [|d q rD rQ (Hk & Hi & _) Hr IH]; constructor.
  - inversion Hurl; subst. inversion Hne; subst.
    rewrite Hk, Hi. now split.
  - inversion Hurl; subst. inversion Hne; subst. now apply IH.
Qed.

(** *** The two loops as one fold, and the base score *)

Lemma inner_loop_fold_d k v (l : list Item) :
  forall j m,
    forEachFrom (visit k v) j l m =
    fold_left (step k) (mapFrom (fun item i => (v, i, item)) j l) m.
Proof.
  induction l as [|x r IH]; intros j m; simpl; [reflexivity|].
  apply IH.
Qed.

Lemma outer_loop_fold_d k (lists : list (option (list Item))) :
  forall i m,
    forEachFrom
      (fun byUrl variantIdx list =>
         match list with
         | None => byUrl
         | Some l => forEachFrom (visit k variantIdx) 0 l byUrl
         end) i lists m =
    fold_left (step k)
      (List.concat
         (mapFrom (fun list v =>
                     match list with
                     | None => []
                     | Some l => mapFrom (fun item j => (v, j, item)) 0 l
                     end) i lists)) m.
Proof.
  induction lists as [|x r IH]; intros i m; simpl; [reflexivity|].
  rewrite fold_left_app, IH. f_equal.
  destruct x as [l|]; simpl; [apply inner_loop_fold_d | reflexivity].
Qed.

Lemma accumulate_fold_d k lists :
  accumulate k lists = fold_left (step k) (RankFusion.occurrences lists) [].
Proof. apply outer_loop_fold_d. Qed.

Lemma step_unchanged_d k m o :
  truthy (url (snd o)) = false -> step k m o = m.
Proof.
  unfold step, visit, truthy. destruct (url (snd o)) as [u|]; [|reflexivity].
  intros H. apply negb_false_iff in H. now rewrite H.
Qed.

Lemma step_set_d k m o u :
  url (snd o) = Some u -> u <> "" -> step k m o = set m u (visited k m o).
Proof.
  intros Hu Hne. unfold step, visit, visited. rewrite Hu.
  apply String.eqb_neq in Hne. rewrite Hne.
  destruct (get m u); reflexivity.
Qed.

Lemma extend_app k start r1 r2 :
  extend k start (r1 ++ r2) = extend k (extend k start r1) r2.
Proof.
  revert start. induction r1 as [|r rest IH]; intros start; simpl; [reflexivity|].
  apply IH.
Qed.

Lemma extend_Some k b ranks :
  extend k (Some b) ranks = Some (fold_left (fun acc r => (acc + rrfTerm k r)%float) ranks b).
Proof.
  revert b. induction ranks as [|r rest IH]; intros b; simpl; [reflexivity|].
  apply IH.
Qed.

Lemma step_base_d k m o u :
  u <> "" ->
  option_map base (get (step k m o) u)
  = extend k (option_map base (get m u)) (RankFusion.ranksIn [o] u).
Proof.
  intros Hne. unfold RankFusion.ranksIn. cbn [flat_map]. rewrite app_nil_r.
  destruct (RankFusionFacts.truthy_cases (url (snd o))) as [Hf | (u0 & Hu0 & Hne0)].
  - rewrite (step_unchanged_d k m o Hf).
    destruct (url (snd o)) as [u'|]; [|reflexivity].
    simpl in Hf. apply negb_false_iff, String.eqb_eq in Hf. subst u'.
    destruct (String.eqb_spec "" u); [congruence | reflexivity].
  - rewrite (step_set_d k m o u0 Hu0 Hne0), Hu0.
    destruct (String.eqb_spec u0 u) as [->|Hneq].
    + rewrite get_set_eq_d. unfold visited. rewrite Hu0.
      destruct (get m u); reflexivity.
    + now rewrite get_set_neq_d.
Qed.

Lemma fold_base_d k os : forall m u,
  u <> "" ->
  option_map base (get (fold_left (step k) os m) u)
  = extend k (option_map base (get m u)) (RankFusion.ranksIn os u).
Proof.
  induction os as [|o os IH]; intros m u Hne; [reflexivity|].
  cbn [fold_left]. rewrite (IH _ _ Hne), (step_base_d k m o u Hne).
  rewrite (RankFusionFacts.ranksIn_cons o os u). now rewrite extend_app.
Qed.

Lemma get_In_d (m : UrlMap) u a : get m u = Some a -> In (u, a) m.
Proof.
  induction m as [|[u' a'] r IH]; simpl; [discriminate|].
  destruct (String.eqb_spec u u') as [->|Hu].
  - intros [= ->]. now left.
  - intros H. right. now apply IH.
Qed.

Lemma get_url_d k lists u a :
  get (accumulate k lists) u = Some a -> url (bestItem a) = Some u /\ u <> "".
Proof.
  intros H. apply get_In_d in H.
  pose proof (accumulate_urls_d k lists) as Hall.
  rewrite Forall_forall in Hall. exact (Hall _ H).
Qed.

(** The base score of a URL is the sum of the terms of its occurrences,
    added from the left in the order of the visits. *)
Lemma accumulate_base_d k lists u a :
  get (accumulate k lists) u = Some a ->
  base a = baseSum k (RankFusion.ranksOf lists u).
Proof.
  intros H. destruct (get_url_d k lists u a H) as (_ & Hne).
  pose proof (fold_base_d k (RankFusion.occurrences lists) [] u Hne) as Hb.
  rewrite <- accumulate_fold_d, H in Hb. cbn [get option_map] in Hb.
  unfold RankFusion.ranksOf, baseSum.
  destruct (RankFusion.ranksIn (RankFusion.occurrences lists) u) as [|r rest];
    [discriminate|].
  cbn [extend] in Hb. rewrite extend_Some in Hb. now injection Hb.
Qed.

(** *** The entries of the sorted list *)

Lemma scored_entry_d textSim k beta lists expandedQs e :
  In e (scored textSim k beta lists expandedQs) ->
  exists u a, get (accumulate k lists) u = Some a
              /\ e = addSim textSim beta expandedQs a
              /\ keyOf e = u.
Proof.
  intros Hin. unfold scored in Hin. apply in_map_iff in Hin as ([u a] & <- & Hin).
  exists u, a. cbn [snd].
  assert (Hget : get (accumulate k lists) u = Some a).
  { apply In_get_d; [apply accumulate_NoDup_d | exact Hin]. }
  repeat split; [exact Hget|].
  unfold keyOf. cbn [bestItem addSim].
  now rewrite (proj1 (get_url_d k lists u a Hget)).
Qed.

Lemma ranked_perm_d textSim k beta lists expandedQs :
  Permutation (ranked textSim k beta lists expandedQs)
              (scored textSim k beta lists expandedQs).
Proof. apply stableSort_perm. Qed.

Lemma score_entry_d textSim k beta lists expandedQs e :
  In e (scored textSim k beta lists expandedQs) ->
  scoreOf textSim k beta lists expandedQs (keyOf e) = Some (score e).
Proof.
  intros Hin. apply scored_entry_d in Hin as (u & a & Hget & -> & Hk).
  rewrite Hk. unfold scoreOf. now rewrite Hget.
Qed.

Lemma scored_keys_d textSim k beta lists expandedQs :
  map keyOf (scored textSim k beta lists expandedQs) = keys (accumulate k lists).
Proof.
  unfold scored, keys. rewrite map_map. apply map_ext_in.
  intros [u a] Hin. cbn [snd fst].
  pose proof (accumulate_urls_d k lists) as Hall. rewrite Forall_forall in Hall.
  destruct (Hall _ Hin) as (Hu & _). cbn [fst snd] in Hu.
  unfold keyOf. cbn [bestItem addSim]. now rewrite Hu.
Qed.

Lemma keyOf_url_d textSim k beta lists expandedQs e :
  In e (scored textSim k beta lists expandedQs) -> url (bestItem e) = Some (keyOf e).
Proof.
  intros Hin. apply scored_entry_d in Hin as (u & a & Hget & -> & Hk).
  unfold keyOf. cbn [bestItem addSim].
  now rewrite (proj1 (get_url_d k lists u a Hget)).
Qed.

Lemma urlsOf_rrfMerge_d textSim lists expandedQs k beta :
  FusionOrder.urlsOf (rrfMerge textSim lists expandedQs k beta)
  = map keyOf (ranked textSim k beta lists expandedQs).
Proof.
  unfold rrfMerge.
  assert (H : forall e, In e (ranked textSim k beta lists expandedQs) ->
                        url (bestItem e) = Some (keyOf e)).
  { intros e He. apply (keyOf_url_d textSim k beta lists expandedQs).
    exact (Permutation_in _ (ranked_perm_d textSim k beta lists expandedQs) He). }
  revert H. generalize (ranked textSim k beta lists expandedQs). generalize 0%nat.
  intros i l. revert i. induction l as [|e r IH]; intros i H; [reflexivity|].
  cbn [mapFrom map]. unfold FusionOrder.urlsOf in *. cbn [flat_map url withPosition].
  rewrite (H e (or_introl eq_refl)). cbn [app]. f_equal.
  apply IH. intros e' He'. apply H. now right.
Qed.

(** *** Order and ties *)

Lemma ranked_sorted_d textSim k beta lists expandedQs :
  scoresAreNumbers textSim k beta lists expandedQs ->
  StronglySorted (notBelow (byScoreDesc))
                 (ranked textSim k beta lists expandedQs).
Proof.
  intros Hnum. unfold ranked.
  apply (stableSort_sorted_on byScoreDesc (fun a => isNumber (score a) = true)).
  - intros x y _ _. apply ltb_asym.
  - intros x y z _ Hy _. now apply ltb_false_trans.
  - exact Hnum.
Qed.

Lemma ranked_ties_d textSim k beta lists expandedQs (s : float) :
  filter (fun e => (score e =? s)%float) (ranked textSim k beta lists expandedQs)
  = filter (fun e => (score e =? s)%float) (scored textSim k beta lists expandedQs).
Proof.
  unfold ranked. apply FusionOrderFacts.stableSort_filter.
  intros a b Ha Hb. unfold byScoreDesc. exact (tied_not_below _ _ s Ha Hb).
Qed.

(** Among the URLs that have one and the same computed score, the
    output keeps the order of first appearance. *)
Lemma ties_first_seen_d textSim lists expandedQs k beta (s : float) :
  filter (tied textSim k beta lists expandedQs s)
         (FusionOrder.urlsOf (rrfMerge textSim lists expandedQs k beta))
  = filter (tied textSim k beta lists expandedQs s) (FusionOrder.firstSeen lists).
Proof.
  rewrite urlsOf_rrfMerge_d.
  rewrite (FusionOrderFacts.filter_map_ext_in keyOf _ (fun e => (score e =? s)%float)).
  2:{ intros e He. unfold tied.
      rewrite (score_entry_d textSim k beta lists expandedQs e); [reflexivity|].
      exact (Permutation_in _ (ranked_perm_d textSim k beta lists expandedQs) He). }
  rewrite ranked_ties_d.
  rewrite <- (FusionOrderFacts.filter_map_ext_in keyOf (tied textSim k beta lists expandedQs s)).
  2:{ intros e He. unfold tied. now rewrite (score_entry_d textSim k beta lists expandedQs e). }
  now rewrite scored_keys_d, accumulate_keys_d.
Qed.

(** *** Standing before *)













Lemma fusedScore_entry_d textSim k beta lists expandedQs e p :
  In e (scored textSim k beta lists expandedQs) ->
  fusedScore textSim k beta lists expandedQs (withPosition (bestItem e) p)
  = Some (score e).
Proof.
  intros Hin. unfold fusedScore. cbn [url withPosition].
  rewrite (keyOf_url_d _ _ _ _ _ _ Hin). now apply score_entry_d.
Qed.

(** X10. The output of [rrfMerge] is ordered by the scores as they are
    computed in double precision: whenever no computed score is [NaN],
    no item has a lower computed score than an item that comes after
    it.  The computed score of an item is the sum of the doubles
    [1 / (k + rank)] over the occurrences of its URL, added up from the
    left in the order of the visits, plus [beta] times the cumulative
    similarity of the representative's text to the expanded queries,
    each operation rounded as the code rounds it. *)
Theorem rrfMerge_sorted_by_computed_score textSim lists expandedQs k beta :
  scoresAreNumbers textSim k beta lists expandedQs ->
  StronglySorted
    (fun a b => exists sa sb,
         fusedScore textSim k beta lists expandedQs a = Some sa
         /\ fusedScore textSim k beta lists expandedQs b = Some sb
         /\ (sa <? sb)%float = false)
    (rrfMerge textSim lists expandedQs k beta)
  /\ Forall
       (fun it => exists u rep,
            url it = Some u
            /\ representative k lists u = Some rep
            /\ fusedScore textSim k beta lists expandedQs it
               = Some (baseSum k (RankFusion.ranksOf lists u)
                       + beta * simSum textSim (textOf rep) expandedQs)%float)
       (rrfMerge textSim lists expandedQs k beta).
Proof.
  intros Hnum.
  assert (Hsc : forall e, In e (ranked textSim k beta lists expandedQs) ->
                          In e (scored textSim k beta lists expandedQs)).
  { intros e He. exact (Permutation_in _ (ranked_perm_d textSim k beta lists expandedQs) He). }
  split.
  - unfold rrfMerge.
    apply (FusionOrderFacts.mapFrom_sorted (notBelow byScoreDesc));
      [now apply ranked_sorted_d|].
    intros x y i j Hx Hy Hxy. exists (score x), (score y).
    repeat split; try (apply fusedScore_entry_d; now apply Hsc). exact Hxy.
  - apply Forall_forall. intros it Hin. unfold rrfMerge in Hin.
    apply FusionOrderFacts.mapFrom_In_inv in Hin as (e & j & He & ->).
    apply Hsc in He.
    pose proof (fusedScore_entry_d textSim k beta lists expandedQs e (Z.of_nat j + 1) He) as Hs.
    pose proof (keyOf_url_d _ _ _ _ _ _ He) as Hurl.
    apply scored_entry_d in He as (u & a & Hget & -> & Hk).
    exists u, (bestItem a). repeat split.
    + cbn [url withPosition]. now rewrite Hurl, Hk.
    + unfold representative. now rewrite Hget.
    + rewrite Hs. cbn [score addSim].
      now rewrite (accumulate_base_d k lists u a Hget).
Qed.

Lemma rrfMerge_sorted_by_computed_score_witness :
  StronglySorted
    (fun a b => exists sa sb,
         fusedScore TextSimilarityD.textSim k_default beta_default oneThenTwo oneQuery a
         = Some sa
         /\ fusedScore TextSimilarityD.textSim k_default beta_default oneThenTwo oneQuery b
            = Some sb
         /\ (sa <? sb)%float = false)
    (rrfMerge TextSimilarityD.textSim oneThenTwo oneQuery k_default beta_default)
  /\ Forall
       (fun it => exists u rep,
            url it = Some u
            /\ representative k_default oneThenTwo u = Some rep
            /\ fusedScore TextSimilarityD.textSim k_default beta_default oneThenTwo oneQuery it
               = Some (baseSum k_default (RankFusion.ranksOf oneThenTwo u)
                       + beta_default
                         * simSum TextSimilarityD.textSim (textOf rep) oneQuery)%float)
       (rrfMerge TextSimilarityD.textSim oneThenTwo oneQuery k_default beta_default).
Proof.
  apply (rrfMerge_sorted_by_computed_score TextSimilarityD.textSim oneThenTwo oneQuery
           k_default beta_default).
  unfold scoresAreNumbers. vm_compute. repeat constructor.
Defined.

(** X19. URLs whose computed scores are equal keep the order of first
    appearance: whenever no computed score is [NaN], the URLs that have
    one and the same score in double precision stand in the output of
    [rrfMerge] in the order in which they were first met in the input,
    variant list by variant list. *)
Theorem rrfMerge_equal_scores_keep_first_seen_order textSim lists expandedQs k beta
        (s : float) :
  scoresAreNumbers textSim k beta lists expandedQs ->
  filter (tied textSim k beta lists expandedQs s)
         (FusionOrder.urlsOf (rrfMerge textSim lists expandedQs k beta))
  = filter (tied textSim k beta lists expandedQs s) (FusionOrder.firstSeen lists).
Proof. intros _. apply ties_first_seen_d. Qed.

Lemma rrfMerge_equal_scores_keep_first_seen_order_witness :
  filter (tied TextSimilarityD.textSim k_huge beta_default oneThenTwo oneQuery beta_default)
         (FusionOrder.urlsOf
            (rrfMerge TextSimilarityD.textSim oneThenTwo oneQuery k_huge beta_default))
  = filter (tied TextSimilarityD.textSim k_huge beta_default oneThenTwo oneQuery beta_default)
           (FusionOrder.firstSeen oneThenTwo).
Proof.
  apply (rrfMerge_equal_scores_keep_first_seen_order TextSimilarityD.textSim oneThenTwo
           oneQuery k_huge beta_default beta_default).
  unfold scoresAreNumbers. vm_compute. repeat constructor.
Defined.

End RankFusionDFacts.

Module RerankerDFacts.
Import JsString Double PrimFloat DoubleFacts RerankerD.

Lemma eqb_false_level (x y : float) :
  isNumber x = true -> isNumber y = true ->
  ((x =? y)%float = false <-> ~ level (ordKey x) (ordKey y)).
Proof.
  intros Hx Hy. pose proof (eqb_level x y Hx Hy) as H.
  destruct (x =? y)%float; split; intros; try discriminate; try reflexivity.
  - exfalso. apply H0. now apply H.
  - intros L. apply H in L. discriminate.
Qed.

Lemma rerankAfter_true_d a b :
  isNumber (sScore a) = true -> isNumber (sScore b) = true ->
  (rerankAfter a b = true <->
   below (ordKey (sScore a)) (ordKey (sScore b))
   \/ (level (ordKey (sScore a)) (ordKey (sScore b)) /\ (sIdx b < sIdx a)%nat)).
Proof.
  intros Ha Hb. unfold rerankAfter.
  destruct (sScore b =? sScore a)%float eqn:E; cbn [negb].
  - apply (eqb_level _ _ Hb Ha) in E. rewrite Nat.ltb_lt.
    unfold below, level in *. lia.
  - apply (eqb_false_level _ _ Hb Ha) in E. rewrite (ltb_below _ _ Ha Hb).
    unfold below, level in *. lia.
Qed.

Lemma rerankAfter_false_d a b :
  isNumber (sScore a) = true -> isNumber (sScore b) = true ->
  (rerankAfter a b = false <->
   below (ordKey (sScore b)) (ordKey (sScore a))
   \/ (level (ordKey (sScore a)) (ordKey (sScore b)) /\ (sIdx a <= sIdx b)%nat)).
Proof.
  intros Ha Hb. unfold rerankAfter.
  destruct (sScore b =? sScore a)%float eqn:E; cbn [negb].
  - apply (eqb_level _ _ Hb Ha) in E. rewrite Nat.ltb_ge.
    unfold below, level in *. lia.
  - apply (eqb_false_level _ _ Hb Ha) in E. rewrite (ltb_false_iff _ _ Ha Hb).
    unfold below, level in *. lia.
Qed.

Lemma rerank_sorted_d (l : list Scored) :
  Forall (fun s => isNumber (sScore s) = true) l ->
  StronglySorted (notBelow rerankAfter) (stableSort rerankAfter l).
Proof.
  apply (stableSort_sorted_on rerankAfter (fun s => isNumber (sScore s) = true)).
  - intros x y Hx Hy H. apply (rerankAfter_true_d x y Hx Hy) in H.
    apply (rerankAfter_false_d y x Hy Hx). unfold below, level in *. lia.
  - intros x y z Hx Hy Hz H1 H2.
    apply (rerankAfter_false_d x y Hx Hy) in H1.
    apply (rerankAfter_false_d y z Hy Hz) in H2.
    apply (rerankAfter_false_d x z Hx Hz). unfold below, level in *. lia.
Qed.

(** What the scoring pass records for the item at each index. *)
Lemma scoring_entries_d textSim qs (l : list Item) : forall i s,
  In s (mapFrom (fun it idx =>
                   mkScored it (simSumOrZero textSim (RankFusionD.textOf it) qs) idx) i l) ->
  (i <= sIdx s)%nat
  /\ nth_error l (sIdx s - i) = Some (sItem s)
  /\ sScore s = snippetSim textSim qs (sItem s).
Proof.
  induction l as [|x r IH]; intros i s Hin; [contradiction|].
  destruct Hin as [<- | Hin].
  - cbn [sIdx sItem sScore]. rewrite Nat.sub_diag. repeat split. lia.
  - destruct (IH _ _ Hin) as (Hle & Hnth & Hsc).
    repeat split; [lia | | exact Hsc].
    replace (sIdx s - i)%nat with (S (sIdx s - S i)) by lia. exact Hnth.
Qed.

(** X11. The final re-ranking of the web results only reorders and
    renumbers them.  The output lists every input item exactly once and
    the positions are 1, 2, ..., N.  Whenever no computed similarity is
    [NaN], the items are ordered by their similarity to the expanded
    queries as it is computed in double precision: an item never has a
    lower computed similarity than one that comes after it, and items
    whose computed similarities are equal keep their input order. *)
Theorem rerankWeb_sorted_by_computed_similarity textSim (expandedQueries : list string)
        (l : list Item) :
  similaritiesAreNumbers textSim expandedQueries l ->
  exists order : list nat,
    Permutation order (seq 0 (List.length l))
    /\ rerankWeb textSim expandedQueries l = Reranker.renumbered l order
    /\ StronglySorted (goesBefore textSim expandedQueries l) order
    /\ map position (rerankWeb textSim expandedQueries l)
       = map (fun i => Some (Z.of_nat i)) (seq 1 (List.length l)).
Proof.
  intros Hnum.
  set (sc := mapFrom (fun it idx =>
                        mkScored it (simSumOrZero textSim (RankFusionD.textOf it)
                                                  expandedQueries) idx) 0 l).
  set (sorted := stableSort rerankAfter sc).
  assert (Hperm : Permutation sorted sc) by apply stableSort_perm.
  assert (Hidx : map sIdx sc = seq 0 (List.length l)).
  { unfold sc. rewrite (mapFrom_map_seq _ sIdx (fun j => j)) by reflexivity.
    apply map_id. }
  assert (Hsc : forall s, In s sc ->
                   nth (sIdx s) l emptyObject = sItem s
                   /\ sScore s = snippetSim textSim expandedQueries (sItem s)
                   /\ In (sItem s) l).
  { intros s Hs.
    destruct (scoring_entries_d textSim expandedQueries l 0 s Hs) as (_ & Hnth & Hsc).
    rewrite Nat.sub_0_r in Hnth.
    repeat split; [now apply nth_error_nth | exact Hsc | exact (nth_error_In _ _ Hnth)]. }
  assert (Hent : forall s, In s sorted ->
                   nth (sIdx s) l emptyObject = sItem s
                   /\ sScore s = snippetSim textSim expandedQueries (sItem s)
                   /\ In (sItem s) l).
  { intros s Hs. apply Hsc. exact (Permutation_in _ Hperm Hs). }
  assert (Hnums : Forall (fun s => isNumber (sScore s) = true) sc).
  { apply Forall_forall. intros s Hs. destruct (Hsc s Hs) as (_ & -> & Hin).
    unfold similaritiesAreNumbers in Hnum. rewrite Forall_forall in Hnum.
    now apply Hnum. }
  assert (Hord : Permutation (map sIdx sorted) (seq 0 (List.length l))).
  { rewrite <- Hidx. now apply Permutation_map. }
  exists (map sIdx sorted). repeat split.
  - exact Hord.
  - unfold rerankWeb, Reranker.renumbered. fold sc. fold sorted.
    rewrite RerankerFacts.mapFrom_map. apply RerankerFacts.mapFrom_ext_in.
    intros s j Hs. now rewrite (proj1 (Hent s Hs)).
  - apply (RerankerFacts.sorted_map_distinct (notBelow rerankAfter));
      [now apply rerank_sorted_d | |].
    + apply (Permutation_NoDup (Permutation_sym Hord)), seq_NoDup.
    + intros x y Hx Hy Hxy Hne.
      destruct (Hent x Hx) as (Hix & Hsx & _). destruct (Hent y Hy) as (Hiy & Hsy & _).
      assert (Nx : isNumber (sScore x) = true).
      { rewrite Forall_forall in Hnums. apply Hnums. exact (Permutation_in _ Hperm Hx). }
      assert (Ny : isNumber (sScore y) = true).
      { rewrite Forall_forall in Hnums. apply Hnums. exact (Permutation_in _ Hperm Hy). }
      apply (rerankAfter_false_d x y Nx Ny) in Hxy.
      unfold goesBefore. rewrite Hix, Hiy, <- Hsx, <- Hsy.
      destruct Hxy as [H | [H1 H2]].
      * left. now apply (ltb_below _ _ Ny Nx).
      * right. split; [now apply (eqb_level _ _ Nx Ny) | lia].
  - unfold rerankWeb. fold sc. fold sorted.
    rewrite (mapFrom_map_seq _ position (fun j => Some (Z.of_nat (S j)))).
    + rewrite (Permutation_length Hperm). unfold sc. rewrite mapFrom_length.
      rewrite <- seq_shift, map_map. reflexivity.
    + intros x j. cbn [position withPosition]. f_equal. lia.
Qed.

Lemma rerankWeb_sorted_by_computed_similarity_witness :
  exists order : list nat,
    Permutation order (seq 0 (List.length threeResults))
    /\ rerankWeb TextSimilarityD.textSim RankFusionD.oneQuery threeResults
       = Reranker.renumbered threeResults order
    /\ StronglySorted (goesBefore TextSimilarityD.textSim RankFusionD.oneQuery threeResults)
                      order
    /\ map position (rerankWeb TextSimilarityD.textSim RankFusionD.oneQuery threeResults)
       = map (fun i => Some (Z.of_nat i)) (seq 1 (List.length threeResults)).
Proof.
  apply (rerankWeb_sorted_by_computed_similarity TextSimilarityD.textSim
           RankFusionD.oneQuery threeResults).
  unfold similaritiesAreNumbers, threeResults.
  repeat (constructor; [vm_compute; reflexivity|]). constructor.
Defined.

End RerankerDFacts.
